(** * Log-based deployment polling of the EnforceAuth deploy action

    A shallow embedding of [pollForCompletion] and its helpers
    ([getLogId], [parseTimestamp], [calculatePhaseDurations], [isSuccessful],
    [isFailed]) and of the part of [run] in [main.ts] that consumes the
    polling result.

    The repository carries three revisions of the log-based poller:
    - the current one, with phase timings, the fail-fast on ERROR-level
      entries and the authorization short-circuit (the text that follows the
      first separator in [src/oidc.ts], lines 214-645);
    - [src/polling.ts], the revision before phase timings were added;
    - the first log-based revision, which throws on timeout (the text after
      the second separator in [src/oidc.ts], lines 646-842).
    The top level of this file embeds the current revision; the two older
    ones are embedded in the modules [PollingTs] and [Throwing].

    Modelling conventions.
    - A JavaScript string is a [string]; a character stands for one code unit.
      The only case conversions the poller compares against are ["error"] and
      ["debug"], whose letters have no non-ASCII upper-case form, so the
      ASCII case maps below agree with [toLowerCase] on every comparison made.
    - Numbers that the code handles are epoch milliseconds and millisecond
      counts; they are integers and are modelled in [Z].
    - [Date.now()], the log fetcher and [sleep] are the environment: a run
      is driven by a script of clock readings and fetch outcomes, and
      everything the poller does to the outside (fetch calls, sleeps, lines
      written through [core.info], [core.warning], [core.error]) is
      recorded, in order, as a list of events.
    - The text of a progress line is kept structured (which line, with which
      arguments) instead of rendered: [formatDuration] goes through
      floating-point [toFixed].
    - [seenLogIds] and [seenPhases] are [Set]s of strings, modelled as
      [gset string].  [phaseTimings] is an object used as a dictionary; the
      code reads it only at phase names it has written, so it is modelled
      as a [gmap] from names to records.  One name is special in a plain
      object: [__proto__] names the prototype, so writing a record under it
      creates no own property, while reading it back still gives that
      record.  For that name the map holds a record where the object has no
      own one; statements about which names have a record leave it out. *)

From stdpp Require Import gmap strings list fin_maps pretty.
From Stdlib Require Import ZArith Ascii.

Local Open Scope Z_scope.

(** ** JavaScript string primitives used by the poller *)

Module Js.

Definition lowerChar (c : ascii) : ascii :=
  let n := nat_of_ascii c in
  if (Nat.leb 65 n && Nat.leb n 90)%bool then ascii_of_nat (n + 32) else c.

Definition upperChar (c : ascii) : ascii :=
  let n := nat_of_ascii c in
  if (Nat.leb 97 n && Nat.leb n 122)%bool then ascii_of_nat (n - 32) else c.

Fixpoint mapChars (f : ascii -> ascii) (s : string) : string :=
  match s with
  | EmptyString => EmptyString
  | String c s' => String (f c) (mapChars f s')
  end.

(** [s.toLowerCase()] and [s.toUpperCase()] *)
Definition toLowerCase : string -> string := mapChars lowerChar.
Definition toUpperCase : string -> string := mapChars upperChar.

(** [s.slice(start, end)]; [end_ = None] is the one-argument form.  Negative
    indices count from the end, and both are clamped to the string. *)
Definition slice (s : string) (start : Z) (end_ : option Z) : string :=
  let len := Z.of_nat (String.length s) in
  let clamp k := if k <? 0 then Z.max (len + k) 0 else Z.min k len in
  let from := clamp start in
  let to := match end_ with Some e => clamp e | None => len end in
  String.substring (Z.to_nat from) (Z.to_nat (to - from)) s.

(** [s.includes(needle)] *)
Fixpoint includes (s needle : string) : bool :=
  String.prefix needle s ||
  match s with
  | EmptyString => false
  | String _ s' => includes s' needle
  end.

Fixpoint spaces (n : nat) : string :=
  match n with
  | O => EmptyString
  | S n' => String " "%char (spaces n')
  end.

(** [s.padEnd(n)] *)
Definition padEnd (s : string) (n : nat) : string :=
  s +:+ spaces (n - String.length s).

(** Truthiness of an optional string property: [undefined] and [""] are
    falsy. *)
Definition truthy (o : option string) : bool :=
  match o with
  | Some s => negb (String.eqb s "")
  | None => false
  end.

(** [o || d] for an optional string [o] *)
Definition or_else (o : option string) (d : string) : string :=
  match o with
  | Some s => if String.eqb s "" then d else s
  | None => d
  end.

End Js.

(** ** Data model ([api-client.ts], [polling.ts]) *)

(** A value of type [unknown] as it comes out of [JSON.parse]. *)
Local Unset Elimination Schemes.
Inductive JsValue : Type :=
| JsNull
| JsBoolean (b : bool)
| JsNumber (n : Z)
| JsString (s : string)
| JsArray (items : list JsValue)
| JsObject (fields : list (string * JsValue)).
Local Set Elimination Schemes.

(** [metadata.details], with the properties the poller reads. *)
Module Details.
Record t : Type := mk {
  phase : option string;
  bundle_version : option string;
  deployment_url : option string
}.
End Details.

(** [LogEntry.metadata].  The poller reads [action], [details], [timestamp]
    and [duration_ms] at their declared use types.  [error] and [message]
    are the two properties it reads as [unknown] and guards with [typeof],
    in the branch of the ERROR level; [message] is read once more without a
    guard, where a failure action is reported, as the string it is declared
    to be.  [None] is an absent property. *)
Module Metadata.
Record t : Type := mk {
  action : option string;
  details : option Details.t;
  timestamp : option string;
  duration_ms : option Z;
  message : option JsValue;
  error : option JsValue
}.

(** [metadata.message] at its declared type, [string | undefined]. *)
Definition messageText (metadata : t) : option string :=
  match message metadata with
  | Some (JsString s) => Some s
  | _ => None
  end.
End Metadata.

Module LogEntry.
Record t : Type := mk {
  timestamp : string;
  level : string;
  message : string;
  metadata : option Metadata.t
}.
End LogEntry.

Inductive LogVerbosity : Type := none | quiet | normal | verbose.

Global Instance LogVerbosity_eq_dec : EqDecision LogVerbosity.
Proof. solve_decision. Defined.

Module PollingConfig.
Record t : Type := mk {
  pollDelayMs : option Z;
  logLimit : option Z;
  logVerbosity : option LogVerbosity
}.
End PollingConfig.

(** [Required<PollingConfig>] *)
Module Cfg.
Record t : Type := mk {
  pollDelayMs : Z;
  logLimit : Z;
  logVerbosity : LogVerbosity
}.
End Cfg.

Definition DEFAULT_POLLING_CONFIG : Cfg.t :=
  {| Cfg.pollDelayMs := 2000; Cfg.logLimit := 200; Cfg.logVerbosity := normal |}.

(** [{ ...DEFAULT_POLLING_CONFIG, ...config }] *)
Definition mergeConfig (config : PollingConfig.t) : Cfg.t :=
  {| Cfg.pollDelayMs :=
       default (Cfg.pollDelayMs DEFAULT_POLLING_CONFIG) (PollingConfig.pollDelayMs config);
     Cfg.logLimit :=
       default (Cfg.logLimit DEFAULT_POLLING_CONFIG) (PollingConfig.logLimit config);
     Cfg.logVerbosity :=
       default (Cfg.logVerbosity DEFAULT_POLLING_CONFIG) (PollingConfig.logVerbosity config) |}.

Module PhaseTiming.
Record t : Type := mk {
  startedAt : string;
  durationMs : option Z
}.
End PhaseTiming.

Global Instance PhaseTiming_eq_dec : EqDecision PhaseTiming.t.
Proof. solve_decision. Defined.

Inductive Status : Type := success | failed | timeout.

Global Instance Status_eq_dec : EqDecision Status.
Proof. solve_decision. Defined.

Module PollingResult.
Record t : Type := mk {
  status : Status;
  durationMs : option Z;
  errorMessage : option string;
  phases : list string;
  phaseTimings : option (gmap string PhaseTiming.t);
  bundleVersion : option string;
  deploymentUrl : option string
}.
End PollingResult.

(** ** [getLogId] *)

(** [metadata?.action], [metadata?.details?.phase] and the like *)
Definition metadataAction (log : LogEntry.t) : option string :=
  LogEntry.metadata log ≫= Metadata.action.

Definition getLogId (log : LogEntry.t) : string :=
  let msg := LogEntry.message log in
  let messageHash :=
    pretty (String.length msg) +:+ Js.slice msg 0 (Some 20) +:+ Js.slice msg (-20) None in
  let metadataId := Js.or_else (metadataAction log) "" in
  LogEntry.timestamp log +:+ "-" +:+ messageHash +:+ "-" +:+ metadataId.

Definition formatTimestamp (isoTimestamp : string) : string :=
  Js.slice isoTimestamp 11 (Some 23).

Example getLogId_ex :
  getLogId (LogEntry.mk "2024-05-01T10:00:00.000Z" "info" "Phase sync finished" None)
  = "2024-05-01T10:00:00.000Z-19Phase sync finishedPhase sync finished-".
Proof. vm_compute. reflexivity. Qed.

Example formatTimestamp_ex : formatTimestamp "2024-05-01T10:00:03.250Z" = "10:00:03.250".
Proof. vm_compute. reflexivity. Qed.

Example includes_ex :
  Js.includes "API request failed: Forbidden" "Forbidden" = true
  /\ Js.includes "API request failed: forbidden" "Forbidden" = false.
Proof. vm_compute. auto. Qed.

(** ** What the poller does to the outside *)

(** The lines written through [core.info], [core.warning] and [core.error],
    one constructor per template in the source, with the template's
    arguments. *)
Inductive Message : Type :=
| PollingStarted (timeoutMinutes : Z)
| Blank
| TimedOut (timeoutMinutes : Z) (phases : list string)
| AuthorizationError
| FetchFailed (message : string)
| LogLine (logTime level message : string)
| PhaseFailed (time phase : string)
| DeploymentFailed (errorMessage : string)
| PhaseDone (time phase : string) (durationMs : Z)
| PhaseStarted (time phase : string)
| DeploymentCompleted (durationMs : option Z)
| BundleVersion (version : string)
| DeploymentUrl (url : string)
| PhaseDurationsHeader
| PhaseDuration (phase : string) (durationMs : Z)
(* lines of the older revisions only *)
| PhaseChecked (time phase : string)
| PipelineFailedMark (time : string)
| PhaseTicked (time phase : string).

Inductive Event : Type :=
| core_info (m : Message)
| core_warning (m : Message)
| core_error (m : Message)
| call_getPolicyLogs (entityId runId : string) (limit : Z)
| call_sleep (ms : Z)
| stdout_write (text : string).

(** What [client.getPolicyLogs] does on one call. *)
Inductive FetchOutcome : Type :=
| Fetched (logs : list LogEntry.t)
| FetchThrew (message : string).

(** One turn of the [while (true)] loop as the environment sees it: the
    reading of [Date.now()] at the top of the turn and the outcome of the
    fetch, should the turn get to it. *)
Record Tick : Type := mkTick {
  now : Z;
  response : FetchOutcome
}.

(** How a call of [pollForCompletion] stands when the script of turns is
    used up: it has returned, it has thrown, or it is still in the loop with
    the session state it has built. *)
Inductive Outcome (S : Type) : Type :=
| Returned (r : PollingResult.t)
| Threw (message : Message)
| Polling (st : S).
Arguments Returned {S} r.
Arguments Threw {S} message.
Arguments Polling {S} st.

Definition when (b : bool) (evs : list Event) : list Event :=
  if b then evs else [].

(** [xs[xs.length - 1]] of a non-empty array of strings *)
Definition lastOf (xs : list string) : string := default "" (last xs).

Definition nonEmpty (xs : list string) : bool := (0 <? length xs)%nat.

Definition isPermanentAuthError (message : string) : bool :=
  Js.includes message "insufficient_scope" || Js.includes message "Forbidden".

Definition SCOPE_ERROR_MESSAGE : string :=
  "Missing 'pipeline:read' scope in trust policy. " +:+
  "Add the 'Read' permission in the EnforceAuth console.".

Definition NO_ERROR_MESSAGE : string := "Deployment failed without error message".

(** The session state: the four [const] collections that
    [pollForCompletion] declares before its loop. *)
Record Session : Type := mkSession {
  seenLogIds : gset string;
  seenPhases : gset string;
  phases : list string;
  phaseTimings : gmap string PhaseTiming.t
}.

Definition newSession : Session :=
  {| seenLogIds := ∅; seenPhases := ∅; phases := []; phaseTimings := ∅ |}.

Definition showPhases (cfg : Cfg.t) : bool :=
  negb (bool_decide (Cfg.logVerbosity cfg = none)).
Definition showLogs (cfg : Cfg.t) : bool :=
  bool_decide (Cfg.logVerbosity cfg = normal) || bool_decide (Cfg.logVerbosity cfg = verbose).
Definition showDebugLogs (cfg : Cfg.t) : bool :=
  bool_decide (Cfg.logVerbosity cfg = verbose).

(** [!timing.durationMs]: unset and [0] are both falsy. *)
Definition durationUnset (d : option Z) : bool :=
  match d with
  | None => true
  | Some z => z =? 0
  end.

(** [log.metadata?.error ?? log.metadata?.message] *)
Definition rawError (log : LogEntry.t) : option JsValue :=
  match LogEntry.metadata log ≫= Metadata.error with
  | Some JsNull | None => LogEntry.metadata log ≫= Metadata.message
  | Some v => Some v
  end.

(** [typeof rawError === "string" ? rawError : log.message] *)
Definition errorLevelMessage (log : LogEntry.t) : string :=
  match rawError log with
  | Some (JsString s) => s
  | _ => LogEntry.message log
  end.

(** ** [isSuccessful], [isFailed] and their caller *)

Definition isSuccessful (result : PollingResult.t) : bool :=
  bool_decide (PollingResult.status result = success).

Definition isFailed (result : PollingResult.t) : bool :=
  bool_decide (PollingResult.status result = failed)
  || bool_decide (PollingResult.status result = timeout).

(** What [run] in [main.ts] writes once [pollForCompletion] has returned
    [result]: the outputs, then [core.setFailed] if the result is a
    failure.  [wallSeconds] is [Math.round((Date.now() - startTime) / 1000)],
    the fallback for a result without [durationMs]; [roundSeconds] is
    [Math.round(ms / 1000)] on a millisecond count. *)
Inductive Output : Type :=
| setOutput_status (s : Status)
| setOutput_duration_seconds (seconds : Z)
| setOutput_bundle_version (v : string)
| setOutput_deployment_url (u : string)
| setFailed (message : string).

Definition roundSeconds (ms : Z) : Z := (ms + 500) / 1000.

Definition reportResult (wallSeconds : Z) (result : PollingResult.t) : list Output :=
  [setOutput_status (PollingResult.status result);
   setOutput_duration_seconds
     (match PollingResult.durationMs result with
      | Some ms => if ms =? 0 then wallSeconds else roundSeconds ms
      | None => wallSeconds
      end)]
  ++ (if Js.truthy (PollingResult.bundleVersion result)
      then [setOutput_bundle_version (default "" (PollingResult.bundleVersion result))]
      else [])
  ++ (if Js.truthy (PollingResult.deploymentUrl result)
      then [setOutput_deployment_url (default "" (PollingResult.deploymentUrl result))]
      else [])
  ++ (if isFailed result
      then [setFailed ("Deployment failed: " +:+
                       Js.or_else (PollingResult.errorMessage result) NO_ERROR_MESSAGE)]
      else []).

(** ** A date parser to run the model on

    The ISO 8601 date-time form that every ECMAScript engine accepts,
    [YYYY-MM-DDTHH:mm:ss.sssZ], read as epoch milliseconds. *)

Definition digitOf (c : ascii) : option Z :=
  let n := nat_of_ascii c in
  if (Nat.leb 48 n && Nat.leb n 57)%bool then Some (Z.of_nat (n - 48)) else None.

Fixpoint digitsFrom (acc : Z) (s : string) : option Z :=
  match s with
  | EmptyString => Some acc
  | String c s' => d ← digitOf c; digitsFrom (10 * acc + d) s'
  end.

Definition number (s : string) : option Z :=
  match s with
  | EmptyString => None
  | _ => digitsFrom 0 s
  end.

(** Days from 1970-01-01 to the given day of the proleptic Gregorian
    calendar. *)
Definition daysFromCivil (y m d : Z) : Z :=
  let y' := if m <=? 2 then y - 1 else y in
  let era := y' / 400 in
  let yoe := y' - era * 400 in
  let mp := (m + 9) mod 12 in
  let doy := (153 * mp + 2) / 5 + d - 1 in
  let doe := yoe * 365 + yoe / 4 - yoe / 100 + doy in
  era * 146097 + doe - 719468.

Definition isLeapYear (y : Z) : bool :=
  (y mod 4 =? 0) && (negb (y mod 100 =? 0) || (y mod 400 =? 0)).

Definition daysInMonth (y m : Z) : Z :=
  if m =? 2 then (if isLeapYear y then 29 else 28)
  else if (m =? 4) || (m =? 6) || (m =? 9) || (m =? 11) then 30
  else 31.

Definition isoTime (s : string) : option Z :=
  if bool_decide (String.length s = 24%nat
                  ∧ Js.slice s 4 (Some 5) = "-" ∧ Js.slice s 7 (Some 8) = "-"
                  ∧ Js.slice s 10 (Some 11) = "T" ∧ Js.slice s 13 (Some 14) = ":"
                  ∧ Js.slice s 16 (Some 17) = ":" ∧ Js.slice s 19 (Some 20) = "."
                  ∧ Js.slice s 23 (Some 24) = "Z") then
    y ← number (Js.slice s 0 (Some 4));
    mo ← number (Js.slice s 5 (Some 7));
    d ← number (Js.slice s 8 (Some 10));
    h ← number (Js.slice s 11 (Some 13));
    mi ← number (Js.slice s 14 (Some 16));
    sec ← number (Js.slice s 17 (Some 19));
    ms ← number (Js.slice s 20 (Some 23));
    if bool_decide (1 ≤ mo ≤ 12 ∧ 1 ≤ d ≤ daysInMonth y mo ∧ h ≤ 23 ∧ mi ≤ 59 ∧ sec ≤ 59) then
      Some ((((daysFromCivil y mo d * 24 + h) * 60 + mi) * 60 + sec) * 1000 + ms)
    else None
  else None.

Example isoTime_epoch : isoTime "1970-01-01T00:00:00.000Z" = Some 0.
Proof. vm_compute. reflexivity. Qed.

Example isoTime_ex : isoTime "2024-05-01T10:00:03.250Z" = Some 1714557603250.
Proof. vm_compute. reflexivity. Qed.

Example isoTime_bad :
  isoTime "yesterday" = None /\ isoTime "2023-02-29T00:00:00.000Z" = None.
Proof. vm_compute. auto. Qed.


(** ** Sample entries

    Entries as the pipeline writes them, to run the model on. *)

Module Sample.

(** An INFO line that reports the start of phase [name] at instant [ts]. *)
Definition phase (name ts : string) : LogEntry.t :=
  LogEntry.mk ts "info" ("Phase " +:+ name +:+ " started")
    (Some (Metadata.mk (Some "report_phase_change_success")
             (Some (Details.mk (Some name) None None)) None None None None)).

Definition pipeline_complete (ts : string) (duration_ms : option Z)
    (bundle_version : option string) : LogEntry.t :=
  LogEntry.mk ts "info" "Pipeline complete"
    (Some (Metadata.mk (Some "pipeline_complete")
             (Some (Details.mk None bundle_version None)) None duration_ms None None)).

Definition pipeline_failed (ts : string) (message : option string) : LogEntry.t :=
  LogEntry.mk ts "info" "Pipeline failed"
    (Some (Metadata.mk (Some "pipeline_failed") None None None (JsString <$> message) None)).

(** A plain line at the given level, with the given [metadata]. *)
Definition line (ts level text : string) (metadata : option Metadata.t) : LogEntry.t :=
  LogEntry.mk ts level text metadata.

Definition defaults : PollingConfig.t := PollingConfig.mk None None None.

Definition withVerbosity (v : LogVerbosity) : PollingConfig.t :=
  PollingConfig.mk None None (Some v).

End Sample.

(** ** The revision in [src/polling.ts]

    The poller before phase timings: no [phaseTimings], no fail-fast on
    ERROR-level entries, no authorization short-circuit. *)

Module PollingTs.

Record Session : Type := mkSession {
  seenLogIds : gset string;
  seenPhases : gset string;
  phases : list string
}.

Definition newSession : Session :=
  {| seenLogIds := ∅; seenPhases := ∅; phases := [] |}.

Definition processEntry (cfg : Cfg.t) (st : Session) (log : LogEntry.t)
    : list Event * (Session + PollingResult.t) :=
  let logId := getLogId log in
  if decide (logId ∈ seenLogIds st) then ([], inl st) else
  let seen := {[logId]} ∪ seenLogIds st in
  let outLog :=
    when (showLogs cfg
          && (negb (String.eqb (Js.toLowerCase (LogEntry.level log)) "debug")
              || showDebugLogs cfg))
      [core_info (LogLine (formatTimestamp (LogEntry.timestamp log))
                          (Js.padEnd (Js.toUpperCase (LogEntry.level log)) 5)
                          (LogEntry.message log))] in
  match LogEntry.metadata log with
  | None => (outLog, inl (mkSession seen (seenPhases st) (phases st)))
  | Some metadata =>
    if negb (Js.truthy (Metadata.action metadata)) then
      (outLog, inl (mkSession seen (seenPhases st) (phases st)))
    else
    let action := default "" (Metadata.action metadata) in
    let stamp := Js.or_else (Metadata.timestamp metadata) (LogEntry.timestamp log) in
    let '(outPhase, st1) :=
      if String.eqb action "report_phase_change_success" then
        let phase := Metadata.details metadata ≫= Details.phase in
        if Js.truthy phase && negb (bool_decide (default "" phase ∈ seenPhases st)) then
          let phase := default "" phase in
          (when (showPhases cfg) [core_info (PhaseChecked (formatTimestamp stamp) phase)],
           mkSession seen ({[phase]} ∪ seenPhases st) (phases st ++ [phase]))
        else ([], mkSession seen (seenPhases st) (phases st))
      else ([], mkSession seen (seenPhases st) (phases st)) in
    if String.eqb action "pipeline_complete" then
      let durationMs := Metadata.duration_ms metadata in
      let bundleVersion := Metadata.details metadata ≫= Details.bundle_version in
      let deploymentUrl := Metadata.details metadata ≫= Details.deployment_url in
      (outLog ++ outPhase
       ++ [core_info Blank; core_info (DeploymentCompleted durationMs)]
       ++ when (Js.truthy bundleVersion) [core_info (BundleVersion (default "" bundleVersion))]
       ++ when (Js.truthy deploymentUrl) [core_info (DeploymentUrl (default "" deploymentUrl))],
       inr {| PollingResult.status := success;
              PollingResult.durationMs := durationMs;
              PollingResult.errorMessage := None;
              PollingResult.phases := phases st1;
              PollingResult.phaseTimings := None;
              PollingResult.bundleVersion := bundleVersion;
              PollingResult.deploymentUrl := deploymentUrl |})
    else if String.eqb action "pipeline_failed" || String.eqb action "pipeline_error" then
      let errorMessage := Js.or_else (Metadata.messageText metadata) NO_ERROR_MESSAGE in
      (outLog ++ outPhase
       ++ when (showPhases cfg)
            [core_info (PipelineFailedMark (formatTimestamp stamp)); core_info Blank]
       ++ [core_error (DeploymentFailed errorMessage)],
       inr {| PollingResult.status := failed;
              PollingResult.durationMs := None;
              PollingResult.errorMessage := Some errorMessage;
              PollingResult.phases := phases st1;
              PollingResult.phaseTimings := None;
              PollingResult.bundleVersion := None;
              PollingResult.deploymentUrl := None |})
    else (outLog ++ outPhase, inl st1)
  end.

Fixpoint processLogs (cfg : Cfg.t) (st : Session) (logs : list LogEntry.t)
    : list Event * (Session + PollingResult.t) :=
  match logs with
  | [] => ([], inl st)
  | log :: rest =>
    match processEntry cfg st log with
    | (evs, inl st') =>
      let '(evs', r) := processLogs cfg st' rest in (evs ++ evs', r)
    | (evs, inr result) => (evs, inr result)
    end
  end.

Fixpoint pollLoop (cfg : Cfg.t) (entityId runId : string) (timeoutMinutes startTime : Z)
    (st : Session) (ticks : list Tick) : list Event * Outcome Session :=
  match ticks with
  | [] => ([], Polling st)
  | tick :: rest =>
    let elapsed := now tick - startTime in
    let timeoutMs := timeoutMinutes * 60 * 1000 in
    if timeoutMs <=? elapsed then
      ([core_error (TimedOut timeoutMinutes (phases st))],
       Returned {| PollingResult.status := timeout;
                   PollingResult.durationMs := None;
                   PollingResult.errorMessage := None;
                   PollingResult.phases := phases st;
                   PollingResult.phaseTimings := None;
                   PollingResult.bundleVersion := None;
                   PollingResult.deploymentUrl := None |})
    else
    let fetch := call_getPolicyLogs entityId runId (Cfg.logLimit cfg) in
    match response tick with
    | FetchThrew message =>
      let '(evs, out) := pollLoop cfg entityId runId timeoutMinutes startTime st rest in
      ([fetch; core_warning (FetchFailed message); call_sleep (Cfg.pollDelayMs cfg)] ++ evs,
       out)
    | Fetched logs =>
      match processLogs cfg st logs with
      | (evs, inr result) => (fetch :: evs, Returned result)
      | (evs, inl st') =>
        let '(evs', out) := pollLoop cfg entityId runId timeoutMinutes startTime st' rest in
        (fetch :: evs ++ [call_sleep (Cfg.pollDelayMs cfg)] ++ evs', out)
      end
    end
  end.

Definition pollForCompletion (startTime : Z) (ticks : list Tick)
    (entityId runId : string) (timeoutMinutes : Z) (config : PollingConfig.t)
    : list Event * Outcome Session :=
  let cfg := mergeConfig config in
  let '(evs, out) := pollLoop cfg entityId runId timeoutMinutes startTime newSession ticks in
  ([core_info (PollingStarted timeoutMinutes); core_info Blank] ++ evs, out).

End PollingTs.

(** ** The first log-based revision

    The text after the second separator in [src/oidc.ts]: identities made of
    the timestamp and the first 50 characters of the message, no verbosity,
    a progress dot per turn, and a thrown [Error] on timeout. *)

Module Throwing.

(** This revision's [PollingConfig]: both properties required. *)
Record Config : Type := mkConfig {
  pollDelayMs : Z;
  logLimit : Z
}.

Definition DEFAULT_POLLING_CONFIG : Config :=
  {| pollDelayMs := 2000; logLimit := 200 |}.

Definition getLogId (log : LogEntry.t) : string :=
  let messagePrefix := Js.slice (LogEntry.message log) 0 (Some 50) in
  LogEntry.timestamp log +:+ "-" +:+ messagePrefix.

Definition processEntry (st : PollingTs.Session) (log : LogEntry.t)
    : list Event * (PollingTs.Session + PollingResult.t) :=
  let logId := getLogId log in
  if decide (logId ∈ PollingTs.seenLogIds st) then ([], inl st) else
  let seen := {[logId]} ∪ PollingTs.seenLogIds st in
  let seenPhases := PollingTs.seenPhases st in
  let phases := PollingTs.phases st in
  match LogEntry.metadata log with
  | None => ([], inl (PollingTs.mkSession seen seenPhases phases))
  | Some metadata =>
    if negb (Js.truthy (Metadata.action metadata)) then
      ([], inl (PollingTs.mkSession seen seenPhases phases))
    else
    let action := default "" (Metadata.action metadata) in
    let stamp := Js.or_else (Metadata.timestamp metadata) (LogEntry.timestamp log) in
    let '(outPhase, st1) :=
      if String.eqb action "report_phase_change_success" then
        let phase := Metadata.details metadata ≫= Details.phase in
        if Js.truthy phase && negb (bool_decide (default "" phase ∈ seenPhases)) then
          let phase := default "" phase in
          ([core_info (PhaseTicked (formatTimestamp stamp) phase)],
           PollingTs.mkSession seen ({[phase]} ∪ seenPhases) (phases ++ [phase]))
        else ([], PollingTs.mkSession seen seenPhases phases)
      else ([], PollingTs.mkSession seen seenPhases phases) in
    if String.eqb action "pipeline_complete" then
      let durationMs := Metadata.duration_ms metadata in
      (outPhase ++ [core_info Blank; core_info (DeploymentCompleted durationMs)],
       inr {| PollingResult.status := success;
              PollingResult.durationMs := durationMs;
              PollingResult.errorMessage := None;
              PollingResult.phases := PollingTs.phases st1;
              PollingResult.phaseTimings := None;
              PollingResult.bundleVersion := None;
              PollingResult.deploymentUrl := None |})
    else if String.eqb action "pipeline_failed" || String.eqb action "pipeline_error" then
      let errorMessage := Js.or_else (Metadata.messageText metadata) NO_ERROR_MESSAGE in
      (outPhase ++ [core_info Blank; core_error (DeploymentFailed errorMessage)],
       inr {| PollingResult.status := failed;
              PollingResult.durationMs := None;
              PollingResult.errorMessage := Some errorMessage;
              PollingResult.phases := PollingTs.phases st1;
              PollingResult.phaseTimings := None;
              PollingResult.bundleVersion := None;
              PollingResult.deploymentUrl := None |})
    else (outPhase, inl st1)
  end.

Fixpoint processLogs (st : PollingTs.Session) (logs : list LogEntry.t)
    : list Event * (PollingTs.Session + PollingResult.t) :=
  match logs with
  | [] => ([], inl st)
  | log :: rest =>
    match processEntry st log with
    | (evs, inl st') =>
      let '(evs', r) := processLogs st' rest in (evs ++ evs', r)
    | (evs, inr result) => (evs, inr result)
    end
  end.

Fixpoint pollLoop (config : Config) (entityId runId : string) (timeoutMinutes startTime : Z)
    (st : PollingTs.Session) (ticks : list Tick) : list Event * Outcome PollingTs.Session :=
  match ticks with
  | [] => ([], Polling st)
  | tick :: rest =>
    let elapsed := now tick - startTime in
    let timeoutMs := timeoutMinutes * 60 * 1000 in
    if timeoutMs <=? elapsed then
      ([], Threw (TimedOut timeoutMinutes (PollingTs.phases st)))
    else
    let fetch := call_getPolicyLogs entityId runId (logLimit config) in
    match response tick with
    | FetchThrew message =>
      let '(evs, out) := pollLoop config entityId runId timeoutMinutes startTime st rest in
      ([fetch; core_warning (FetchFailed message); call_sleep (pollDelayMs config)] ++ evs,
       out)
    | Fetched logs =>
      match processLogs st logs with
      | (evs, inr result) => (fetch :: evs, Returned result)
      | (evs, inl st') =>
        let '(evs', out) := pollLoop config entityId runId timeoutMinutes startTime st' rest in
        (fetch :: evs ++ [stdout_write "."; call_sleep (pollDelayMs config)] ++ evs', out)
      end
    end
  end.

Definition pollForCompletion (startTime : Z) (ticks : list Tick)
    (entityId runId : string) (timeoutMinutes : Z) (config : Config)
    : list Event * Outcome PollingTs.Session :=
  let '(evs, out) :=
    pollLoop config entityId runId timeoutMinutes startTime PollingTs.newSession ticks in
  ([core_info (PollingStarted timeoutMinutes); core_info Blank] ++ evs, out).

End Throwing.
(** ** The current revision of the poller *)

Section Poller.

Local Set Default Proof Using "Type".

(** [new Date(timestamp).getTime()], with [None] for [NaN].  The parser
    belongs to the JavaScript runtime, so the development is parametric in
    it. *)
Variable Date_getTime : string -> option Z.

Definition parseTimestamp (timestamp : string) : option Z :=
  match Date_getTime timestamp with
  | Some time => Some time
  | None => None
  end.

(** The body of the [for] loop of [calculatePhaseDurations] at index [i],
    acting on the [result] object built so far. *)
Definition phaseDurationStep
    (phaseTimings : gmap string PhaseTiming.t) (phases : list string)
    (completedAt : option string)
    (result : gmap string PhaseTiming.t) (i : nat) : gmap string PhaseTiming.t :=
  match phases !! i with
  | None => result
  | Some phase =>
    match phaseTimings !! phase with
    | None => result
    | Some timing =>
      let result := <[phase := timing]> result in
      if durationUnset (PhaseTiming.durationMs timing) then
        match parseTimestamp (PhaseTiming.startedAt timing) with
        | None => result
        | Some startTime =>
          let endTime :=
            if (i <? length phases - 1)%nat then
              match phases !! (i + 1)%nat with
              | Some nextPhase =>
                match phaseTimings !! nextPhase with
                | Some nextTiming => parseTimestamp (PhaseTiming.startedAt nextTiming)
                | None => None
                end
              | None => None
              end
            else if Js.truthy completedAt then
              parseTimestamp (default "" completedAt)
            else None in
          match endTime with
          | Some endTime =>
            <[phase := {| PhaseTiming.startedAt := PhaseTiming.startedAt timing;
                          PhaseTiming.durationMs := Some (endTime - startTime) |}]> result
          | None => result
          end
        end
      else result
    end
  end.

Definition calculatePhaseDurations
    (phaseTimings : gmap string PhaseTiming.t) (phases : list string)
    (completedAt : option string) : gmap string PhaseTiming.t :=
  foldl (phaseDurationStep phaseTimings phases completedAt) ∅ (seq 0 (length phases)).

(** [timing?.durationMs] in the object returned by [calculatePhaseDurations] *)
Definition durationOf (timings : gmap string PhaseTiming.t) (phase : string) : option Z :=
  timings !! phase ≫= PhaseTiming.durationMs.

(** The body of [for (const log of logs)]: the events it emits, and either
    the session state with which the loop goes on or the result that
    [pollForCompletion] returns from inside the loop. *)
Definition processEntry (cfg : Cfg.t) (st : Session) (log : LogEntry.t)
    : list Event * (Session + PollingResult.t) :=
  let logId := getLogId log in
  if decide (logId ∈ seenLogIds st) then ([], inl st) else
  let seen := {[logId]} ∪ seenLogIds st in
  let phases0 := phases st in
  let timings0 := phaseTimings st in
  let logLevel := Js.toLowerCase (LogEntry.level log) in
  let outLog :=
    when (showLogs cfg && (negb (String.eqb logLevel "debug") || showDebugLogs cfg))
      [core_info (LogLine (formatTimestamp (LogEntry.timestamp log))
                          (Js.padEnd (Js.toUpperCase (LogEntry.level log)) 5)
                          (LogEntry.message log))] in
  if String.eqb logLevel "error" then
    let errorTime := formatTimestamp (LogEntry.timestamp log) in
    let errorMessage := errorLevelMessage log in
    (outLog
     ++ when (showPhases cfg && nonEmpty phases0)
          [core_info (PhaseFailed errorTime (lastOf phases0)); core_info Blank]
     ++ [core_error (DeploymentFailed errorMessage)],
     inr {| PollingResult.status := failed;
            PollingResult.durationMs := None;
            PollingResult.errorMessage := Some errorMessage;
            PollingResult.phases := phases0;
            PollingResult.phaseTimings := Some (calculatePhaseDurations timings0 phases0 None);
            PollingResult.bundleVersion := None;
            PollingResult.deploymentUrl := None |})
  else
  match LogEntry.metadata log with
  | None => (outLog, inl (mkSession seen (seenPhases st) phases0 timings0))
  | Some metadata =>
    if negb (Js.truthy (Metadata.action metadata)) then
      (outLog, inl (mkSession seen (seenPhases st) phases0 timings0))
    else
    let action := default "" (Metadata.action metadata) in
    let stamp := Js.or_else (Metadata.timestamp metadata) (LogEntry.timestamp log) in
    (* Handle phase transitions *)
    let '(outPhase, st1) :=
      if String.eqb action "report_phase_change_success" then
        let phase := Metadata.details metadata ≫= Details.phase in
        if Js.truthy phase && negb (bool_decide (default "" phase ∈ seenPhases st)) then
          let phase := default "" phase in
          (when (showPhases cfg && nonEmpty phases0)
             match (timings0 !! lastOf phases0 ≫= fun prevTiming =>
                      parseTimestamp (PhaseTiming.startedAt prevTiming)),
                   parseTimestamp stamp with
             | Some startTime, Some endTime =>
               [core_info (PhaseDone (formatTimestamp stamp) (lastOf phases0)
                                     (endTime - startTime))]
             | _, _ => []
             end
           ++ when (showPhases cfg) [core_info (PhaseStarted (formatTimestamp stamp) phase)],
           mkSession seen ({[phase]} ∪ seenPhases st) (phases0 ++ [phase])
             (<[phase := {| PhaseTiming.startedAt := stamp;
                            PhaseTiming.durationMs := None |}]> timings0))
        else ([], mkSession seen (seenPhases st) phases0 timings0)
      else ([], mkSession seen (seenPhases st) phases0 timings0) in
    (* Check for successful completion *)
    if String.eqb action "pipeline_complete" then
      let durationMs := Metadata.duration_ms metadata in
      let bundleVersion := Metadata.details metadata ≫= Details.bundle_version in
      let deploymentUrl := Metadata.details metadata ≫= Details.deployment_url in
      let finalTimings := calculatePhaseDurations (phaseTimings st1) (phases st1) (Some stamp) in
      (outLog ++ outPhase
       ++ when (showPhases cfg && nonEmpty (phases st1))
            match durationOf finalTimings (lastOf (phases st1)) with
            | Some d => [core_info (PhaseDone (formatTimestamp stamp) (lastOf (phases st1)) d)]
            | None => []
            end
       ++ [core_info Blank; core_info (DeploymentCompleted durationMs)]
       ++ when (Js.truthy bundleVersion) [core_info (BundleVersion (default "" bundleVersion))]
       ++ when (Js.truthy deploymentUrl) [core_info (DeploymentUrl (default "" deploymentUrl))]
       ++ when (showPhases cfg && (0 <? size finalTimings)%nat)
            ([core_info Blank; core_info PhaseDurationsHeader]
             ++ flat_map (fun phase =>
                  match durationOf finalTimings phase with
                  | Some d => [core_info (PhaseDuration phase d)]
                  | None => []
                  end) (phases st1)),
       inr {| PollingResult.status := success;
              PollingResult.durationMs := durationMs;
              PollingResult.errorMessage := None;
              PollingResult.phases := phases st1;
              PollingResult.phaseTimings := Some finalTimings;
              PollingResult.bundleVersion := bundleVersion;
              PollingResult.deploymentUrl := deploymentUrl |})
    (* Check for failure *)
    else if String.eqb action "pipeline_failed" || String.eqb action "pipeline_error" then
      let errorMessage := Js.or_else (Metadata.messageText metadata) NO_ERROR_MESSAGE in
      (outLog ++ outPhase
       ++ when (showPhases cfg && nonEmpty (phases st1))
            [core_info (PhaseFailed (formatTimestamp stamp) (lastOf (phases st1)));
             core_info Blank]
       ++ [core_error (DeploymentFailed errorMessage)],
       inr {| PollingResult.status := failed;
              PollingResult.durationMs := None;
              PollingResult.errorMessage := Some errorMessage;
              PollingResult.phases := phases st1;
              PollingResult.phaseTimings :=
                Some (calculatePhaseDurations (phaseTimings st1) (phases st1) (Some stamp));
              PollingResult.bundleVersion := None;
              PollingResult.deploymentUrl := None |})
    else (outLog ++ outPhase, inl st1)
  end.

(** [for (const log of logs) { ... }] *)
Fixpoint processLogs (cfg : Cfg.t) (st : Session) (logs : list LogEntry.t)
    : list Event * (Session + PollingResult.t) :=
  match logs with
  | [] => ([], inl st)
  | log :: rest =>
    match processEntry cfg st log with
    | (evs, inl st') =>
      let '(evs', r) := processLogs cfg st' rest in (evs ++ evs', r)
    | (evs, inr result) => (evs, inr result)
    end
  end.

(** [while (true) { ... }], driven by the script of turns.  The arguments
    are the constants of the call: the merged configuration, the
    identifiers passed on to the fetcher, the timeout and the value
    [Date.now()] had when the call started. *)
Fixpoint pollLoop (cfg : Cfg.t) (entityId runId : string) (timeoutMinutes startTime : Z)
    (st : Session) (ticks : list Tick) : list Event * Outcome Session :=
  match ticks with
  | [] => ([], Polling st)
  | tick :: rest =>
    let elapsed := now tick - startTime in
    let timeoutMs := timeoutMinutes * 60 * 1000 in
    (* Check for timeout *)
    if timeoutMs <=? elapsed then
      ([core_error (TimedOut timeoutMinutes (phases st))],
       Returned {| PollingResult.status := timeout;
                   PollingResult.durationMs := None;
                   PollingResult.errorMessage := None;
                   PollingResult.phases := phases st;
                   PollingResult.phaseTimings :=
                     Some (calculatePhaseDurations (phaseTimings st) (phases st) None);
                   PollingResult.bundleVersion := None;
                   PollingResult.deploymentUrl := None |})
    else
    (* Fetch logs *)
    let fetch := call_getPolicyLogs entityId runId (Cfg.logLimit cfg) in
    match response tick with
    | FetchThrew message =>
      if isPermanentAuthError message then
        ([fetch; core_error AuthorizationError],
         Returned {| PollingResult.status := failed;
                     PollingResult.durationMs := None;
                     PollingResult.errorMessage := Some SCOPE_ERROR_MESSAGE;
                     PollingResult.phases := phases st;
                     PollingResult.phaseTimings :=
                       Some (calculatePhaseDurations (phaseTimings st) (phases st) None);
                     PollingResult.bundleVersion := None;
                     PollingResult.deploymentUrl := None |})
      else
        let '(evs, out) := pollLoop cfg entityId runId timeoutMinutes startTime st rest in
        ([fetch; core_warning (FetchFailed message); call_sleep (Cfg.pollDelayMs cfg)] ++ evs,
         out)
    | Fetched logs =>
      match processLogs cfg st logs with
      | (evs, inr result) => (fetch :: evs, Returned result)
      | (evs, inl st') =>
        let '(evs', out) := pollLoop cfg entityId runId timeoutMinutes startTime st' rest in
        (fetch :: evs ++ [call_sleep (Cfg.pollDelayMs cfg)] ++ evs', out)
      end
    end
  end.

(** [pollForCompletion(client, entityId, runId, timeoutMinutes, config)].
    The client is its script: [startTime] is the first reading of
    [Date.now()], [ticks] the turns of the loop. *)
Definition pollForCompletion (startTime : Z) (ticks : list Tick)
    (entityId runId : string) (timeoutMinutes : Z) (config : PollingConfig.t)
    : list Event * Outcome Session :=
  let cfg := mergeConfig config in
  let '(evs, out) := pollLoop cfg entityId runId timeoutMinutes startTime newSession ticks in
  ([core_info (PollingStarted timeoutMinutes); core_info Blank] ++ evs, out).

(** *** Notions used in the statements *)

(** The session state with one more identity marked as seen. *)
Definition markSeen (logId : string) (st : Session) : Session :=
  mkSession ({[logId]} ∪ seenLogIds st) (seenPhases st) (phases st) (phaseTimings st).

(** The session state after the first observation of [phase] at [stamp]. *)
Definition observePhase (phase stamp : string) (st : Session) : Session :=
  mkSession (seenLogIds st) ({[phase]} ∪ seenPhases st) (phases st ++ [phase])
    (<[phase := {| PhaseTiming.startedAt := stamp; PhaseTiming.durationMs := None |}]>
       (phaseTimings st)).

(** The session state of a call that is still polling. *)
Definition sessionOf (out : Outcome Session) : Session :=
  match out with
  | Polling st => st
  | _ => newSession
  end.

Definition isCall (e : Event) : bool :=
  match e with
  | call_getPolicyLogs _ _ _ | call_sleep _ => true
  | _ => false
  end.

Definition isInfo (e : Event) : bool :=
  match e with
  | core_info _ => true
  | _ => false
  end.

(** The events with the [core.info] lines taken out: the calls to the
    fetcher and to [sleep], the warnings and the errors. *)
Definition withoutInfo (evs : list Event) : list Event :=
  filter (fun e => isInfo e = false) evs.

(** The instant a metadata-bearing entry stands for:
    [metadata.timestamp || log.timestamp]. *)
Definition effectiveTimestamp (log : LogEntry.t) : string :=
  Js.or_else (LogEntry.metadata log ≫= Metadata.timestamp) (LogEntry.timestamp log).

Definition isErrorLevel (log : LogEntry.t) : bool :=
  String.eqb (Js.toLowerCase (LogEntry.level log)) "error".

(** [log] carries the action [name]. *)
Definition hasAction (log : LogEntry.t) (name : string) : Prop :=
  metadataAction log = Some name.

Definition phaseOf (log : LogEntry.t) : option string :=
  (LogEntry.metadata log ≫= Metadata.details) ≫= Details.phase.

(** The message rule in the words of the specification: the failure message
    of an ERROR-level entry is [metadata.error], else [metadata.message],
    else the entry's own [message]; a property is there when it holds
    text. *)
Definition spec_errorMessage (log : LogEntry.t) : string :=
  match LogEntry.metadata log ≫= Metadata.error with
  | Some (JsString e) => e
  | _ =>
    match LogEntry.metadata log ≫= Metadata.message with
    | Some (JsString m) => m
    | _ => LogEntry.message log
    end
  end.

(** The invariant of the phase tracker: the seen phases are the listed ones,
    no phase is listed twice, every listed phase has a timing record, and no
    record of the tracker has a duration. *)
Record wf (st : Session) : Prop := mk_wf {
  wf_seen : forall p, p ∈ seenPhases st <-> p ∈ phases st;
  wf_nodup : NoDup (phases st);
  wf_timed : forall p, p ∈ phases st <-> is_Some (phaseTimings st !! p);
  wf_unset : forall p t, phaseTimings st !! p = Some t -> PhaseTiming.durationMs t = None
}.

(** A batch with every entry of identity [logId] taken out. *)
Definition withoutLog (logId : string) (logs : list LogEntry.t) : list LogEntry.t :=
  filter (fun log => getLogId log <> logId) logs.

Definition withoutLogTick (logId : string) (tick : Tick) : Tick :=
  match response tick with
  | Fetched logs => mkTick (now tick) (Fetched (withoutLog logId logs))
  | FetchThrew _ => tick
  end.

(** The phase written at index [i] and the timing record it ends up with:
    the copy of the tracker's record, with [durationMs] filled in when both
    ends parse. *)
Definition writtenAt (phaseTimings : gmap string PhaseTiming.t) (phases : list string)
    (completedAt : option string) (i : nat) : option (string * PhaseTiming.t) :=
  phase ← phases !! i;
  timing ← phaseTimings !! phase;
  Some (phase,
        if durationUnset (PhaseTiming.durationMs timing) then
          match parseTimestamp (PhaseTiming.startedAt timing),
                (if (i <? length phases - 1)%nat then
                   nextPhase ← phases !! (i + 1)%nat;
                   nextTiming ← phaseTimings !! nextPhase;
                   parseTimestamp (PhaseTiming.startedAt nextTiming)
                 else if Js.truthy completedAt then parseTimestamp (default "" completedAt)
                 else None) with
          | Some startTime, Some endTime =>
            {| PhaseTiming.startedAt := PhaseTiming.startedAt timing;
               PhaseTiming.durationMs := Some (endTime - startTime) |}
          | _, _ => timing
          end
        else timing).

(** The entries that end a session: ERROR-level ones and the three
    pipeline actions. *)
Definition isTerminal (log : LogEntry.t) : Prop :=
  Js.toLowerCase (LogEntry.level log) = "error"
  \/ hasAction log "pipeline_complete"
  \/ hasAction log "pipeline_failed"
  \/ hasAction log "pipeline_error".

(** What an entry writes besides [core.info] lines: the
    [Deployment failed] error line when it yields a failure, and nothing
    otherwise. *)
Definition failureLine {S : Type} (r : S + PollingResult.t) : list Event :=
  match r with
  | inr result =>
    match PollingResult.errorMessage result with
    | Some m => [core_error (DeploymentFailed m)]
    | None => []
    end
  | inl _ => []
  end.

(** The number of fetch calls among the events. *)
Definition isFetch (e : Event) : bool :=
  match e with
  | call_getPolicyLogs _ _ _ => true
  | _ => false
  end.

Fixpoint fetchCalls (evs : list Event) : nat :=
  match evs with
  | [] => 0
  | e :: evs' => ((if isFetch e then 1 else 0) + fetchCalls evs')%nat
  end.

(** [log] reports phase [p]: not ERROR-level, action
    [report_phase_change_success], a non-empty [details.phase]. *)
Definition isPhaseReport (log : LogEntry.t) (p : string) : Prop :=
  isErrorLevel log = false
  /\ hasAction log "report_phase_change_success"
  /\ phaseOf log = Some p
  /\ p <> "".

(** *** Strings and identities *)

Lemma append_cons (c : ascii) (a b : string) : String c a +:+ b = String c (a +:+ b).
Proof. reflexivity. Qed.

Lemma append_nil (b : string) : "" +:+ b = b.
Proof. reflexivity. Qed.

Lemma prefix_spec (p s : string) :
  String.prefix p s = true <-> exists post, s = p +:+ post.
Proof.
  revert s. induction p as [|c p IH]; intros s.
  - split; [intros _; exists s; reflexivity | intros _; destruct s; reflexivity].
  - destruct s as [|d s]; simpl.
    + split; [discriminate | intros [post H]; discriminate].
    + destruct (Ascii.ascii_dec c d) as [->|Hne].
      * rewrite IH. split; intros [post H]; exists post;
          rewrite append_cons in *; congruence.
      * split; [discriminate | intros [post H]; rewrite append_cons in H; congruence].
Qed.

(** [includes] is the substring test. *)
Lemma includes_spec (s needle : string) :
  Js.includes s needle = true <-> exists pre post, s = pre +:+ needle +:+ post.
Proof.
  induction s as [|c s IH]; cbn [Js.includes].
  - rewrite orb_false_r, prefix_spec. split.
    + intros [post H]. exists "", post. exact H.
    + intros [pre [post H]]. destruct pre; [rewrite append_nil in H; eauto | discriminate].
  - rewrite orb_true_iff, prefix_spec, IH. split.
    + intros [[post H] | [pre [post H]]].
      * exists "", post. exact H.
      * exists (String c pre), post. rewrite append_cons. congruence.
    + intros [pre [post H]]. destruct pre as [|d pre].
      * left. rewrite append_nil in H. eauto.
      * right. exists pre, post. rewrite append_cons in H. congruence.
Qed.

(** Entries with the same timestamp, message and metadata action have the
    same identity. *)
Lemma getLogId_same (log log' : LogEntry.t) :
  LogEntry.timestamp log' = LogEntry.timestamp log ->
  LogEntry.message log' = LogEntry.message log ->
  metadataAction log' = metadataAction log ->
  getLogId log' = getLogId log.
Proof. unfold getLogId. intros -> -> ->. reflexivity. Qed.

(** *** One entry *)

Lemma processEntry_seen (cfg : Cfg.t) (st : Session) (log : LogEntry.t) :
  getLogId log ∈ seenLogIds st -> processEntry cfg st log = ([], inl st).
Proof. intros H. unfold processEntry. rewrite decide_True by exact H. reflexivity. Qed.

Lemma processEntry_verbosity (cfg1 cfg2 : Cfg.t) (st : Session) (log : LogEntry.t) :
  snd (processEntry cfg1 st log) = snd (processEntry cfg2 st log).
Proof.
  unfold processEntry.
  destruct (decide (getLogId log ∈ seenLogIds st)); [reflexivity|].
  destruct (String.eqb (Js.toLowerCase (LogEntry.level log)) "error"); [reflexivity|].
  destruct (LogEntry.metadata log) as [metadata|]; [|reflexivity].
  destruct (negb (Js.truthy (Metadata.action metadata))); [reflexivity|].
  destruct (String.eqb (default "" (Metadata.action metadata)) "report_phase_change_success").
  - destruct (Js.truthy (Metadata.details metadata ≫= Details.phase)
              && negb (bool_decide (default "" (Metadata.details metadata ≫= Details.phase)
                                      ∈ seenPhases st)));
      cbv beta iota zeta;
      repeat match goal with
             | |- context [if ?b then _ else _] => destruct b
             end; reflexivity.
  - cbv beta iota zeta;
      repeat match goal with
             | |- context [if ?b then _ else _] => destruct b
             end; reflexivity.
Qed.

Lemma truthy_Some (o : option string) :
  Js.truthy o = true -> exists s, o = Some s /\ s <> "".
Proof.
  destruct o as [s|]; simpl; [|discriminate].
  intros H. exists s. split; [reflexivity|]. intros ->. discriminate.
Qed.

Lemma truthy_intro (s : string) : s <> "" -> Js.truthy (Some s) = true.
Proof. intros H. simpl. destruct (String.eqb_spec s ""); [contradiction | reflexivity]. Qed.

(** How an entry that does not end the session leaves the state: untouched
    (a duplicate), marked as seen, or marked as seen with one new phase. *)
Lemma processEntry_inl (cfg : Cfg.t) (st st' : Session) (log : LogEntry.t) (evs : list Event) :
  processEntry cfg st log = (evs, inl st') ->
  (getLogId log ∈ seenLogIds st ∧ st' = st ∧ evs = [])
  ∨ ((getLogId log ∉ seenLogIds st) ∧ st' = markSeen (getLogId log) st)
  ∨ (exists p, (getLogId log ∉ seenLogIds st) ∧ isErrorLevel log = false
        ∧ hasAction log "report_phase_change_success" ∧ phaseOf log = Some p
        ∧ p <> "" ∧ (p ∉ seenPhases st)
        ∧ st' = observePhase p (effectiveTimestamp log) (markSeen (getLogId log) st)).
Proof.
  unfold processEntry, isErrorLevel, hasAction, phaseOf, effectiveTimestamp, metadataAction.
  destruct (decide (getLogId log ∈ seenLogIds st)) as [Hin|Hnew].
  { intros [= <- <-]. left. auto. }
  destruct (String.eqb (Js.toLowerCase (LogEntry.level log)) "error"); [discriminate|].
  destruct (LogEntry.metadata log) as [metadata|]; simpl.
  2: { intros [= <- <-]. right. left. auto. }
  destruct (Js.truthy (Metadata.action metadata)) eqn:Hact; simpl.
  2: { intros [= <- <-]. right. left. auto. }
  apply truthy_Some in Hact as [action [Hact Hne]]. rewrite Hact. simpl.
  destruct (String.eqb_spec action "report_phase_change_success") as [->|Hother].
  - simpl.
    destruct (Js.truthy (Metadata.details metadata ≫= Details.phase)) eqn:Hphase; simpl.
    + apply truthy_Some in Hphase as [p [Hp Hpne]]. rewrite Hp. simpl.
      case_bool_decide as Hseen; simpl.
      * intros [= <- <-]. right. left. auto.
      * intros [= <- <-]. right. right. exists p. repeat split; auto.
    + intros [= <- <-]. right. left. auto.
  - destruct (String.eqb action "pipeline_complete"); [discriminate|].
    destruct (String.eqb action "pipeline_failed" || String.eqb action "pipeline_error");
      [discriminate|].
    intros [= <- <-]. right. left. auto.
Qed.

(** The entry is a first report of phase [p]: new, not ERROR-level, a
    [report_phase_change_success] naming a non-empty phase not yet seen. *)
Lemma processEntry_phase_new (cfg : Cfg.t) (st : Session) (log : LogEntry.t) (p : string) :
  getLogId log ∉ seenLogIds st -> isErrorLevel log = false ->
  hasAction log "report_phase_change_success" -> phaseOf log = Some p ->
  p <> "" -> p ∉ seenPhases st ->
  exists evs, processEntry cfg st log
              = (evs, inl (observePhase p (effectiveTimestamp log) (markSeen (getLogId log) st))).
Proof.
  unfold processEntry, isErrorLevel, hasAction, phaseOf, effectiveTimestamp, metadataAction.
  intros Hnew Hlevel Hact Hphase Hne Hunseen.
  rewrite decide_False by exact Hnew. rewrite Hlevel.
  destruct (LogEntry.metadata log) as [metadata|]; simpl in *; [|discriminate].
  rewrite Hact, Hphase. simpl.
  destruct (String.eqb_spec p "") as [|_]; [contradiction|]. simpl.
  rewrite bool_decide_eq_false_2 by exact Hunseen.
  simpl. eexists. reflexivity.
Qed.

(** *** The invariant *)

Lemma wf_newSession : wf newSession.
Proof.
  clear Date_getTime. split; simpl.
  - intros p. set_solver.
  - constructor.
  - intros p. rewrite lookup_empty. split; [set_solver | intros [x Hx]; discriminate].
  - intros p t. rewrite lookup_empty. discriminate.
Qed.

Lemma wf_markSeen (logId : string) (st : Session) : wf st -> wf (markSeen logId st).
Proof. intros [H1 H2 H3 H4]. split; assumption. Qed.

Lemma wf_observePhase (p stamp : string) (st : Session) :
  wf st -> p ∉ seenPhases st -> wf (observePhase p stamp st).
Proof.
  clear Date_getTime.
  intros [H1 H2 H3 H4] Hp. split; simpl.
  - intros q. rewrite elem_of_union, elem_of_singleton, elem_of_app, list_elem_of_singleton, H1.
    tauto.
  - apply NoDup_app. split; [assumption|]. split; [|apply NoDup_singleton].
    intros q Hq Hq'. apply list_elem_of_singleton in Hq'. subst q. apply Hp, H1, Hq.
  - intros q. rewrite elem_of_app, list_elem_of_singleton, H3.
    destruct (decide (p = q)) as [->|Hne].
    + rewrite lookup_insert_eq. split; [eauto | auto].
    + rewrite lookup_insert_ne by exact Hne. split; [intros [H|H]; congruence | auto].
  - intros q t. destruct (decide (p = q)) as [->|Hne].
    + rewrite lookup_insert_eq. intros [= <-]. reflexivity.
    + rewrite lookup_insert_ne by exact Hne. apply H4.
Qed.

Lemma processEntry_wf (cfg : Cfg.t) (st st' : Session) (log : LogEntry.t) (evs : list Event) :
  wf st -> processEntry cfg st log = (evs, inl st') -> wf st'.
Proof.
  intros Hwf H. apply processEntry_inl in H as [(_ & -> & _) | [(_ & ->) | (p & H)]].
  - exact Hwf.
  - apply wf_markSeen, Hwf.
  - destruct H as (_ & _ & _ & _ & _ & Hp & ->).
    apply wf_observePhase; [apply wf_markSeen, Hwf | exact Hp].
Qed.

Lemma processEntry_seen_mono (cfg : Cfg.t) (st st' : Session) (log : LogEntry.t)
    (evs : list Event) :
  processEntry cfg st log = (evs, inl st') -> seenLogIds st ⊆ seenLogIds st'.
Proof.
  intros H. apply processEntry_inl in H as [(_ & -> & _) | [(_ & ->) | (p & H)]].
  - reflexivity.
  - simpl. set_solver.
  - destruct H as (_ & _ & _ & _ & _ & _ & ->). simpl. set_solver.
Qed.

Lemma processEntry_marks (cfg : Cfg.t) (st st' : Session) (log : LogEntry.t)
    (evs : list Event) :
  processEntry cfg st log = (evs, inl st') -> getLogId log ∈ seenLogIds st'.
Proof.
  intros H. apply processEntry_inl in H as [(Hin & -> & _) | [(_ & ->) | (p & H)]].
  - exact Hin.
  - simpl. set_solver.
  - destruct H as (_ & _ & _ & _ & _ & _ & ->). simpl. set_solver.
Qed.

(** *** The [for] loop over one batch *)

Lemma processLogs_app (cfg : Cfg.t) (st : Session) (l1 l2 : list LogEntry.t) :
  processLogs cfg st (l1 ++ l2)
  = match processLogs cfg st l1 with
    | (evs, inl st') => let '(evs', r) := processLogs cfg st' l2 in (evs ++ evs', r)
    | (evs, inr result) => (evs, inr result)
    end.
Proof.
  revert st. induction l1 as [|log l1 IH]; intros st; simpl.
  - destruct (processLogs cfg st l2) as [evs' r]. reflexivity.
  - destruct (processEntry cfg st log) as [evs [st'|result]]; [|reflexivity].
    rewrite IH. destruct (processLogs cfg st' l1) as [evs1 [st1|result]]; [|reflexivity].
    destruct (processLogs cfg st1 l2) as [evs2 r]. rewrite app_assoc. reflexivity.
Qed.

Lemma processLogs_wf (cfg : Cfg.t) (logs : list LogEntry.t) :
  forall (st st' : Session) (evs : list Event),
    wf st -> processLogs cfg st logs = (evs, inl st') -> wf st'.
Proof.
  induction logs as [|log logs IH]; intros st st' evs Hwf; simpl.
  - intros [= <- <-]. exact Hwf.
  - destruct (processEntry cfg st log) as [evs1 [st1|result]] eqn:H1; [|discriminate].
    destruct (processLogs cfg st1 logs) as [evs2 r] eqn:H2.
    intros [= <- ->]. eapply IH; [|exact H2]. eapply processEntry_wf; eauto.
Qed.

Lemma processLogs_seen_mono (cfg : Cfg.t) (logs : list LogEntry.t) :
  forall (st st' : Session) (evs : list Event),
    processLogs cfg st logs = (evs, inl st') -> seenLogIds st ⊆ seenLogIds st'.
Proof.
  induction logs as [|log logs IH]; intros st st' evs; simpl.
  - intros [= <- <-]. reflexivity.
  - destruct (processEntry cfg st log) as [evs1 [st1|result]] eqn:H1; [|discriminate].
    destruct (processLogs cfg st1 logs) as [evs2 r] eqn:H2.
    intros [= <- ->]. etransitivity; [eapply processEntry_seen_mono, H1 | eapply IH, H2].
Qed.

Lemma processLogs_without (cfg : Cfg.t) (logId : string) (logs : list LogEntry.t) :
  forall st : Session,
    logId ∈ seenLogIds st ->
    processLogs cfg st (withoutLog logId logs) = processLogs cfg st logs.
Proof.
  unfold withoutLog. induction logs as [|log logs IH]; intros st Hseen; [reflexivity|].
  destruct (decide (getLogId log = logId)) as [Heq|Hne].
  - rewrite filter_cons_False by (intros H; apply H, Heq).
    simpl. rewrite processEntry_seen by (rewrite Heq; exact Hseen).
    rewrite IH by exact Hseen. destruct (processLogs cfg st logs). reflexivity.
  - rewrite filter_cons_True by exact Hne. simpl.
    destruct (processEntry cfg st log) as [evs [st'|result]] eqn:H1; [|reflexivity].
    rewrite IH; [reflexivity|]. eapply processEntry_seen_mono; eauto.
Qed.

(** *** The [while] loop *)

Section Loop.

Variables (cfg : Cfg.t) (entityId runId : string) (timeoutMinutes startTime : Z).

Local Abbreviation loop := (pollLoop cfg entityId runId timeoutMinutes startTime).

Lemma pollLoop_app (pre post : list Tick) :
  forall st : Session,
    loop st (pre ++ post)
    = match loop st pre with
      | (evs, Polling st') => let '(evs', out) := loop st' post in (evs ++ evs', out)
      | (evs, out) => (evs, out)
      end.
Proof.
  induction pre as [|tick pre IH]; intros st; simpl.
  - destruct (pollLoop _ _ _ _ _ st post). reflexivity.
  - destruct (timeoutMinutes * 60 * 1000 <=? now tick - startTime); [reflexivity|].
    destruct (response tick) as [logs|message].
    + destruct (processLogs cfg st logs) as [evs [st'|result]]; [|reflexivity].
      rewrite IH.
      destruct (pollLoop _ _ _ _ _ st' pre) as [evs1 [r|m|st1]]; try reflexivity.
      destruct (pollLoop _ _ _ _ _ st1 post) as [evs2 out].
      simpl. rewrite <- !app_assoc. reflexivity.
    + destruct (isPermanentAuthError message); [reflexivity|].
      rewrite IH.
      destruct (pollLoop _ _ _ _ _ st pre) as [evs1 [r|m|st1]]; try reflexivity.
      destruct (pollLoop _ _ _ _ _ st1 post) as [evs2 out]. reflexivity.
Qed.

Lemma pollLoop_wf (ticks : list Tick) :
  forall (st st' : Session) (evs : list Event),
    wf st -> loop st ticks = (evs, Polling st') -> wf st'.
Proof.
  induction ticks as [|tick ticks IH]; intros st st' evs Hwf; simpl.
  - intros [= <- <-]. exact Hwf.
  - destruct (timeoutMinutes * 60 * 1000 <=? now tick - startTime); [discriminate|].
    destruct (response tick) as [logs|message].
    + destruct (processLogs cfg st logs) as [evs1 [st1|result]] eqn:H1; [|discriminate].
      destruct (pollLoop _ _ _ _ _ st1 ticks) as [evs2 out] eqn:H2.
      intros [= <- ->]. eapply IH; [|exact H2]. eapply processLogs_wf; eauto.
    + destruct (isPermanentAuthError message); [discriminate|].
      destruct (pollLoop _ _ _ _ _ st ticks) as [evs2 out] eqn:H2.
      intros [= <- ->]. eapply IH; eauto.
Qed.

Lemma pollLoop_without (logId : string) (ticks : list Tick) :
  forall st : Session,
    logId ∈ seenLogIds st ->
    loop st (withoutLogTick logId <$> ticks) = loop st ticks.
Proof.
  induction ticks as [|tick ticks IH]; intros st Hseen; [reflexivity|].
  rewrite fmap_cons. destruct tick as [t [logs|message]]; unfold withoutLogTick; simpl.
  - destruct (timeoutMinutes * 60 * 1000 <=? t - startTime); [reflexivity|].
    rewrite processLogs_without by exact Hseen.
    destruct (processLogs cfg st logs) as [evs [st'|result]] eqn:H1; [|reflexivity].
    rewrite IH; [reflexivity|]. eapply processLogs_seen_mono; eauto.
  - destruct (timeoutMinutes * 60 * 1000 <=? t - startTime); [reflexivity|].
    destruct (isPermanentAuthError message); [reflexivity|].
    rewrite IH by exact Hseen. reflexivity.
Qed.

(** The current revision has no [throw] of its own: a call returns or is
    still polling. *)
Lemma pollLoop_never_throws (ticks : list Tick) :
  forall (st : Session) (m : Message), snd (loop st ticks) <> Threw m.
Proof.
  induction ticks as [|tick ticks IH]; intros st m; simpl; [discriminate|].
  destruct (timeoutMinutes * 60 * 1000 <=? now tick - startTime); [discriminate|].
  destruct (response tick) as [logs|message].
  - destruct (processLogs cfg st logs) as [evs [st'|result]]; [|discriminate].
    specialize (IH st' m). destruct (pollLoop _ _ _ _ _ st' ticks). exact IH.
  - destruct (isPermanentAuthError message); [discriminate|].
    specialize (IH st m). destruct (pollLoop _ _ _ _ _ st ticks). exact IH.
Qed.

(** Once the clock of some turn shows the timeout reached, the call has
    returned by that turn. *)
Lemma pollLoop_returns_by_timeout (ticks : list Tick) :
  Exists (fun tick => timeoutMinutes * 60 * 1000 <= now tick - startTime) ticks ->
  forall st : Session, exists result, snd (loop st ticks) = Returned result.
Proof.
  induction 1 as [tick ticks Hlate | tick ticks _ IH]; intros st; simpl.
  - destruct (Z.leb_spec (timeoutMinutes * 60 * 1000) (now tick - startTime)); [|lia].
    eexists. reflexivity.
  - destruct (timeoutMinutes * 60 * 1000 <=? now tick - startTime); [eexists; reflexivity|].
    destruct (response tick) as [logs|message].
    + destruct (processLogs cfg st logs) as [evs [st'|result]]; [|eexists; reflexivity].
      destruct (IH st') as [result Hres]. destruct (pollLoop _ _ _ _ _ st' ticks).
      eauto.
    + destruct (isPermanentAuthError message); [eexists; reflexivity|].
      destruct (IH st) as [result Hres]. destruct (pollLoop _ _ _ _ _ st ticks).
      eauto.
Qed.

End Loop.

(** *** [calculatePhaseDurations], index by index *)

Lemma phaseDurationStep_written (phaseTimings : gmap string PhaseTiming.t)
    (phases : list string) (completedAt : option string)
    (result : gmap string PhaseTiming.t) (i : nat) :
  phaseDurationStep phaseTimings phases completedAt result i
  = match writtenAt phaseTimings phases completedAt i with
    | Some (phase, timing) => <[phase := timing]> result
    | None => result
    end.
Proof.
  unfold phaseDurationStep, writtenAt.
  destruct (phases !! i) as [phase|]; simpl; [|reflexivity].
  destruct (phaseTimings !! phase) as [timing|]; simpl; [|reflexivity].
  destruct (durationUnset (PhaseTiming.durationMs timing)); [|reflexivity].
  destruct (parseTimestamp (PhaseTiming.startedAt timing)) as [startTime|]; [|reflexivity].
  destruct (i <? length phases - 1)%nat.
  - destruct (phases !! (i + 1)%nat) as [nextPhase|]; simpl; [|reflexivity].
    destruct (phaseTimings !! nextPhase) as [nextTiming|]; simpl; [|reflexivity].
    destruct (parseTimestamp (PhaseTiming.startedAt nextTiming)); [|reflexivity].
    apply insert_insert_eq.
  - destruct (Js.truthy completedAt); [|reflexivity].
    destruct (parseTimestamp (default "" completedAt)); [|reflexivity].
    apply insert_insert_eq.
Qed.

Lemma writtenAt_phase (phaseTimings : gmap string PhaseTiming.t) (phases : list string)
    (completedAt : option string) (i : nat) (phase : string) (timing : PhaseTiming.t) :
  writtenAt phaseTimings phases completedAt i = Some (phase, timing) ->
  phases !! i = Some phase.
Proof.
  unfold writtenAt. destruct (phases !! i) as [q|]; simpl; [|discriminate].
  destruct (phaseTimings !! q); simpl; [|discriminate]. intros [= <- _]. reflexivity.
Qed.

Lemma calculatePhaseDurations_upto (phaseTimings : gmap string PhaseTiming.t)
    (phases : list string) (completedAt : option string) (k : nat) :
  NoDup phases ->
  forall j p, phases !! j = Some p ->
    foldl (phaseDurationStep phaseTimings phases completedAt) ∅ (seq 0 k) !! p
    = if decide (j < k)%nat then snd <$> writtenAt phaseTimings phases completedAt j else None.
Proof.
  intros Hnodup. induction k as [|k IH]; intros j p Hj.
  - simpl. rewrite lookup_empty. destruct (decide (j < 0)%nat); [lia | reflexivity].
  - rewrite seq_S, foldl_app. simpl. rewrite phaseDurationStep_written.
    destruct (writtenAt phaseTimings phases completedAt k) as [[q t]|] eqn:Hk.
    + pose proof (writtenAt_phase _ _ _ _ _ _ Hk) as Hq.
      destruct (decide (j = k)) as [->|Hne].
      * assert (q = p) as -> by congruence.
        rewrite lookup_insert_eq, Hk. destruct (decide (k < S k)%nat); [reflexivity | lia].
      * assert (q <> p) by (intros ->; apply Hne; eapply NoDup_lookup; eauto).
        rewrite lookup_insert_ne by assumption. rewrite (IH j p Hj).
        destruct (decide (j < k)%nat), (decide (j < S k)%nat); try reflexivity; lia.
    + rewrite (IH j p Hj). destruct (decide (j = k)) as [->|Hne].
      * rewrite Hk. destruct (decide (k < k)%nat), (decide (k < S k)%nat);
          try reflexivity; lia.
      * destruct (decide (j < k)%nat), (decide (j < S k)%nat); try reflexivity; lia.
Qed.

(** With no repeated phase, the record of the phase at index [i] in the
    returned object is the one written at [i]. *)
Lemma calculatePhaseDurations_lookup (phaseTimings : gmap string PhaseTiming.t)
    (phases : list string) (completedAt : option string) (i : nat) (p : string) :
  NoDup phases -> phases !! i = Some p ->
  calculatePhaseDurations phaseTimings phases completedAt !! p
  = snd <$> writtenAt phaseTimings phases completedAt i.
Proof.
  intros Hnodup Hi. unfold calculatePhaseDurations.
  rewrite (calculatePhaseDurations_upto _ _ _ _ Hnodup i p Hi).
  apply lookup_lt_Some in Hi. destruct (decide (i < length phases)%nat); [reflexivity | lia].
Qed.

(** *** Terminal entries *)

Lemma processEntry_error (cfg : Cfg.t) (st : Session) (log : LogEntry.t) :
  getLogId log ∉ seenLogIds st -> Js.toLowerCase (LogEntry.level log) = "error" ->
  exists evs,
    processEntry cfg st log
    = (evs,
       inr {| PollingResult.status := failed;
              PollingResult.durationMs := None;
              PollingResult.errorMessage := Some (errorLevelMessage log);
              PollingResult.phases := phases st;
              PollingResult.phaseTimings :=
                Some (calculatePhaseDurations (phaseTimings st) (phases st) None);
              PollingResult.bundleVersion := None;
              PollingResult.deploymentUrl := None |}).
Proof.
  intros Hnew Hlevel. unfold processEntry.
  rewrite decide_False by exact Hnew. rewrite Hlevel. simpl. eexists. reflexivity.
Qed.

Lemma processEntry_complete (cfg : Cfg.t) (st : Session) (log : LogEntry.t) :
  getLogId log ∉ seenLogIds st -> isErrorLevel log = false ->
  hasAction log "pipeline_complete" ->
  exists evs,
    processEntry cfg st log
    = (evs,
       inr {| PollingResult.status := success;
              PollingResult.durationMs := LogEntry.metadata log ≫= Metadata.duration_ms;
              PollingResult.errorMessage := None;
              PollingResult.phases := phases st;
              PollingResult.phaseTimings :=
                Some (calculatePhaseDurations (phaseTimings st) (phases st)
                        (Some (effectiveTimestamp log)));
              PollingResult.bundleVersion :=
                (LogEntry.metadata log ≫= Metadata.details) ≫= Details.bundle_version;
              PollingResult.deploymentUrl :=
                (LogEntry.metadata log ≫= Metadata.details) ≫= Details.deployment_url |}).
Proof.
  unfold processEntry, isErrorLevel, hasAction, effectiveTimestamp, metadataAction.
  intros Hnew Hlevel Hact.
  rewrite decide_False by exact Hnew. rewrite Hlevel.
  destruct (LogEntry.metadata log) as [metadata|]; simpl in *; [|discriminate].
  rewrite Hact. simpl. eexists. reflexivity.
Qed.

Lemma processEntry_failed (cfg : Cfg.t) (st : Session) (log : LogEntry.t) :
  getLogId log ∉ seenLogIds st -> isErrorLevel log = false ->
  hasAction log "pipeline_failed" \/ hasAction log "pipeline_error" ->
  exists evs,
    processEntry cfg st log
    = (evs,
       inr {| PollingResult.status := failed;
              PollingResult.durationMs := None;
              PollingResult.errorMessage :=
                Some (Js.or_else (LogEntry.metadata log ≫= Metadata.messageText) NO_ERROR_MESSAGE);
              PollingResult.phases := phases st;
              PollingResult.phaseTimings :=
                Some (calculatePhaseDurations (phaseTimings st) (phases st)
                        (Some (effectiveTimestamp log)));
              PollingResult.bundleVersion := None;
              PollingResult.deploymentUrl := None |}).
Proof.
  unfold processEntry, isErrorLevel, hasAction, effectiveTimestamp, metadataAction.
  intros Hnew Hlevel Hact.
  rewrite decide_False by exact Hnew. rewrite Hlevel.
  destruct (LogEntry.metadata log) as [metadata|]; simpl in *; [|destruct Hact; discriminate].
  destruct Hact as [Hact|Hact]; rewrite Hact; simpl; eexists; reflexivity.
Qed.

Lemma processEntry_terminal (cfg : Cfg.t) (st : Session) (log : LogEntry.t) :
  getLogId log ∉ seenLogIds st -> isTerminal log ->
  exists evs result, processEntry cfg st log = (evs, inr result).
Proof.
  intros Hnew Hterm. destruct (isErrorLevel log) eqn:Hlevel.
  - unfold isErrorLevel in Hlevel. apply String.eqb_eq in Hlevel.
    destruct (processEntry_error cfg st log Hnew Hlevel) as [evs H]. eauto.
  - destruct Hterm as [Herr | [Hact | Hact]].
    + unfold isErrorLevel in Hlevel. rewrite Herr in Hlevel. discriminate.
    + destruct (processEntry_complete cfg st log Hnew Hlevel Hact) as [evs H]. eauto.
    + destruct (processEntry_failed cfg st log Hnew Hlevel Hact) as [evs H]. eauto.
Qed.

(** On timeout and on a fetch failure no end boundary is supplied: the
    record of the last phase comes back as the tracker holds it. *)
Lemma calculatePhaseDurations_last_unset (st : Session) (p : string) :
  wf st -> last (phases st) = Some p ->
  exists timing,
    phaseTimings st !! p = Some timing
    /\ PhaseTiming.durationMs timing = None
    /\ calculatePhaseDurations (phaseTimings st) (phases st) None !! p = Some timing.
Proof.
  intros Hwf Hlast. rewrite last_lookup in Hlast.
  assert (Hin : p ∈ phases st) by (eapply list_elem_of_lookup_2; eauto).
  apply (wf_timed _ Hwf) in Hin as [timing Htiming].
  pose proof (wf_unset _ Hwf _ _ Htiming) as Hunset.
  exists timing. split; [exact Htiming|]. split; [exact Hunset|].
  rewrite (calculatePhaseDurations_lookup _ _ _ _ _ (wf_nodup _ Hwf) Hlast).
  unfold writtenAt. rewrite Hlast. simpl. rewrite Htiming. simpl.
  replace (pred (length (phases st)) <? length (phases st) - 1)%nat with false
    by (symmetry; apply Nat.ltb_ge; lia).
  simpl. destruct (durationUnset (PhaseTiming.durationMs timing)); [|reflexivity].
  destruct (parseTimestamp (PhaseTiming.startedAt timing)); reflexivity.
Qed.

(** *** The events of one entry *)

Lemma Forall_when (P : Event -> Prop) (b : bool) (evs : list Event) :
  Forall P evs -> Forall P (when b evs).
Proof. destruct b; simpl; [auto | constructor]. Qed.

Lemma Forall_durations (P : Event -> Prop) (timings : gmap string PhaseTiming.t)
    (names : list string) :
  (forall m, P (core_info m)) ->
  Forall P (flat_map (fun phase =>
              match durationOf timings phase with
              | Some d => [core_info (PhaseDuration phase d)]
              | None => []
              end) names).
Proof.
  intros HP. induction names as [|phase names IH]; simpl; [constructor|].
  apply Forall_app_2; [|exact IH].
  destruct (durationOf timings phase); repeat constructor. apply HP.
Qed.

Ltac forall_events :=
  repeat first
    [ apply Forall_nil_2
    | apply Forall_cons_2; [solve [auto] |]
    | apply Forall_app_2
    | apply Forall_when
    | apply Forall_durations; solve [auto]
    | match goal with
      | |- Forall _ (match ?x with _ => _ end) => destruct x
      | |- Forall _ (if ?b then _ else _) => destruct b
      end ].

(** Every event of an entry is a line; the only ones that are not
    [core.info] lines are [core.error] lines. *)
Lemma processEntry_events (P : Event -> Prop) (cfg : Cfg.t) (st : Session) (log : LogEntry.t) :
  (forall m, P (core_info m)) -> (forall m, P (core_error m)) ->
  Forall P (fst (processEntry cfg st log)).
Proof.
  intros Hinfo Herror. unfold processEntry.
  destruct (decide (getLogId log ∈ seenLogIds st)); [constructor|].
  destruct (String.eqb (Js.toLowerCase (LogEntry.level log)) "error").
  { simpl. forall_events. }
  destruct (LogEntry.metadata log) as [metadata|]; [|simpl; forall_events].
  destruct (negb (Js.truthy (Metadata.action metadata))); [simpl; forall_events|].
  destruct (String.eqb (default "" (Metadata.action metadata)) "report_phase_change_success");
    [destruct (Js.truthy (Metadata.details metadata ≫= Details.phase)
               && negb (bool_decide (default "" (Metadata.details metadata ≫= Details.phase)
                                       ∈ seenPhases st)))|];
    cbv beta iota zeta;
    (destruct (String.eqb (default "" (Metadata.action metadata)) "pipeline_complete");
     [|destruct (String.eqb (default "" (Metadata.action metadata)) "pipeline_failed"
                 || String.eqb (default "" (Metadata.action metadata)) "pipeline_error")]);
    cbn [fst]; forall_events.
Qed.

Lemma processEntry_no_call (cfg : Cfg.t) (st : Session) (log : LogEntry.t) :
  Forall (fun e => isCall e = false) (fst (processEntry cfg st log)).
Proof. apply processEntry_events; reflexivity. Qed.

Lemma withoutInfo_app (evs evs' : list Event) :
  withoutInfo (evs ++ evs') = withoutInfo evs ++ withoutInfo evs'.
Proof. apply filter_app. Qed.

Lemma withoutInfo_cons_eq (e : Event) (evs evs' : list Event) :
  withoutInfo evs = withoutInfo evs' -> withoutInfo (e :: evs) = withoutInfo (e :: evs').
Proof.
  unfold withoutInfo. intros H. rewrite !filter_cons.
  destruct (decide (isInfo e = false)); congruence.
Qed.

Lemma withoutInfo_infos (evs : list Event) :
  Forall (fun e => isInfo e = true) evs -> withoutInfo evs = [].
Proof.
  unfold withoutInfo. induction 1 as [|e evs He _ IH]; [reflexivity|].
  rewrite filter_cons_False by congruence. exact IH.
Qed.

Lemma withoutInfo_snoc_error (evs : list Event) (m : Message) :
  Forall (fun e => isInfo e = true) evs ->
  withoutInfo (evs ++ [core_error m]) = [core_error m].
Proof. intros H. rewrite withoutInfo_app, (withoutInfo_infos _ H). reflexivity. Qed.

Lemma processEntry_withoutInfo (cfg : Cfg.t) (st : Session) (log : LogEntry.t) :
  withoutInfo (fst (processEntry cfg st log)) = failureLine (snd (processEntry cfg st log)).
Proof.
  unfold processEntry.
  destruct (decide (getLogId log ∈ seenLogIds st)); [reflexivity|].
  destruct (String.eqb (Js.toLowerCase (LogEntry.level log)) "error").
  { cbn [fst snd failureLine PollingResult.errorMessage].
    rewrite ?app_assoc. apply withoutInfo_snoc_error. forall_events. }
  destruct (LogEntry.metadata log) as [metadata|];
    [|cbn [fst snd failureLine]; apply withoutInfo_infos; forall_events].
  destruct (negb (Js.truthy (Metadata.action metadata)));
    [cbn [fst snd failureLine]; apply withoutInfo_infos; forall_events|].
  destruct (String.eqb (default "" (Metadata.action metadata)) "report_phase_change_success");
    [destruct (Js.truthy (Metadata.details metadata ≫= Details.phase)
               && negb (bool_decide (default "" (Metadata.details metadata ≫= Details.phase)
                                       ∈ seenPhases st)))|];
    cbv beta iota zeta;
    (destruct (String.eqb (default "" (Metadata.action metadata)) "pipeline_complete");
     [|destruct (String.eqb (default "" (Metadata.action metadata)) "pipeline_failed"
                 || String.eqb (default "" (Metadata.action metadata)) "pipeline_error")]);
    cbn [fst snd failureLine PollingResult.errorMessage];
    first [ apply withoutInfo_infos; solve [forall_events]
          | rewrite ?app_assoc; apply withoutInfo_snoc_error; solve [forall_events] ].
Qed.

(** The verbosity has no part in what an entry decides nor in what it
    writes besides [core.info] lines. *)
Lemma processEntry_decisions (cfg1 cfg2 : Cfg.t) (st : Session) (log : LogEntry.t) :
  snd (processEntry cfg1 st log) = snd (processEntry cfg2 st log)
  /\ withoutInfo (fst (processEntry cfg1 st log)) = withoutInfo (fst (processEntry cfg2 st log)).
Proof.
  pose proof (processEntry_verbosity cfg1 cfg2 st log) as H.
  split; [exact H|]. rewrite !processEntry_withoutInfo, H. reflexivity.
Qed.

Lemma processLogs_decisions (cfg1 cfg2 : Cfg.t) (logs : list LogEntry.t) :
  forall st : Session,
    snd (processLogs cfg1 st logs) = snd (processLogs cfg2 st logs)
    /\ withoutInfo (fst (processLogs cfg1 st logs)) = withoutInfo (fst (processLogs cfg2 st logs)).
Proof.
  induction logs as [|log logs IH]; intros st; simpl; [auto|].
  destruct (processEntry_decisions cfg1 cfg2 st log) as [Hsnd Hfst].
  destruct (processEntry cfg1 st log) as [evs1 r1], (processEntry cfg2 st log) as [evs2 r2].
  simpl in Hsnd, Hfst. subst r2. destruct r1 as [st'|result]; [|auto].
  destruct (IH st') as [Hsnd' Hfst'].
  destruct (processLogs cfg1 st' logs) as [evs1' r1'], (processLogs cfg2 st' logs) as [evs2' r2'].
  simpl in *. split; [exact Hsnd'|]. rewrite !withoutInfo_app. congruence.
Qed.

Lemma pollLoop_decisions (cfg1 cfg2 : Cfg.t) (entityId runId : string)
    (timeoutMinutes startTime : Z) (ticks : list Tick) :
  Cfg.pollDelayMs cfg1 = Cfg.pollDelayMs cfg2 ->
  Cfg.logLimit cfg1 = Cfg.logLimit cfg2 ->
  forall st : Session,
    snd (pollLoop cfg1 entityId runId timeoutMinutes startTime st ticks)
    = snd (pollLoop cfg2 entityId runId timeoutMinutes startTime st ticks)
    /\ withoutInfo (fst (pollLoop cfg1 entityId runId timeoutMinutes startTime st ticks))
       = withoutInfo (fst (pollLoop cfg2 entityId runId timeoutMinutes startTime st ticks)).
Proof.
  intros Hdelay Hlimit. induction ticks as [|tick ticks IH]; intros st; simpl; [auto|].
  destruct (timeoutMinutes * 60 * 1000 <=? now tick - startTime); [auto|].
  rewrite Hdelay, Hlimit. destruct (response tick) as [logs|message].
  - destruct (processLogs_decisions cfg1 cfg2 logs st) as [Hsnd Hfst].
    destruct (processLogs cfg1 st logs) as [evs1 r1], (processLogs cfg2 st logs) as [evs2 r2].
    simpl in Hsnd, Hfst. subst r2. destruct r1 as [st'|result].
    + destruct (IH st') as [Hsnd' Hfst'].
      destruct (pollLoop cfg1 _ _ _ _ st' ticks) as [evs1' o1],
               (pollLoop cfg2 _ _ _ _ st' ticks) as [evs2' o2].
      simpl in *. split; [exact Hsnd'|].
      apply withoutInfo_cons_eq. rewrite !withoutInfo_app, Hfst. f_equal.
      apply withoutInfo_cons_eq, Hfst'.
    + simpl. split; [reflexivity|]. apply withoutInfo_cons_eq, Hfst.
  - destruct (isPermanentAuthError message); [auto|].
    destruct (IH st) as [Hsnd' Hfst'].
    destruct (pollLoop cfg1 _ _ _ _ st ticks) as [evs1' o1],
             (pollLoop cfg2 _ _ _ _ st ticks) as [evs2' o2].
    simpl in *. split; [exact Hsnd'|]. repeat apply withoutInfo_cons_eq. exact Hfst'.
Qed.

(** *** Phase reports, durations *)

Lemma fetchCalls_withoutInfo (evs : list Event) :
  fetchCalls (withoutInfo evs) = fetchCalls evs.
Proof.
  unfold withoutInfo. induction evs as [|e evs IH]; [reflexivity|].
  rewrite filter_cons. destruct (decide (isInfo e = false)) as [H|H]; simpl.
  - rewrite IH. reflexivity.
  - rewrite IH. destruct e; simpl in *; congruence.
Qed.

Lemma processLogs_phase_reports (cfg : Cfg.t) (entries : list LogEntry.t)
    (names : list string) :
  Forall2 isPhaseReport entries names ->
  forall st : Session,
    wf st ->
    NoDup names -> (forall p, p ∈ names -> p ∉ phases st) ->
    NoDup (getLogId <$> entries) ->
    (forall e, e ∈ entries -> getLogId e ∉ seenLogIds st) ->
    exists evs st',
      processLogs cfg st entries = (evs, inl st')
      /\ wf st'
      /\ phases st' = phases st ++ names
      /\ forall logId, logId ∈ seenLogIds st' ->
           logId ∈ seenLogIds st \/ logId ∈ (getLogId <$> entries).
Proof.
  induction 1 as [|e p entries names (Hlevel & Hact & Hphase & Hne) _ IH];
    intros st Hwf Hnames Hfresh Hids Hnew.
  - exists [], st. simpl. rewrite app_nil_r. auto.
  - rewrite fmap_cons in Hids.
    apply NoDup_cons in Hnames as [Hp Hnames]. apply NoDup_cons in Hids as [He Hids].
    assert (Hunseen : p ∉ seenPhases st).
    { intros H. apply (Hfresh p); [left | apply (wf_seen _ Hwf), H]. }
    assert (Hnew_e : getLogId e ∉ seenLogIds st) by (apply Hnew; left).
    destruct (processEntry_phase_new cfg st e p Hnew_e Hlevel Hact Hphase Hne Hunseen)
      as [evs1 H1].
    set (st1 := observePhase p (effectiveTimestamp e) (markSeen (getLogId e) st)) in *.
    assert (Hwf1 : wf st1) by (apply wf_observePhase; [apply wf_markSeen, Hwf | exact Hunseen]).
    destruct (IH st1 Hwf1 Hnames) as (evs2 & st' & H2 & Hwf' & Hphases & Hseen).
    + intros q Hq. simpl. rewrite elem_of_app, list_elem_of_singleton.
      intros [Hin | ->]; [apply (Hfresh q); [right; exact Hq | exact Hin] | exact (Hp Hq)].
    + exact Hids.
    + intros e' He'. simpl. rewrite elem_of_union, elem_of_singleton.
      intros [Heq | Hin].
      * apply He. rewrite <- Heq. apply list_elem_of_fmap_2, He'.
      * apply (Hnew e'); [right; exact He' | exact Hin].
    + exists (evs1 ++ evs2), st'. simpl. rewrite H1, H2.
      split; [reflexivity|]. split; [exact Hwf'|]. split.
      * rewrite Hphases. simpl. rewrite <- app_assoc. reflexivity.
      * intros logId Hin. apply Hseen in Hin as [Hin | Hin].
        -- simpl in Hin. apply elem_of_union in Hin as [Hin | Hin].
           ++ apply elem_of_singleton in Hin. subst logId. right. left.
           ++ left. exact Hin.
        -- right. right. exact Hin.
Qed.

(** The duration rule of [calculatePhaseDurations] for the phase at index
    [i]: up to the start of the next phase, or for the last phase up to the
    end boundary, which must be a non-empty string that parses. *)
Lemma phase_duration_rule (phaseTimings : gmap string PhaseTiming.t) (phases : list string)
    (completedAt : option string) (i : nat) (p : string) (timing : PhaseTiming.t) (a : Z) :
  NoDup phases -> phases !! i = Some p ->
  phaseTimings !! p = Some timing -> PhaseTiming.durationMs timing = None ->
  parseTimestamp (PhaseTiming.startedAt timing) = Some a ->
  (forall q next b,
      phases !! S i = Some q -> phaseTimings !! q = Some next ->
      parseTimestamp (PhaseTiming.startedAt next) = Some b ->
      durationOf (calculatePhaseDurations phaseTimings phases completedAt) p = Some (b - a))
  /\ (forall c e,
         S i = length phases -> completedAt = Some c -> c <> "" ->
         parseTimestamp c = Some e ->
         durationOf (calculatePhaseDurations phaseTimings phases completedAt) p = Some (e - a))
  /\ (S i = length phases -> completedAt = None ->
      durationOf (calculatePhaseDurations phaseTimings phases completedAt) p = None).
Proof.
  intros Hnodup Hi Htiming Hunset Hstart. unfold durationOf.
  rewrite (calculatePhaseDurations_lookup _ _ _ _ _ Hnodup Hi).
  unfold writtenAt. rewrite Hi. simpl. rewrite Htiming. simpl.
  rewrite Hunset, Hstart. simpl. split; [|split].
  - intros q next b Hq Hnext Hb.
    pose proof (lookup_lt_Some _ _ _ Hq) as Hlt.
    replace (i <? length phases - 1)%nat with true by (symmetry; apply Nat.ltb_lt; lia).
    replace (i + 1)%nat with (S i) by lia. rewrite Hq. simpl. rewrite Hnext. simpl.
    rewrite Hb. reflexivity.
  - intros c e Hlast -> Hc He.
    replace (i <? length phases - 1)%nat with false by (symmetry; apply Nat.ltb_ge; lia).
    rewrite (truthy_intro c Hc). simpl. rewrite He. reflexivity.
  - intros Hlast ->.
    replace (i <? length phases - 1)%nat with false by (symmetry; apply Nat.ltb_ge; lia).
    simpl. exact Hunset.
Qed.

(** *** The properties of the specification *)

(** C1, as amended.  An entry that is processed (its identity is not in the
    seen set) and whose level is ["error"] in any letter case ends the
    session with status [failed], whatever its [metadata.action].  The
    failure message is the value of [metadata.error ?? metadata.message]
    when that value is a string, and the entry's own [message] otherwise:
    it is [metadata.error] when that is a string; when [metadata.error] is
    absent or [null] it is [metadata.message] when that is a string; in
    every other case (a [metadata.error] that is present but neither a
    string nor [null], which hides [metadata.message]; a [metadata.message]
    that is absent or not a string) it is the entry's own [message].  The
    loop returns that result from the turn that fetched the entry, whatever
    follows. *)
Theorem C1_error_level_fails_fast (cfg : Cfg.t) (st : Session) (log : LogEntry.t) :
  Js.toLowerCase (LogEntry.level log) = "error" ->
  getLogId log ∉ seenLogIds st ->
  exists evs result,
    processEntry cfg st log = (evs, inr result)
    /\ PollingResult.status result = failed
    /\ PollingResult.phases result = phases st
    /\ PollingResult.errorMessage result
       = Some match LogEntry.metadata log ≫= Metadata.error with
              | Some (JsString e) => e
              | Some JsNull | None =>
                match LogEntry.metadata log ≫= Metadata.message with
                | Some (JsString m) => m
                | Some _ | None => LogEntry.message log
                end
              | Some _ => LogEntry.message log
              end
    /\ forall entityId runId timeoutMinutes startTime t rest ticks,
         t - startTime < timeoutMinutes * 60 * 1000 ->
         pollLoop cfg entityId runId timeoutMinutes startTime st
           (mkTick t (Fetched (log :: rest)) :: ticks)
         = (call_getPolicyLogs entityId runId (Cfg.logLimit cfg) :: evs, Returned result).
Proof.
  intros Hlevel Hnew.
  destruct (processEntry_error cfg st log Hnew Hlevel) as [evs Hrun].
  eexists evs, _. split; [exact Hrun|]. simpl. repeat split.
  - f_equal. unfold errorLevelMessage, rawError.
    destruct (LogEntry.metadata log ≫= Metadata.error) as [[| | |e| |]|];
      try reflexivity;
      destruct (LogEntry.metadata log ≫= Metadata.message) as [[| | |m| |]|]; reflexivity.
  - intros entityId runId timeoutMinutes startTime t rest ticks Hearly. simpl.
    destruct (Z.leb_spec (timeoutMinutes * 60 * 1000) (t - startTime)) as [Hlate|_]; [lia|].
    rewrite Hrun. reflexivity.
Qed.

(** C2.  Once an identity is in the seen set, an entry with the same
    timestamp, message and metadata action is skipped without any effect:
    no event, and the very same session state (same phase list, same
    seen set, hence same sizes).  A run over turns from which the duplicates
    have been taken out is the same run: same events, same outcome.  The
    seen set only grows, and a processed entry is in it from then on. *)
Theorem C2_dedup_idempotent (cfg : Cfg.t) (st : Session) (log : LogEntry.t) :
  getLogId log ∈ seenLogIds st ->
  (forall log',
      LogEntry.timestamp log' = LogEntry.timestamp log ->
      LogEntry.message log' = LogEntry.message log ->
      metadataAction log' = metadataAction log ->
      processEntry cfg st log' = ([], inl st))
  /\ (forall entityId runId timeoutMinutes startTime ticks,
         pollLoop cfg entityId runId timeoutMinutes startTime st ticks
         = pollLoop cfg entityId runId timeoutMinutes startTime st
             (withoutLogTick (getLogId log) <$> ticks))
  /\ (forall st0 logs evs st1,
         processLogs cfg st0 logs = (evs, inl st1) ->
         seenLogIds st0 ⊆ seenLogIds st1
         /\ (size (seenLogIds st0) <= size (seenLogIds st1))%nat
         /\ forall e, e ∈ logs -> getLogId e ∈ seenLogIds st1).
Proof.
  intros Hseen. split; [|split].
  - intros log' Hts Hmsg Hact. apply processEntry_seen.
    rewrite (getLogId_same log log') by assumption. exact Hseen.
  - intros. symmetry. apply pollLoop_without. exact Hseen.
  - intros st0 logs. revert st0.
    induction logs as [|e0 logs IH]; intros st0 evs st1; simpl.
    + intros [= <- <-]. split; [reflexivity|]. split; [lia|]. intros e He. inversion He.
    + destruct (processEntry cfg st0 e0) as [evs1 [st'|result]] eqn:H1; [|discriminate].
      destruct (processLogs cfg st' logs) as [evs2 r] eqn:H2.
      intros [= <- ->]. destruct (IH _ _ _ H2) as (Hsub & _ & Hall).
      pose proof (processEntry_seen_mono _ _ _ _ _ H1) as Hsub1.
      assert (Hsub2 : seenLogIds st0 ⊆ seenLogIds st1) by (etransitivity; eauto).
      split; [exact Hsub2|]. split; [apply subseteq_size, Hsub2|].
      intros e He. apply elem_of_cons in He as [->|He]; [|apply Hall, He].
      apply Hsub. eapply processEntry_marks, H1.
Qed.



(** C3.  A fetch that throws with a message containing
    ["insufficient_scope"] or ["Forbidden"] ends the session in that turn:
    one fetch call, the authorization error line, and a [failed] result
    whose message is the remediation text of the code, word for word: it
    names the missing [pipeline:read] scope and says where to add the
    permission.  This holds whatever turns would follow.  Any other fetch
    failure yields no result: the turn is the fetch call, a warning and a
    sleep of [pollDelayMs], and the loop goes on from the same session
    state. *)
Theorem C3_fetch_failures (cfg : Cfg.t) (entityId runId : string)
    (timeoutMinutes startTime : Z) (st : Session) (t : Z) (message : string)
    (rest : list Tick) :
  t - startTime < timeoutMinutes * 60 * 1000 ->
  (isPermanentAuthError message = true <->
     exists pre post, message = pre +:+ "insufficient_scope" +:+ post
                      \/ message = pre +:+ "Forbidden" +:+ post)
  /\ (isPermanentAuthError message = true ->
      pollLoop cfg entityId runId timeoutMinutes startTime st
        (mkTick t (FetchThrew message) :: rest)
      = ([call_getPolicyLogs entityId runId (Cfg.logLimit cfg);
          core_error AuthorizationError],
         Returned {| PollingResult.status := failed;
                     PollingResult.durationMs := None;
                     PollingResult.errorMessage :=
                       Some "Missing 'pipeline:read' scope in trust policy. Add the 'Read' permission in the EnforceAuth console.";
                     PollingResult.phases := phases st;
                     PollingResult.phaseTimings :=
                       Some (calculatePhaseDurations (phaseTimings st) (phases st) None);
                     PollingResult.bundleVersion := None;
                     PollingResult.deploymentUrl := None |}))
  /\ (isPermanentAuthError message = false ->
      pollLoop cfg entityId runId timeoutMinutes startTime st
        (mkTick t (FetchThrew message) :: rest)
      = ([call_getPolicyLogs entityId runId (Cfg.logLimit cfg);
          core_warning (FetchFailed message);
          call_sleep (Cfg.pollDelayMs cfg)]
         ++ fst (pollLoop cfg entityId runId timeoutMinutes startTime st rest),
         snd (pollLoop cfg entityId runId timeoutMinutes startTime st rest))).
Proof.
  intros Hearly. split; [|split].
  - unfold isPermanentAuthError. rewrite orb_true_iff, !includes_spec. split.
    + intros [(pre & post & H) | (pre & post & H)]; exists pre, post; auto.
    + intros (pre & post & [H|H]); [left | right]; eauto.
  - intros Hperm. simpl.
    destruct (Z.leb_spec (timeoutMinutes * 60 * 1000) (t - startTime)) as [Hlate|_]; [lia|].
    rewrite Hperm. reflexivity.
  - intros Htrans. simpl.
    destruct (Z.leb_spec (timeoutMinutes * 60 * 1000) (t - startTime)) as [Hlate|_]; [lia|].
    rewrite Htrans.
    destruct (pollLoop cfg entityId runId timeoutMinutes startTime st rest). reflexivity.
Qed.

(** C5.  If the session has run over the turns [pre] without a terminal
    entry and the clock of the next turn shows the timeout reached,
    [pollForCompletion] returns, and what it returns is a result with status
    [timeout], the phases accumulated so far in their order, and a timing
    record for the last phase whose [durationMs] is unset. *)
Theorem C5_timeout_returns (startTime : Z) (pre : list Tick) (tick : Tick)
    (rest : list Tick) (entityId runId : string) (timeoutMinutes : Z)
    (config : PollingConfig.t) (evs : list Event) (st : Session) :
  pollForCompletion startTime pre entityId runId timeoutMinutes config = (evs, Polling st) ->
  timeoutMinutes * 60 * 1000 <= now tick - startTime ->
  exists result,
    pollForCompletion startTime (pre ++ tick :: rest) entityId runId timeoutMinutes config
    = (evs ++ [core_error (TimedOut timeoutMinutes (phases st))], Returned result)
    /\ PollingResult.status result = timeout
    /\ PollingResult.phases result = phases st
    /\ PollingResult.errorMessage result = None
    /\ forall p, last (phases st) = Some p ->
         exists timings startedAt,
           PollingResult.phaseTimings result = Some timings
           /\ timings !! p = Some {| PhaseTiming.startedAt := startedAt;
                                     PhaseTiming.durationMs := None |}.
Proof.
  unfold pollForCompletion. intros Hpre Hlate.
  destruct (pollLoop (mergeConfig config) entityId runId timeoutMinutes startTime
              newSession pre) as [evs0 out0] eqn:Hloop.
  injection Hpre as <- ->.
  rewrite pollLoop_app, Hloop. simpl.
  destruct (Z.leb_spec (timeoutMinutes * 60 * 1000) (now tick - startTime)) as [_|Hearly];
    [|lia].
  eexists. split; [reflexivity|]. simpl. repeat split.
  intros p Hlast.
  assert (Hwf : wf st) by (eapply pollLoop_wf; [apply wf_newSession | exact Hloop]).
  destruct (calculatePhaseDurations_last_unset st p Hwf Hlast)
    as (timing & _ & Hunset & Hcalc).
  eexists _, (PhaseTiming.startedAt timing). split; [reflexivity|].
  rewrite Hcalc. destruct timing as [s d]. simpl in *. subst d. reflexivity.
Qed.

(** C8.  Entries of a batch are processed in arrival order, and the first
    terminal one (ERROR-level, [pipeline_complete], [pipeline_failed] or
    [pipeline_error]) that is not a duplicate ends the session: the events
    and the result are those of the batch cut after that entry, so nothing
    that follows it in the batch is looked at, and the loop returns in that
    turn, with no sleep and no fetch after the entry's own lines, whatever
    turns would follow. *)
Theorem C8_first_terminal_ends_session (cfg : Cfg.t) (st st1 : Session)
    (before : list LogEntry.t) (log : LogEntry.t) (evs1 : list Event) :
  processLogs cfg st before = (evs1, inl st1) ->
  getLogId log ∉ seenLogIds st1 ->
  isTerminal log ->
  exists evs result,
    processEntry cfg st1 log = (evs, inr result)
    /\ Forall (fun e => isCall e = false) evs
    /\ forall after,
         processLogs cfg st (before ++ log :: after) = (evs1 ++ evs, inr result)
         /\ forall entityId runId timeoutMinutes startTime t ticks,
              t - startTime < timeoutMinutes * 60 * 1000 ->
              pollLoop cfg entityId runId timeoutMinutes startTime st
                (mkTick t (Fetched (before ++ log :: after)) :: ticks)
              = (call_getPolicyLogs entityId runId (Cfg.logLimit cfg) :: evs1 ++ evs,
                 Returned result).
Proof.
  intros Hbefore Hnew Hterm.
  destruct (processEntry_terminal cfg st1 log Hnew Hterm) as (evs & result & Hrun).
  exists evs, result. split; [exact Hrun|]. split.
  - pose proof (processEntry_no_call cfg st1 log) as H. rewrite Hrun in H. exact H.
  - intros after.
    assert (Hbatch : processLogs cfg st (before ++ log :: after) = (evs1 ++ evs, inr result)).
    { rewrite processLogs_app, Hbefore. simpl. rewrite Hrun. reflexivity. }
    split; [exact Hbatch|].
    intros entityId runId timeoutMinutes startTime t ticks Hearly. simpl.
    destruct (Z.leb_spec (timeoutMinutes * 60 * 1000) (t - startTime)) as [Hlate|_]; [lia|].
    rewrite Hbatch. reflexivity.
Qed.

(** C4.  Phase durations.  A session that has observed the phases
    ["plan"], ["apply"], ["verify"] at instants [t0], [t1], [t2] and is
    finalized by a [pipeline_complete] entry whose instant is [t3] returns
    timings with durations [t1 - t0], [t2 - t1] and [t3 - t2].  In general,
    the duration of the phase at index [i] is the gap from its own start to
    the start of the phase at index [i + 1], and for the last phase the gap
    to the end boundary supplied; with no end boundary it stays unset. *)
Theorem C4_phase_durations :
  (forall (cfg : Cfg.t) (st : Session) (log : LogEntry.t) (s0 s1 s2 : string)
          (t0 t1 t2 t3 : Z),
      wf st ->
      phases st = ["plan"; "apply"; "verify"] ->
      PhaseTiming.startedAt <$> phaseTimings st !! "plan" = Some s0 ->
      PhaseTiming.startedAt <$> phaseTimings st !! "apply" = Some s1 ->
      PhaseTiming.startedAt <$> phaseTimings st !! "verify" = Some s2 ->
      parseTimestamp s0 = Some t0 ->
      parseTimestamp s1 = Some t1 ->
      parseTimestamp s2 = Some t2 ->
      getLogId log ∉ seenLogIds st ->
      isErrorLevel log = false ->
      hasAction log "pipeline_complete" ->
      effectiveTimestamp log <> "" ->
      parseTimestamp (effectiveTimestamp log) = Some t3 ->
      exists evs result timings,
        processEntry cfg st log = (evs, inr result)
        /\ PollingResult.phaseTimings result = Some timings
        /\ durationOf timings "plan" = Some (t1 - t0)
        /\ durationOf timings "apply" = Some (t2 - t1)
        /\ durationOf timings "verify" = Some (t3 - t2))
  /\ (forall (phaseTimings : gmap string PhaseTiming.t) (phases : list string)
             (completedAt : option string) (i : nat) (p : string)
             (timing : PhaseTiming.t) (a : Z),
         NoDup phases -> phases !! i = Some p ->
         phaseTimings !! p = Some timing -> PhaseTiming.durationMs timing = None ->
         parseTimestamp (PhaseTiming.startedAt timing) = Some a ->
         (forall q next b,
             phases !! S i = Some q -> phaseTimings !! q = Some next ->
             parseTimestamp (PhaseTiming.startedAt next) = Some b ->
             durationOf (calculatePhaseDurations phaseTimings phases completedAt) p
             = Some (b - a))
         /\ (forall c e,
                S i = length phases -> completedAt = Some c -> c <> "" ->
                parseTimestamp c = Some e ->
                durationOf (calculatePhaseDurations phaseTimings phases completedAt) p
                = Some (e - a))
         /\ (S i = length phases -> completedAt = None ->
             durationOf (calculatePhaseDurations phaseTimings phases completedAt) p = None)).
Proof.
  split; [|exact phase_duration_rule].
  intros cfg st log s0 s1 s2 t0 t1 t2 t3 Hwf Hphases H0 H1 H2 P0 P1 P2 Hnew Hlevel Hact Hc P3.
  destruct (processEntry_complete cfg st log Hnew Hlevel Hact) as [evs Hrun].
  eexists evs, _, _. split; [exact Hrun|]. split; [reflexivity|].
  destruct (phaseTimings st !! "plan") as [[s0' d0]|] eqn:E0; [|discriminate].
  destruct (phaseTimings st !! "apply") as [[s1' d1]|] eqn:E1; [|discriminate].
  destruct (phaseTimings st !! "verify") as [[s2' d2]|] eqn:E2; [|discriminate].
  simpl in H0, H1, H2. injection H0 as ->. injection H1 as ->. injection H2 as ->.
  pose proof (wf_unset _ Hwf _ _ E0) as U0.
  pose proof (wf_unset _ Hwf _ _ E1) as U1.
  pose proof (wf_unset _ Hwf _ _ E2) as U2.
  pose proof (wf_nodup _ Hwf) as Hnodup.
  assert (L0 : phases st !! 0%nat = Some "plan") by (rewrite Hphases; reflexivity).
  assert (L1 : phases st !! 1%nat = Some "apply") by (rewrite Hphases; reflexivity).
  assert (L2 : phases st !! 2%nat = Some "verify") by (rewrite Hphases; reflexivity).
  assert (Hlen : length (phases st) = 3%nat) by (rewrite Hphases; reflexivity).
  simpl in U0, U1, U2. subst d0 d1 d2. split; [|split].
  - destruct (phase_duration_rule _ _ (Some (effectiveTimestamp log)) _ _ _ _
                Hnodup L0 E0 eq_refl P0) as (Hnext & _ & _).
    exact (Hnext _ _ _ L1 E1 P1).
  - destruct (phase_duration_rule _ _ (Some (effectiveTimestamp log)) _ _ _ _
                Hnodup L1 E1 eq_refl P1) as (Hnext & _ & _).
    exact (Hnext _ _ _ L2 E2 P2).
  - destruct (phase_duration_rule _ _ (Some (effectiveTimestamp log)) _ _ _ _
                Hnodup L2 E2 eq_refl P2) as (_ & Hlast & _).
    apply (Hlast (effectiveTimestamp log) t3); auto.
Qed.

(** C6.  A [pipeline_complete] entry ends the session with status
    [success], the phases observed so far in their order, and the payload
    ([duration_ms], [details.bundle_version], [details.deployment_url])
    carried through.  After a batch of [N] reports of distinct phases with
    distinct identities, the phase list of the result is those [N] names in
    the order of the reports.  The batch
    [[phase("sync"), pipeline_complete(duration_ms=4200, bundle_version="v7")]]
    yields status [success], [durationMs] 4200, phases [["sync"]] and
    [bundleVersion] ["v7"]. *)
Theorem C6_complete_after_phases (cfg : Cfg.t) :
  (forall (st : Session) (log : LogEntry.t),
      getLogId log ∉ seenLogIds st -> isErrorLevel log = false ->
      hasAction log "pipeline_complete" ->
      exists evs result,
        processEntry cfg st log = (evs, inr result)
        /\ PollingResult.status result = success
        /\ PollingResult.phases result = phases st
        /\ PollingResult.durationMs result = LogEntry.metadata log ≫= Metadata.duration_ms
        /\ PollingResult.bundleVersion result
           = (LogEntry.metadata log ≫= Metadata.details) ≫= Details.bundle_version
        /\ PollingResult.deploymentUrl result
           = (LogEntry.metadata log ≫= Metadata.details) ≫= Details.deployment_url)
  /\ (forall (entries : list LogEntry.t) (names : list string) (log : LogEntry.t),
         Forall2 isPhaseReport entries names ->
         NoDup names ->
         NoDup (getLogId <$> entries ++ [log]) ->
         isErrorLevel log = false ->
         hasAction log "pipeline_complete" ->
         exists evs result,
           processLogs cfg newSession (entries ++ [log]) = (evs, inr result)
           /\ PollingResult.status result = success
           /\ PollingResult.phases result = names
           /\ length (PollingResult.phases result) = length entries
           /\ PollingResult.durationMs result = LogEntry.metadata log ≫= Metadata.duration_ms
           /\ PollingResult.bundleVersion result
              = (LogEntry.metadata log ≫= Metadata.details) ≫= Details.bundle_version)
  /\ (exists evs timings,
         pollForCompletion 0
           [mkTick 0 (Fetched [Sample.phase "sync" "2024-05-01T10:00:00.000Z";
                               Sample.pipeline_complete "2024-05-01T10:00:04.200Z"
                                 (Some 4200) (Some "v7")])]
           "entity" "run" 1 Sample.defaults
         = (evs,
            Returned {| PollingResult.status := success;
                        PollingResult.durationMs := Some 4200;
                        PollingResult.errorMessage := None;
                        PollingResult.phases := ["sync"];
                        PollingResult.phaseTimings := Some timings;
                        PollingResult.bundleVersion := Some "v7";
                        PollingResult.deploymentUrl := None |})).
Proof.
  split; [|split].
  - intros st log Hnew Hlevel Hact.
    destruct (processEntry_complete cfg st log Hnew Hlevel Hact) as [evs Hrun].
    eexists evs, _. split; [exact Hrun|]. simpl. auto.
  - intros entries names log Hreports Hnames Hids Hlevel Hact.
    rewrite fmap_app in Hids. apply NoDup_app in Hids as (Hids & Hlog & _).
    destruct (processLogs_phase_reports cfg entries names Hreports newSession
                wf_newSession Hnames) as (evs1 & st' & H1 & Hwf' & Hphases & Hseen).
    + intros p _ Hin. inversion Hin.
    + exact Hids.
    + intros e _ Hin. simpl in Hin. set_solver.
    + assert (Hnew : getLogId log ∉ seenLogIds st').
      { intros Hin. apply Hseen in Hin as [Hin | Hin]; [simpl in Hin; set_solver|].
        apply (Hlog _ Hin). simpl. left. }
      destruct (processEntry_complete cfg st' log Hnew Hlevel Hact) as [evs2 H2].
      eexists (evs1 ++ evs2), _. rewrite processLogs_app, H1. simpl. rewrite H2.
      split; [reflexivity|]. simpl. rewrite Hphases. simpl.
      repeat split. symmetry. eapply Forall2_length, Hreports.
  - eexists _, _. vm_compute. reflexivity.
Qed.

(** C9.  The verbosity decides nothing.  Two calls that differ only in
    [logVerbosity] end in the same way (the same result, field by field, or
    the same session state if the script of turns runs out first), make the
    same fetch calls and sleeps and write the same warnings and errors, in
    the same order; they differ at most in their [core.info] lines. *)
Theorem C9_verbosity_decides_nothing (startTime : Z) (ticks : list Tick)
    (entityId runId : string) (timeoutMinutes : Z) (pollDelayMs logLimit : option Z)
    (v1 v2 : option LogVerbosity) :
  let run v :=
    pollForCompletion startTime ticks entityId runId timeoutMinutes
      (PollingConfig.mk pollDelayMs logLimit v) in
  snd (run v1) = snd (run v2)
  /\ withoutInfo (fst (run v1)) = withoutInfo (fst (run v2))
  /\ fetchCalls (fst (run v1)) = fetchCalls (fst (run v2)).
Proof.
  intros run.
  assert (H : snd (run v1) = snd (run v2)
              /\ withoutInfo (fst (run v1)) = withoutInfo (fst (run v2))).
  { subst run. unfold pollForCompletion.
    destruct (pollLoop_decisions
                (mergeConfig (PollingConfig.mk pollDelayMs logLimit v1))
                (mergeConfig (PollingConfig.mk pollDelayMs logLimit v2))
                entityId runId timeoutMinutes startTime ticks eq_refl eq_refl newSession)
      as [Hsnd Hfst].
    destruct (pollLoop (mergeConfig (PollingConfig.mk pollDelayMs logLimit v1)) _ _ _ _ _ _)
      as [evs1 o1].
    destruct (pollLoop (mergeConfig (PollingConfig.mk pollDelayMs logLimit v2)) _ _ _ _ _ _)
      as [evs2 o2].
    simpl in *. split; [exact Hsnd|]. repeat apply withoutInfo_cons_eq. exact Hfst. }
  destruct H as [Hsnd Hfst]. split; [exact Hsnd|]. split; [exact Hfst|].
  rewrite <- (fetchCalls_withoutInfo (fst (run v1))), Hfst. apply fetchCalls_withoutInfo.
Qed.

End Poller.

(** C10.  [isSuccessful] holds exactly for status [success] and [isFailed]
    exactly for [failed] and [timeout], so exactly one of the two holds of
    every result.  A [timeout] result is a failure for [run], which reports
    the status and then marks the action as failed. *)
Theorem C10_success_failure_partition :
  (forall result : PollingResult.t,
      (isSuccessful result = true <-> PollingResult.status result = success)
      /\ (isFailed result = true <->
          PollingResult.status result = failed \/ PollingResult.status result = timeout)
      /\ isSuccessful result = negb (isFailed result))
  /\ (forall durationMs errorMessage phases phaseTimings bundleVersion deploymentUrl wallSeconds,
         let result :=
           PollingResult.mk timeout durationMs errorMessage phases phaseTimings
             bundleVersion deploymentUrl in
         isSuccessful result = false
         /\ isFailed result = true
         /\ head (reportResult wallSeconds result) = Some (setOutput_status timeout)
         /\ last (reportResult wallSeconds result)
            = Some (setFailed ("Deployment failed: " +:+
                               Js.or_else errorMessage NO_ERROR_MESSAGE))).
Proof.
  split.
  - intros result. unfold isSuccessful, isFailed.
    destruct (PollingResult.status result); simpl;
      repeat split; try discriminate; auto; intros [H|H]; discriminate.
  - intros durationMs errorMessage phases phaseTimings bundleVersion deploymentUrl
      wallSeconds result.
    repeat split. unfold reportResult. subst result. simpl.
    destruct (Js.truthy bundleVersion), (Js.truthy deploymentUrl); reflexivity.
Qed.

(** ** The properties at concrete inputs *)

Ltac by_decide := apply (bool_decide_unpack _); vm_compute; exact I.

Module Run.

Definition t0 : string := "2024-05-01T10:00:00.000Z".
Definition t1 : string := "2024-05-01T10:00:05.000Z".
Definition t2 : string := "2024-05-01T10:00:12.500Z".
Definition t3 : string := "2024-05-01T10:00:20.000Z".

(** An ERROR line that also carries [pipeline_complete]. *)
Definition errorLine : LogEntry.t :=
  Sample.line t0 "ERROR" "step failed"
    (Some (Metadata.mk (Some "pipeline_complete") None None None
             (Some (JsString "deploy broke")) (Some (JsString "quota exceeded")))).

(** An error line whose [metadata.error] is a number. *)
Definition numericErrorLine : LogEntry.t :=
  Sample.line t0 "error" "step failed"
    (Some (Metadata.mk None None None None (Some (JsString "disk full"))
             (Some (JsNumber 500)))).

(** An error line without [metadata.error] whose [metadata.message] is a
    number. *)
Definition numericMessageLine : LogEntry.t :=
  Sample.line t0 "Error" "step failed"
    (Some (Metadata.mk None None None None (Some (JsNumber 42)) None)).

(** The session after [Sample.phase name ts] has been processed. *)
Definition afterPhase (name ts : string) (st : Session) : Session :=
  observePhase name ts (markSeen (getLogId (Sample.phase name ts)) st).

Definition threePhases : Session :=
  afterPhase "verify" t2 (afterPhase "apply" t1 (afterPhase "plan" t0 newSession)).

(** A phase report at 0 s, then empty batches every 2 s up to 58 s. *)
Definition quietMinute : list Tick :=
  mkTick 0 (Fetched [Sample.phase "build" t0])
  :: ((fun k => mkTick (2000 * Z.of_nat k) (Fetched [])) <$> seq 1 29).

End Run.

Lemma wf_threePhases : wf Run.threePhases.
Proof.
  unfold Run.threePhases, Run.afterPhase.
  repeat first [ apply wf_newSession | apply wf_markSeen | apply wf_observePhase | by_decide ].
Qed.

Lemma C1_witness :
  Js.toLowerCase (LogEntry.level Run.errorLine) = "error"
  /\ (getLogId Run.errorLine ∉ seenLogIds newSession)
  /\ (exists evs result,
        processEntry isoTime DEFAULT_POLLING_CONFIG newSession Run.errorLine = (evs, inr result)
        /\ PollingResult.status result = failed
        /\ PollingResult.errorMessage result = Some "quota exceeded")
  /\ (exists evs result,
        processEntry isoTime DEFAULT_POLLING_CONFIG newSession Run.numericMessageLine
        = (evs, inr result)
        /\ PollingResult.status result = failed
        /\ PollingResult.errorMessage result = Some "step failed").
Proof.
  assert (H1 : Js.toLowerCase (LogEntry.level Run.errorLine) = "error") by reflexivity.
  assert (H2 : getLogId Run.errorLine ∉ seenLogIds newSession) by by_decide.
  assert (H3 : Js.toLowerCase (LogEntry.level Run.numericMessageLine) = "error")
    by reflexivity.
  assert (H4 : getLogId Run.numericMessageLine ∉ seenLogIds newSession) by by_decide.
  split; [exact H1|]. split; [exact H2|]. split.
  - destruct (C1_error_level_fails_fast isoTime DEFAULT_POLLING_CONFIG newSession
                Run.errorLine H1 H2) as (evs & result & Hrun & Hstatus & _ & Hmsg & _).
    exists evs, result. split; [exact Hrun|]. split; [exact Hstatus | exact Hmsg].
  - destruct (C1_error_level_fails_fast isoTime DEFAULT_POLLING_CONFIG newSession
                Run.numericMessageLine H3 H4) as (evs & result & Hrun & Hstatus & _ & Hmsg & _).
    exists evs, result. split; [exact Hrun|]. split; [exact Hstatus | exact Hmsg].
Defined.

(** C1 as stated fails: with a [metadata.error] that is a number and a
    [metadata.message] of ["disk full"], the failure message is the entry's
    own ["step failed"], which is neither of the two. *)
Lemma C1_counterexample :
  ~ (forall (cfg : Cfg.t) (st : Session) (log : LogEntry.t),
        Js.toLowerCase (LogEntry.level log) = "error" ->
        getLogId log ∉ seenLogIds st ->
        exists evs result,
          processEntry isoTime cfg st log = (evs, inr result)
          /\ PollingResult.status result = failed
          /\ PollingResult.errorMessage result = Some (spec_errorMessage log)).
Proof.
  intros H.
  destruct (H DEFAULT_POLLING_CONFIG newSession Run.numericErrorLine)
    as (evs & result & Hrun & _ & Hmsg).
  - reflexivity.
  - by_decide.
  - vm_compute in Hrun. injection Hrun as _ <-. vm_compute in Hmsg. discriminate.
Qed.

Lemma C2_witness :
  getLogId (Sample.phase "plan" Run.t0) ∈ seenLogIds Run.threePhases
  /\ processEntry isoTime DEFAULT_POLLING_CONFIG Run.threePhases (Sample.phase "plan" Run.t0)
     = ([], inl Run.threePhases).
Proof.
  assert (H : getLogId (Sample.phase "plan" Run.t0) ∈ seenLogIds Run.threePhases)
    by by_decide.
  split; [exact H|].
  apply (C2_dedup_idempotent isoTime DEFAULT_POLLING_CONFIG Run.threePhases
           (Sample.phase "plan" Run.t0) H); reflexivity.
Defined.

Lemma C3_witness :
  1000 - 0 < 1 * 60 * 1000
  /\ isPermanentAuthError "API request failed: Forbidden" = true
  /\ snd (pollLoop isoTime DEFAULT_POLLING_CONFIG "entity" "run" 1 0 Run.threePhases
            [mkTick 1000 (FetchThrew "API request failed: Forbidden");
             mkTick 3000 (Fetched [])])
     = Returned {| PollingResult.status := failed;
                   PollingResult.durationMs := None;
                   PollingResult.errorMessage :=
                     Some "Missing 'pipeline:read' scope in trust policy. Add the 'Read' permission in the EnforceAuth console.";
                   PollingResult.phases := ["plan"; "apply"; "verify"];
                   PollingResult.phaseTimings :=
                     Some (calculatePhaseDurations isoTime (phaseTimings Run.threePhases)
                             (phases Run.threePhases) None);
                   PollingResult.bundleVersion := None;
                   PollingResult.deploymentUrl := None |}.
Proof.
  assert (H1 : 1000 - 0 < 1 * 60 * 1000) by lia.
  assert (H2 : isPermanentAuthError "API request failed: Forbidden" = true) by reflexivity.
  split; [exact H1|]. split; [exact H2|].
  destruct (C3_fetch_failures isoTime DEFAULT_POLLING_CONFIG "entity" "run" 1 0
              Run.threePhases 1000 "API request failed: Forbidden"
              [mkTick 3000 (Fetched [])] H1) as (_ & Hperm & _).
  rewrite (Hperm H2). reflexivity.
Defined.

Lemma C4_witness :
  exists evs result timings,
    processEntry isoTime DEFAULT_POLLING_CONFIG Run.threePhases
      (Sample.pipeline_complete Run.t3 (Some 20000) None) = (evs, inr result)
    /\ PollingResult.phaseTimings result = Some timings
    /\ durationOf timings "plan" = Some 5000
    /\ durationOf timings "apply" = Some 7500
    /\ durationOf timings "verify" = Some 7500.
Proof.
  apply (proj1 (C4_phase_durations isoTime) DEFAULT_POLLING_CONFIG Run.threePhases
           (Sample.pipeline_complete Run.t3 (Some 20000) None)
           Run.t0 Run.t1 Run.t2
           1714557600000 1714557605000 1714557612500 1714557620000).
  - exact wf_threePhases.
  - reflexivity.
  - vm_compute. reflexivity.
  - vm_compute. reflexivity.
  - vm_compute. reflexivity.
  - vm_compute. reflexivity.
  - vm_compute. reflexivity.
  - vm_compute. reflexivity.
  - by_decide.
  - reflexivity.
  - reflexivity.
  - by_decide.
  - vm_compute. reflexivity.
Defined.

(** The scenario of the specification: a minute of silence after phase
    ["build"], with a one-minute timeout and a two-second delay. *)
Lemma C5_witness :
  1 * 60 * 1000 <= now (mkTick 60000 (Fetched [])) - 0
  /\ exists evs result,
       pollForCompletion isoTime 0 (Run.quietMinute ++ [mkTick 60000 (Fetched [])])
         "entity" "run" 1 Sample.defaults = (evs, Returned result)
       /\ PollingResult.status result = timeout
       /\ PollingResult.phases result = ["build"]
       /\ exists timings startedAt,
            PollingResult.phaseTimings result = Some timings
            /\ timings !! "build" = Some {| PhaseTiming.startedAt := startedAt;
                                            PhaseTiming.durationMs := None |}.
Proof.
  assert (Hlate : 1 * 60 * 1000 <= now (mkTick 60000 (Fetched [])) - 0) by (simpl; lia).
  split; [exact Hlate|].
  set (run := pollForCompletion isoTime 0 Run.quietMinute "entity" "run" 1 Sample.defaults).
  assert (Hrun : run = (fst run, Polling (sessionOf (snd run))))
    by (vm_compute; reflexivity).
  assert (Hphases : phases (sessionOf (snd run)) = ["build"]) by (vm_compute; reflexivity).
  destruct (C5_timeout_returns isoTime 0 Run.quietMinute (mkTick 60000 (Fetched [])) []
              "entity" "run" 1 Sample.defaults _ _ Hrun Hlate)
    as (result & Hcall & Hstatus & Hres & _ & Hlast).
  eexists _, result. split; [exact Hcall|]. split; [exact Hstatus|].
  split; [rewrite Hres; exact Hphases|].
  apply Hlast. rewrite Hphases. reflexivity.
Defined.

Lemma C6_witness :
  exists evs result,
    processLogs isoTime DEFAULT_POLLING_CONFIG newSession
      ([Sample.phase "plan" Run.t0; Sample.phase "apply" Run.t1; Sample.phase "verify" Run.t2]
       ++ [Sample.pipeline_complete Run.t3 (Some 20000) (Some "v7")]) = (evs, inr result)
    /\ PollingResult.status result = success
    /\ PollingResult.phases result = ["plan"; "apply"; "verify"]
    /\ length (PollingResult.phases result) = 3%nat
    /\ PollingResult.durationMs result = Some 20000
    /\ PollingResult.bundleVersion result = Some "v7".
Proof.
  apply (proj1 (proj2 (C6_complete_after_phases isoTime DEFAULT_POLLING_CONFIG))
           [Sample.phase "plan" Run.t0; Sample.phase "apply" Run.t1;
            Sample.phase "verify" Run.t2]
           ["plan"; "apply"; "verify"]
           (Sample.pipeline_complete Run.t3 (Some 20000) (Some "v7"))).
  - repeat constructor; discriminate.
  - by_decide.
  - by_decide.
  - reflexivity.
  - reflexivity.
Defined.


Lemma C8_witness :
  exists evs result,
    processLogs isoTime DEFAULT_POLLING_CONFIG newSession
      ([Sample.phase "sync" Run.t0]
       ++ Sample.pipeline_failed Run.t1 (Some "boom") :: [Sample.phase "late" Run.t2])
    = (evs, inr result)
    /\ PollingResult.status result = failed
    /\ PollingResult.phases result = ["sync"].
Proof.
  set (before := processLogs isoTime DEFAULT_POLLING_CONFIG newSession
                   [Sample.phase "sync" Run.t0]).
  assert (Hbefore : before = (fst before, inl (Run.afterPhase "sync" Run.t0 newSession)))
    by (vm_compute; reflexivity).
  assert (Hnew : getLogId (Sample.pipeline_failed Run.t1 (Some "boom"))
                 ∉ seenLogIds (Run.afterPhase "sync" Run.t0 newSession)) by by_decide.
  assert (Hterm : isTerminal (Sample.pipeline_failed Run.t1 (Some "boom")))
    by (right; right; left; reflexivity).
  destruct (C8_first_terminal_ends_session isoTime DEFAULT_POLLING_CONFIG newSession _
              [Sample.phase "sync" Run.t0] (Sample.pipeline_failed Run.t1 (Some "boom"))
              _ Hbefore Hnew Hterm) as (evs & result & Hentry & _ & Hcut).
  destruct (Hcut [Sample.phase "late" Run.t2]) as [Hbatch _].
  exists (fst before ++ evs), result. split; [exact Hbatch|].
  vm_compute in Hentry. injection Hentry as _ <-. split; reflexivity.
Defined.

(** The lines do depend on the verbosity: the same batch under [none] and
    under [verbose]. *)
Example verbosity_changes_lines :
  fst (pollForCompletion isoTime 0 [mkTick 0 (Fetched [Sample.phase "sync" Run.t0])]
         "entity" "run" 1 (Sample.withVerbosity none))
  = [core_info (PollingStarted 1); core_info Blank;
     call_getPolicyLogs "entity" "run" 200; call_sleep 2000]
  /\ fst (pollForCompletion isoTime 0 [mkTick 0 (Fetched [Sample.phase "sync" Run.t0])]
            "entity" "run" 1 (Sample.withVerbosity verbose))
     = [core_info (PollingStarted 1); core_info Blank;
        call_getPolicyLogs "entity" "run" 200;
        core_info (LogLine "10:00:00.000" "INFO " "Phase sync started");
        core_info (PhaseStarted "10:00:00.000" "sync");
        call_sleep 2000].
Proof. split; vm_compute; reflexivity. Qed.

(** A whole call: three phases, then the completion. *)
Example three_phase_run :
  exists evs result timings,
    pollForCompletion isoTime 0
      [mkTick 100 (Fetched [Sample.phase "plan" Run.t0]);
       mkTick 2100 (Fetched [Sample.phase "plan" Run.t0; Sample.phase "apply" Run.t1]);
       mkTick 4100 (FetchThrew "API request failed: HTTP 502");
       mkTick 6100 (Fetched [Sample.phase "apply" Run.t1; Sample.phase "verify" Run.t2;
                             Sample.pipeline_complete Run.t3 (Some 20000) (Some "v7")])]
      "entity" "run" 10 Sample.defaults = (evs, Returned result)
    /\ PollingResult.status result = success
    /\ PollingResult.phases result = ["plan"; "apply"; "verify"]
    /\ PollingResult.phaseTimings result = Some timings
    /\ durationOf timings "plan" = Some 5000
    /\ durationOf timings "apply" = Some 7500
    /\ durationOf timings "verify" = Some 7500
    /\ fetchCalls evs = 4%nat.
Proof. eexists _, _, _. vm_compute. repeat split; reflexivity. Qed.

(** ** The older revisions *)

(** In [src/polling.ts] an ERROR-level entry is not terminal: the one that
    carries [pipeline_complete] ends the session with [success]. *)
Lemma PollingTs_error_level_not_terminal :
  snd (PollingTs.processEntry DEFAULT_POLLING_CONFIG PollingTs.newSession Run.errorLine)
  = inr {| PollingResult.status := success;
           PollingResult.durationMs := None;
           PollingResult.errorMessage := None;
           PollingResult.phases := [];
           PollingResult.phaseTimings := None;
           PollingResult.bundleVersion := None;
           PollingResult.deploymentUrl := None |}.
Proof. vm_compute. reflexivity. Qed.

(** In [src/polling.ts] every fetch failure is retried, a [Forbidden] one
    included. *)
Lemma PollingTs_every_fetch_failure_retried (cfg : Cfg.t) (entityId runId : string)
    (timeoutMinutes startTime : Z) (st : PollingTs.Session) (t : Z) (message : string)
    (rest : list Tick) :
  t - startTime < timeoutMinutes * 60 * 1000 ->
  PollingTs.pollLoop cfg entityId runId timeoutMinutes startTime st
    (mkTick t (FetchThrew message) :: rest)
  = ([call_getPolicyLogs entityId runId (Cfg.logLimit cfg);
      core_warning (FetchFailed message);
      call_sleep (Cfg.pollDelayMs cfg)]
     ++ fst (PollingTs.pollLoop cfg entityId runId timeoutMinutes startTime st rest),
     snd (PollingTs.pollLoop cfg entityId runId timeoutMinutes startTime st rest)).
Proof.
  intros Hearly. simpl.
  destruct (Z.leb_spec (timeoutMinutes * 60 * 1000) (t - startTime)) as [Hlate|_]; [lia|].
  destruct (PollingTs.pollLoop cfg entityId runId timeoutMinutes startTime st rest).
  reflexivity.
Qed.

(** [src/polling.ts] returns on timeout, as the current revision does. *)
Lemma PollingTs_timeout_returns (cfg : Cfg.t) (entityId runId : string)
    (timeoutMinutes startTime : Z) (st : PollingTs.Session) (tick : Tick) (rest : list Tick) :
  timeoutMinutes * 60 * 1000 <= now tick - startTime ->
  exists result,
    snd (PollingTs.pollLoop cfg entityId runId timeoutMinutes startTime st (tick :: rest))
    = Returned result
    /\ PollingResult.status result = timeout
    /\ PollingResult.phases result = PollingTs.phases st.
Proof.
  intros Hlate. simpl.
  destruct (Z.leb_spec (timeoutMinutes * 60 * 1000) (now tick - startTime)) as [_|Hearly];
    [|lia].
  eexists. split; [reflexivity|]. split; reflexivity.
Qed.

(** The first log-based revision throws on timeout instead. *)
Lemma Throwing_timeout_throws (config : Throwing.Config) (entityId runId : string)
    (timeoutMinutes startTime : Z) (st : PollingTs.Session) (tick : Tick) (rest : list Tick) :
  timeoutMinutes * 60 * 1000 <= now tick - startTime ->
  Throwing.pollLoop config entityId runId timeoutMinutes startTime st (tick :: rest)
  = ([], Threw (TimedOut timeoutMinutes (PollingTs.phases st))).
Proof.
  intros Hlate. simpl.
  destruct (Z.leb_spec (timeoutMinutes * 60 * 1000) (now tick - startTime)) as [_|Hearly];
    [reflexivity | lia].
Qed.

(** The verbosity decides nothing in [src/polling.ts] either. *)

Ltac info_lines :=
  repeat first
    [ apply Forall_nil_2
    | apply Forall_cons_2; [reflexivity |]
    | apply Forall_app_2
    | apply Forall_when ].

Lemma PollingTs_processEntry_decisions (cfg1 cfg2 : Cfg.t) (st : PollingTs.Session)
    (log : LogEntry.t) :
  snd (PollingTs.processEntry cfg1 st log) = snd (PollingTs.processEntry cfg2 st log)
  /\ withoutInfo (fst (PollingTs.processEntry cfg1 st log))
     = withoutInfo (fst (PollingTs.processEntry cfg2 st log)).
Proof.
  assert (Hlines : forall cfg,
             withoutInfo (fst (PollingTs.processEntry cfg st log))
             = failureLine (snd (PollingTs.processEntry cfg st log))
             /\ snd (PollingTs.processEntry cfg st log)
                = snd (PollingTs.processEntry cfg1 st log)).
  { intros cfg. unfold PollingTs.processEntry.
    destruct (decide (getLogId log ∈ PollingTs.seenLogIds st)); [split; reflexivity|].
    destruct (LogEntry.metadata log) as [metadata|];
      [|cbn [fst snd failureLine]; split; [apply withoutInfo_infos; info_lines | reflexivity]].
    destruct (negb (Js.truthy (Metadata.action metadata)));
      [cbn [fst snd failureLine]; split; [apply withoutInfo_infos; info_lines | reflexivity]|].
    destruct (String.eqb (default "" (Metadata.action metadata))
                "report_phase_change_success");
      [destruct (Js.truthy (Metadata.details metadata ≫= Details.phase)
                 && negb (bool_decide
                            (default "" (Metadata.details metadata ≫= Details.phase)
                               ∈ PollingTs.seenPhases st)))|];
      cbv beta iota zeta;
      (destruct (String.eqb (default "" (Metadata.action metadata)) "pipeline_complete");
       [|destruct (String.eqb (default "" (Metadata.action metadata)) "pipeline_failed"
                   || String.eqb (default "" (Metadata.action metadata)) "pipeline_error")]);
      cbn [fst snd failureLine PollingResult.errorMessage];
      (split; [|reflexivity]);
      first [ apply withoutInfo_infos; solve [info_lines]
            | rewrite ?app_assoc; apply withoutInfo_snoc_error; solve [info_lines] ]. }
  destruct (Hlines cfg1) as [H1 _], (Hlines cfg2) as [H2 Hsnd].
  split; [symmetry; exact Hsnd|]. rewrite H1, H2, Hsnd. reflexivity.
Qed.

Lemma PollingTs_processLogs_decisions (cfg1 cfg2 : Cfg.t) (logs : list LogEntry.t) :
  forall st : PollingTs.Session,
    snd (PollingTs.processLogs cfg1 st logs) = snd (PollingTs.processLogs cfg2 st logs)
    /\ withoutInfo (fst (PollingTs.processLogs cfg1 st logs))
       = withoutInfo (fst (PollingTs.processLogs cfg2 st logs)).
Proof.
  induction logs as [|log logs IH]; intros st; simpl; [auto|].
  destruct (PollingTs_processEntry_decisions cfg1 cfg2 st log) as [Hsnd Hfst].
  destruct (PollingTs.processEntry cfg1 st log) as [evs1 r1],
           (PollingTs.processEntry cfg2 st log) as [evs2 r2].
  simpl in Hsnd, Hfst. subst r2. destruct r1 as [st'|result]; [|auto].
  destruct (IH st') as [Hsnd' Hfst'].
  destruct (PollingTs.processLogs cfg1 st' logs) as [evs1' r1'],
           (PollingTs.processLogs cfg2 st' logs) as [evs2' r2'].
  simpl in *. split; [exact Hsnd'|]. rewrite !withoutInfo_app. congruence.
Qed.

Theorem PollingTs_verbosity_decides_nothing (startTime : Z) (ticks : list Tick)
    (entityId runId : string) (timeoutMinutes : Z) (pollDelayMs logLimit : option Z)
    (v1 v2 : option LogVerbosity) :
  let run v :=
    PollingTs.pollForCompletion startTime ticks entityId runId timeoutMinutes
      (PollingConfig.mk pollDelayMs logLimit v) in
  snd (run v1) = snd (run v2)
  /\ withoutInfo (fst (run v1)) = withoutInfo (fst (run v2)).
Proof.
  intros run. subst run. unfold PollingTs.pollForCompletion.
  set (cfg1 := mergeConfig (PollingConfig.mk pollDelayMs logLimit v1)).
  set (cfg2 := mergeConfig (PollingConfig.mk pollDelayMs logLimit v2)).
  assert (Hdelay : Cfg.pollDelayMs cfg1 = Cfg.pollDelayMs cfg2) by reflexivity.
  assert (Hlimit : Cfg.logLimit cfg1 = Cfg.logLimit cfg2) by reflexivity.
  clearbody cfg1 cfg2.
  assert (Hloop : forall st,
             snd (PollingTs.pollLoop cfg1 entityId runId timeoutMinutes startTime st ticks)
             = snd (PollingTs.pollLoop cfg2 entityId runId timeoutMinutes startTime st ticks)
             /\ withoutInfo
                  (fst (PollingTs.pollLoop cfg1 entityId runId timeoutMinutes startTime st ticks))
                = withoutInfo
                    (fst (PollingTs.pollLoop cfg2 entityId runId timeoutMinutes startTime st
                            ticks))).
  { induction ticks as [|tick ticks IH]; intros st; simpl; [auto|].
    destruct (timeoutMinutes * 60 * 1000 <=? now tick - startTime); [auto|].
    rewrite Hdelay, Hlimit. destruct (response tick) as [logs|message].
    - destruct (PollingTs_processLogs_decisions cfg1 cfg2 logs st) as [Hsnd Hfst].
      destruct (PollingTs.processLogs cfg1 st logs) as [evs1 r1],
               (PollingTs.processLogs cfg2 st logs) as [evs2 r2].
      simpl in Hsnd, Hfst. subst r2. destruct r1 as [st'|result].
      + destruct (IH st') as [Hsnd' Hfst'].
        destruct (PollingTs.pollLoop cfg1 _ _ _ _ st' ticks) as [evs1' o1],
                 (PollingTs.pollLoop cfg2 _ _ _ _ st' ticks) as [evs2' o2].
        simpl in *. split; [exact Hsnd'|].
        apply withoutInfo_cons_eq. rewrite !withoutInfo_app, Hfst. f_equal.
        apply withoutInfo_cons_eq, Hfst'.
      + simpl. split; [reflexivity|]. apply withoutInfo_cons_eq, Hfst.
    - destruct (IH st) as [Hsnd' Hfst'].
      destruct (PollingTs.pollLoop cfg1 _ _ _ _ st ticks) as [evs1' o1],
               (PollingTs.pollLoop cfg2 _ _ _ _ st ticks) as [evs2' o2].
      simpl in *. split; [exact Hsnd'|]. repeat apply withoutInfo_cons_eq. exact Hfst'. }
  destruct (Hloop PollingTs.newSession) as [Hsnd Hfst].
  destruct (PollingTs.pollLoop cfg1 _ _ _ _ _ _) as [evs1 o1].
  destruct (PollingTs.pollLoop cfg2 _ _ _ _ _ _) as [evs2 o2].
  simpl in *. split; [exact Hsnd|]. repeat apply withoutInfo_cons_eq. exact Hfst.
Qed.

(** * Beyond the specification: more of the code

    ** Strings *)

Lemma str_length_app (a b : string) :
  String.length (a +:+ b) = (String.length a + String.length b)%nat.
Proof. induction a as [|c a IH]; [reflexivity|]. rewrite append_cons. simpl. lia. Qed.

Lemma str_app_assoc (a b c : string) : (a +:+ b) +:+ c = a +:+ b +:+ c.
Proof. induction a as [|x a IH]; [reflexivity|]. rewrite !append_cons. congruence. Qed.

Lemma str_app_nil_r (a : string) : a +:+ "" = a.
Proof. induction a as [|x a IH]; [reflexivity|]. rewrite append_cons. congruence. Qed.

(** Two concatenations that are equal and split at the same place have
    equal parts. *)
Lemma str_app_inv (a a' b b' : string) :
  String.length a = String.length a' -> a +:+ b = a' +:+ b' -> a = a' /\ b = b'.
Proof.
  revert a'. induction a as [|c a IH]; intros [|c' a'] Hlen H; try discriminate.
  - split; [reflexivity | exact H].
  - rewrite !append_cons in H. injection H as -> H. simpl in Hlen.
    destruct (IH a') as [-> ->]; [lia | exact H | auto].
Qed.

Lemma str_app_inv_head (a b b' : string) : a +:+ b = a +:+ b' -> b = b'.
Proof. intros H. apply (str_app_inv a a b b'); [reflexivity | exact H]. Qed.

Lemma str_app_inv_tail (a a' b : string) : a +:+ b = a' +:+ b -> a = a'.
Proof.
  intros H. apply (str_app_inv a a' b b); [|exact H].
  apply (f_equal String.length) in H. rewrite !str_length_app in H. lia.
Qed.

Lemma substring_0_app (a b : string) : String.substring 0 (String.length a) (a +:+ b) = a.
Proof.
  induction a as [|c a IH]; simpl.
  - destruct b; reflexivity.
  - rewrite ?append_cons. simpl. rewrite ?append_cons. congruence.
Qed.

Lemma substring_skip_app (a b : string) (n m : nat) :
  String.substring (String.length a + n) m (a +:+ b) = String.substring n m b.
Proof. induction a as [|c a IH]; [reflexivity|]. rewrite append_cons. exact IH. Qed.

Lemma substring_0_all (s : string) (m : nat) :
  (String.length s <= m)%nat -> String.substring 0 m s = s.
Proof.
  revert m. induction s as [|c s IH]; intros m Hm.
  - destruct m; reflexivity.
  - destruct m as [|m]; simpl in *; [lia|]. rewrite IH by lia. reflexivity.
Qed.

Lemma substring_length (n m : nat) (s : string) :
  String.length (String.substring n m s) = Nat.min m (String.length s - n).
Proof.
  revert n m. induction s as [|c s IH]; intros n m.
  - destruct n, m; reflexivity.
  - destruct n as [|n].
    + destruct m as [|m]; simpl; [reflexivity|]. rewrite IH. simpl. lia.
    + simpl. rewrite IH. reflexivity.
Qed.

(** [slice] with both ends inside a concatenation, at the seams. *)
Lemma slice_middle (a t r : string) (i j : Z) :
  i = Z.of_nat (String.length a) ->
  j = Z.of_nat (String.length a + String.length t) ->
  Js.slice (a +:+ t +:+ r) i (Some j) = t.
Proof.
  intros -> ->. unfold Js.slice. rewrite !str_length_app.
  destruct (Z.ltb_spec (Z.of_nat (String.length a)) 0); [lia|].
  destruct (Z.ltb_spec (Z.of_nat (String.length a + String.length t)) 0); [lia|].
  rewrite !Z.min_l by lia.
  replace (Z.to_nat (Z.of_nat (String.length a)))
    with (String.length a + 0)%nat by lia.
  replace (Z.to_nat (Z.of_nat (String.length a + String.length t)
                     - Z.of_nat (String.length a))) with (String.length t) by lia.
  rewrite substring_skip_app. apply substring_0_app.
Qed.

Lemma slice_head (a r : string) (j : Z) :
  j = Z.of_nat (String.length a) -> Js.slice (a +:+ r) 0 (Some j) = a.
Proof. intros ->. apply (slice_middle "" a r); reflexivity. Qed.

Lemma slice_tail (a t : string) (k : Z) :
  k = Z.of_nat (String.length t) -> 0 < k -> Js.slice (a +:+ t) (- k) None = t.
Proof.
  intros -> Hk. unfold Js.slice. rewrite !str_length_app.
  destruct (Z.ltb_spec (- Z.of_nat (String.length t)) 0); [|lia].
  rewrite Z.max_l by lia.
  replace (Z.to_nat (Z.of_nat (String.length a + String.length t)
                     + - Z.of_nat (String.length t)))
    with (String.length a + 0)%nat by lia.
  rewrite substring_skip_app. apply substring_0_all. lia.
Qed.

(** On a string no longer than the window, both [slice(0, n)] and
    [slice(-n)] are the whole string. *)
Lemma slice_short_head (s : string) (n : Z) :
  Z.of_nat (String.length s) <= n -> Js.slice s 0 (Some n) = s.
Proof.
  intros Hn. unfold Js.slice. simpl.
  destruct (Z.ltb_spec n 0); [lia|].
  rewrite Z.min_l by lia. rewrite Z.min_r by lia.
  apply substring_0_all. lia.
Qed.

Lemma slice_short_tail (s : string) (n : Z) :
  0 < n -> Z.of_nat (String.length s) <= n -> Js.slice s (- n) None = s.
Proof.
  intros Hpos Hn. unfold Js.slice.
  destruct (Z.ltb_spec (- n) 0); [|lia].
  rewrite Z.max_r by lia. apply substring_0_all. lia.
Qed.

Lemma slice_length (s : string) (i j : Z) :
  0 <= i <= j ->
  Z.of_nat (String.length (Js.slice s i (Some j)))
  = Z.min j (Z.of_nat (String.length s)) - Z.min i (Z.of_nat (String.length s)).
Proof.
  intros Hij. unfold Js.slice.
  destruct (Z.ltb_spec i 0); [lia|]. destruct (Z.ltb_spec j 0); [lia|].
  rewrite substring_length. lia.
Qed.

Lemma slice_last_20 (a t : string) :
  String.length t = 20%nat -> Js.slice (a +:+ t) (-20) None = t.
Proof. intros H. apply (slice_tail a t 20); [rewrite H; reflexivity | lia]. Qed.

Lemma slice_all_20 (s : string) :
  (String.length s <= 20)%nat -> Js.slice s (-20) None = s.
Proof. intros H. apply (slice_short_tail s 20); lia. Qed.

(** ** [getLogId] and [formatTimestamp] *)

Section Identity.

Variable Date_getTime : string -> option Z.

(** X1.  The identity of an entry looks at the length of the message and
    at its first and last 20 characters only.  Two entries with the same
    timestamp and the same action whose messages have the same length and
    differ only between those two windows have the same identity, so once
    one of them has been processed the other is skipped, whatever its level
    and its metadata are. *)
Theorem X1_getLogId_middle_blind (cfg : Cfg.t) (st st' : Session) (log log' : LogEntry.t)
    (head mid mid' tail : string) (evs : list Event) :
  LogEntry.timestamp log' = LogEntry.timestamp log ->
  Js.or_else (metadataAction log') "" = Js.or_else (metadataAction log) "" ->
  LogEntry.message log = head +:+ mid +:+ tail ->
  LogEntry.message log' = head +:+ mid' +:+ tail ->
  String.length head = 20%nat -> String.length tail = 20%nat ->
  String.length mid = String.length mid' ->
  getLogId log' = getLogId log
  /\ (processEntry Date_getTime cfg st log = (evs, inl st') ->
      processEntry Date_getTime cfg st' log' = ([], inl st')).
Proof.
  intros Hts Hact Hm Hm' Hhead Htail Hmid.
  assert (Hid : getLogId log' = getLogId log).
  { unfold getLogId. rewrite Hts, Hact, Hm, Hm'.
    rewrite !str_length_app, Hmid.
    rewrite !(slice_head head) by (rewrite Hhead; reflexivity).
    rewrite <- !str_app_assoc.
    rewrite !(slice_last_20 _ tail) by exact Htail.
    reflexivity. }
  split; [exact Hid|].
  intros Hrun. apply processEntry_seen. rewrite Hid. eapply processEntry_marks, Hrun.
Qed.

End Identity.

Lemma pretty_length_window :
  forallb (fun n =>
    forallb (fun n' =>
      implb (Nat.eqb (String.length (pretty n) + 2 * n) (String.length (pretty n') + 2 * n'))
            (Nat.eqb n n'))
      (seq 0 21))
    (seq 0 21) = true.
Proof. vm_compute. reflexivity. Qed.

(** X2.  Among entries with the same timestamp and the same action, messages
    of at most 20 characters are told apart: equal identities give equal
    messages. *)
Theorem X2_getLogId_short_messages (log log' : LogEntry.t) :
  LogEntry.timestamp log' = LogEntry.timestamp log ->
  Js.or_else (metadataAction log') "" = Js.or_else (metadataAction log) "" ->
  (String.length (LogEntry.message log) <= 20)%nat ->
  (String.length (LogEntry.message log') <= 20)%nat ->
  getLogId log' = getLogId log ->
  LogEntry.message log' = LogEntry.message log.
Proof.
  unfold getLogId. intros -> -> Hlen Hlen' Hid.
  set (m := LogEntry.message log) in *. set (m' := LogEntry.message log') in *.
  rewrite !slice_short_head, !slice_all_20 in Hid by lia.
  apply str_app_inv_head, str_app_inv_head, str_app_inv_tail in Hid.
  assert (Hn : String.length m' = String.length m).
  { pose proof (f_equal String.length Hid) as Hl. rewrite !str_length_app in Hl.
    pose proof pretty_length_window as Hall.
    rewrite forallb_forall in Hall.
    assert (Hin : In (String.length m') (seq 0 21)) by (apply in_seq; lia).
    specialize (Hall _ Hin). rewrite forallb_forall in Hall.
    assert (Hin' : In (String.length m) (seq 0 21)) by (apply in_seq; lia).
    specialize (Hall _ Hin').
    replace (String.length (pretty (String.length m')) + 2 * String.length m'
             =? String.length (pretty (String.length m)) + 2 * String.length m)%nat
      with true in Hall by (symmetry; apply Nat.eqb_eq; lia).
    simpl in Hall. apply Nat.eqb_eq in Hall. exact Hall. }
  rewrite Hn in Hid. apply str_app_inv_head in Hid.
  apply (str_app_inv m' m m' m); [exact Hn | exact Hid].
Qed.

(** X3.  [formatTimestamp] cuts the characters at positions 11 to 22 out of
    the timestamp: for a timestamp made of an 11-character date part
    followed by a 12-character time, it is that time; it is never longer
    than 12 characters, and it is empty for a timestamp of at most 11
    characters. *)
Theorem X3_formatTimestamp_window :
  (forall date time rest : string,
      String.length date = 11%nat -> String.length time = 12%nat ->
      formatTimestamp (date +:+ time +:+ rest) = time)
  /\ (forall s : string, (String.length (formatTimestamp s) <= 12)%nat)
  /\ (forall s : string, (String.length s <= 11)%nat -> formatTimestamp s = "").
Proof.
  unfold formatTimestamp. split; [|split].
  - intros date time rest Hd Ht. apply slice_middle; rewrite Hd, ?Ht; reflexivity.
  - intros s. pose proof (slice_length s 11 23 ltac:(lia)) as H. lia.
  - intros s Hs. pose proof (slice_length s 11 23 ltac:(lia)) as H.
    destruct (Js.slice s 11 (Some 23)); [reflexivity | simpl in H; lia].
Qed.

(** ** [calculatePhaseDurations] *)

(** The sum of the durations of [phases] in [timings], a phase without a
    duration counting for nothing. *)
Definition totalDuration (timings : gmap string PhaseTiming.t) (phases : list string) : Z :=
  foldr (fun p acc => default 0 (durationOf timings p) + acc) 0 phases.

Section Durations.

Variable Date_getTime : string -> option Z.

Local Abbreviation parse := (parseTimestamp Date_getTime).
Local Abbreviation calc := (calculatePhaseDurations Date_getTime).
Local Abbreviation written := (writtenAt Date_getTime).

Lemma writtenAt_startedAt (phaseTimings : gmap string PhaseTiming.t) (phases : list string)
    (completedAt : option string) (i : nat) (p : string) (t : PhaseTiming.t) :
  written phaseTimings phases completedAt i = Some (p, t) ->
  phases !! i = Some p
  /\ exists t0, phaseTimings !! p = Some t0
                /\ PhaseTiming.startedAt t = PhaseTiming.startedAt t0.
Proof.
  unfold writtenAt. destruct (phases !! i) as [q|]; simpl; [|discriminate].
  destruct (phaseTimings !! q) as [t0|] eqn:Ht0; simpl; [|discriminate].
  intros [= <- <-]. split; [reflexivity|]. exists t0. split; [exact Ht0|].
  destruct (durationUnset (PhaseTiming.durationMs t0)); [|reflexivity].
  destruct (parseTimestamp Date_getTime (PhaseTiming.startedAt t0)); [|reflexivity].
  match goal with |- context [match ?x with Some _ => _ | None => _ end] => destruct x end;
    reflexivity.
Qed.

Lemma writtenAt_is_Some (phaseTimings : gmap string PhaseTiming.t) (phases : list string)
    (completedAt : option string) (i : nat) (p : string) (t0 : PhaseTiming.t) :
  phases !! i = Some p -> phaseTimings !! p = Some t0 ->
  exists t, written phaseTimings phases completedAt i = Some (p, t).
Proof.
  intros Hi Ht0. unfold writtenAt. rewrite Hi. simpl. rewrite Ht0. simpl. eauto.
Qed.

Lemma calculatePhaseDurations_upto_records (phaseTimings : gmap string PhaseTiming.t)
    (phases : list string) (completedAt : option string) (k : nat) (p : string) :
  let result := foldl (phaseDurationStep Date_getTime phaseTimings phases completedAt) ∅
                  (seq 0 k) in
  (forall t, result !! p = Some t ->
     exists i t0, (i < k)%nat /\ phases !! i = Some p /\ phaseTimings !! p = Some t0
                  /\ PhaseTiming.startedAt t = PhaseTiming.startedAt t0)
  /\ (forall i t0, (i < k)%nat -> phases !! i = Some p -> phaseTimings !! p = Some t0 ->
        is_Some (result !! p)).
Proof.
  induction k as [|k [IH1 IH2]]; intros result; subst result.
  - simpl. split; [intros t; rewrite lookup_empty; discriminate | intros; lia].
  - rewrite seq_S, foldl_app. simpl. rewrite phaseDurationStep_written.
    destruct (writtenAt Date_getTime phaseTimings phases completedAt k) as [[q t]|] eqn:Hk.
    + destruct (writtenAt_startedAt _ _ _ _ _ _ Hk) as (Hq & t0 & Ht0 & Hstart).
      destruct (decide (q = p)) as [->|Hne].
      * rewrite lookup_insert_eq. split.
        -- intros t' [= <-]. exists k, t0. repeat split; auto.
        -- intros. eauto.
      * rewrite lookup_insert_ne by exact Hne. split.
        -- intros t' Ht'. destruct (IH1 t' Ht') as (i & t1 & Hi & H). exists i, t1.
           split; [lia | exact H].
        -- intros i t1 Hi Hp Ht1. destruct (decide (i = k)) as [->|Hik]; [congruence|].
           apply (IH2 i t1); [lia | exact Hp | exact Ht1].
    + split.
      * intros t' Ht'. destruct (IH1 t' Ht') as (i & t1 & Hi & H). exists i, t1.
        split; [lia | exact H].
      * intros i t1 Hi Hp Ht1. destruct (decide (i = k)) as [->|Hik].
        -- destruct (writtenAt_is_Some phaseTimings phases completedAt k p t1 Hp Ht1)
             as [t Ht]. congruence.
        -- apply (IH2 i t1); [lia | exact Hp | exact Ht1].
Qed.

Lemma calculatePhaseDurations_records (phaseTimings : gmap string PhaseTiming.t)
    (phases : list string) (completedAt : option string) (p : string) :
  (is_Some (calc phaseTimings phases completedAt !! p)
   <-> p ∈ phases /\ is_Some (phaseTimings !! p))
  /\ (forall t, calc phaseTimings phases completedAt !! p = Some t ->
        exists t0, phaseTimings !! p = Some t0
                   /\ PhaseTiming.startedAt t = PhaseTiming.startedAt t0).
Proof.
  destruct (calculatePhaseDurations_upto_records phaseTimings phases completedAt
              (length phases) p) as [H1 H2].
  unfold calculatePhaseDurations. split; [split|].
  - intros [t Ht]. destruct (H1 t Ht) as (i & t0 & _ & Hi & Ht0 & _).
    split; [eapply list_elem_of_lookup_2, Hi | eauto].
  - intros [Hin [t0 Ht0]]. apply list_elem_of_lookup in Hin as [i Hi].
    apply (H2 i t0); [eapply lookup_lt_Some, Hi | exact Hi | exact Ht0].
  - intros t Ht. destruct (H1 t Ht) as (i & t0 & _ & _ & Ht0 & Hstart). eauto.
Qed.

(** X4.  The object returned by [calculatePhaseDurations] has a record for
    exactly the phases of the list that the tracker has a record for, and
    each record keeps the [startedAt] of the tracker's: the function adds
    durations and nothing else.  No assumption on the phase list. *)
Theorem X4_calculatePhaseDurations_records (phaseTimings : gmap string PhaseTiming.t)
    (phases : list string) (completedAt : option string) (p : string) :
  (is_Some (calc phaseTimings phases completedAt !! p)
   <-> p ∈ phases /\ is_Some (phaseTimings !! p))
  /\ (forall t, calc phaseTimings phases completedAt !! p = Some t ->
        exists t0, phaseTimings !! p = Some t0
                   /\ PhaseTiming.startedAt t = PhaseTiming.startedAt t0).
Proof. apply calculatePhaseDurations_records. Qed.

(** X5.  With no repeated phase, every start readable and a readable end
    boundary, the durations add up to the span from the start of the first
    phase to the end boundary.  [starts] are the instants of the phases, in
    the order of the list. *)
Theorem X5_durations_add_up (phaseTimings : gmap string PhaseTiming.t)
    (phases : list string) (starts : list Z) (c : string) (first e : Z) :
  NoDup phases ->
  Forall2 (fun p t => exists timing,
             phaseTimings !! p = Some timing
             /\ PhaseTiming.durationMs timing = None
             /\ parse (PhaseTiming.startedAt timing) = Some t) phases starts ->
  head starts = Some first ->
  c <> "" -> parse c = Some e ->
  totalDuration (calc phaseTimings phases (Some c)) phases = e - first.
Proof.
  intros Hnodup Hstarts Hfirst Hc He.
  set (Q := fun p t => exists timing,
              phaseTimings !! p = Some timing
              /\ PhaseTiming.durationMs timing = None
              /\ parseTimestamp Date_getTime (PhaseTiming.startedAt timing) = Some t).
  assert (Hfrom : forall ps ss, Forall2 Q ps ss ->
            forall k, drop k phases = ps ->
            match ss with
            | [] => True
            | t :: _ => totalDuration (calculatePhaseDurations Date_getTime phaseTimings
                                         phases (Some c)) ps = e - t
            end).
  { induction 1 as [|p t ps ss (timing & Htiming & Hunset & Hparse) HF IH]; intros k Hdrop;
      [exact I|].
    assert (Hk : phases !! k = Some p).
    { rewrite <- (Nat.add_0_r k), <- lookup_drop, Hdrop. reflexivity. }
    assert (Hdrop' : drop (S k) phases = ps).
    { rewrite (drop_S _ _ _ Hk) in Hdrop. congruence. }
    specialize (IH (S k) Hdrop').
    destruct (phase_duration_rule Date_getTime phaseTimings phases (Some c) k p timing t
                Hnodup Hk Htiming Hunset Hparse) as (Hnext & Hlast & _).
    simpl. destruct HF as [|q t' ps' ss' (next & Hq & _ & Hparse') _].
    - assert (Hlen : S k = length phases).
      { pose proof (lookup_lt_Some _ _ _ Hk). pose proof (length_drop phases (S k)) as Hl.
        rewrite Hdrop' in Hl. simpl in Hl. lia. }
      rewrite (Hlast c e Hlen eq_refl Hc He). simpl. lia.
    - assert (Hk' : phases !! S k = Some q).
      { rewrite <- (Nat.add_0_r (S k)), <- lookup_drop, Hdrop'. reflexivity. }
      rewrite (Hnext q next t' Hk' Hq Hparse'). simpl in IH |- *.
      change (foldr _ 0 ps') with
        (totalDuration (calculatePhaseDurations Date_getTime phaseTimings phases (Some c)) ps').
      fold (totalDuration (calculatePhaseDurations Date_getTime phaseTimings phases (Some c))
              (q :: ps')) in IH.
      unfold totalDuration in IH |- *. simpl in IH. lia. }
  specialize (Hfrom phases starts Hstarts 0%nat eq_refl).
  destruct starts as [|t ss]; [discriminate|]. injection Hfirst as ->. exact Hfrom.
Qed.

(** X7.  A timestamp that does not parse leaves a duration unset and raises
    nothing.  The phase whose own start does not parse has no duration; and
    a phase that is not the last one has no duration when the start of the
    phase after it does not parse, even when an end boundary is supplied. *)
Theorem X7_unreadable_timestamps (phaseTimings : gmap string PhaseTiming.t)
    (phases : list string) (completedAt : option string) (i : nat) (p : string)
    (timing : PhaseTiming.t) :
  NoDup phases -> phases !! i = Some p ->
  phaseTimings !! p = Some timing -> PhaseTiming.durationMs timing = None ->
  (parse (PhaseTiming.startedAt timing) = None ->
   calc phaseTimings phases completedAt !! p = Some timing)
  /\ (forall q next,
         phases !! S i = Some q -> phaseTimings !! q = Some next ->
         parse (PhaseTiming.startedAt next) = None ->
         calc phaseTimings phases completedAt !! p = Some timing).
Proof.
  intros Hnodup Hi Htiming Hunset.
  rewrite (calculatePhaseDurations_lookup _ _ _ _ _ _ Hnodup Hi).
  unfold writtenAt. rewrite Hi. simpl. rewrite Htiming. simpl. rewrite Hunset. simpl.
  split.
  - intros ->. reflexivity.
  - intros q next Hq Hnext Hparse.
    pose proof (lookup_lt_Some _ _ _ Hq) as Hlt.
    replace (i <? length phases - 1)%nat with true by (symmetry; apply Nat.ltb_lt; lia).
    replace (i + 1)%nat with (S i) by lia. rewrite Hq. simpl. rewrite Hnext. simpl.
    rewrite Hparse.
    destruct (parseTimestamp Date_getTime (PhaseTiming.startedAt timing)); reflexivity.
Qed.

End Durations.

(** ** What [pollForCompletion] returns, and what it calls *)

(** The optional properties a result carries, by status. *)
Definition resultShape (r : PollingResult.t) : Prop :=
  match PollingResult.status r with
  | success => PollingResult.errorMessage r = None
  | failed =>
    is_Some (PollingResult.errorMessage r)
    /\ PollingResult.durationMs r = None
    /\ PollingResult.bundleVersion r = None
    /\ PollingResult.deploymentUrl r = None
  | timeout =>
    PollingResult.errorMessage r = None
    /\ PollingResult.durationMs r = None
    /\ PollingResult.bundleVersion r = None
    /\ PollingResult.deploymentUrl r = None
  end.

(** The calls among the events: fetches and sleeps. *)
Definition callsOf (evs : list Event) : list Event :=
  filter (fun e => isCall e = true) evs.

Section Returned.

Variable Date_getTime : string -> option Z.

(** A result is built from the tracker as it stands: its phases, and the
    timings computed from its records with some end boundary or none. *)
Definition builtFrom (st : Session) (r : PollingResult.t) : Prop :=
  PollingResult.phases r = phases st
  /\ (exists completedAt,
        PollingResult.phaseTimings r
        = Some (calculatePhaseDurations Date_getTime (phaseTimings st) (phases st)
                  completedAt))
  /\ resultShape r.

Lemma processEntry_inr (cfg : Cfg.t) (st : Session) (log : LogEntry.t) (evs : list Event)
    (r : PollingResult.t) :
  processEntry Date_getTime cfg st log = (evs, inr r) -> builtFrom st r.
Proof.
  unfold processEntry, builtFrom, resultShape.
  destruct (decide (getLogId log ∈ seenLogIds st)); [discriminate|].
  destruct (String.eqb (Js.toLowerCase (LogEntry.level log)) "error").
  { intros [= _ <-]. simpl. eauto 10. }
  destruct (LogEntry.metadata log) as [metadata|]; [|discriminate].
  destruct (Js.truthy (Metadata.action metadata)) eqn:Hact; simpl; [|discriminate].
  apply truthy_Some in Hact as [action [Hact Hne]]. rewrite Hact. simpl.
  destruct (String.eqb_spec action "report_phase_change_success") as [->|Hother].
  - simpl.
    destruct (Js.truthy (Metadata.details metadata ≫= Details.phase)
              && negb (bool_decide (default "" (Metadata.details metadata ≫= Details.phase)
                                      ∈ seenPhases st))); discriminate.
  - destruct (String.eqb action "pipeline_complete").
    { intros [= _ <-]. simpl. eauto 10. }
    destruct (String.eqb action "pipeline_failed" || String.eqb action "pipeline_error");
      [|discriminate].
    intros [= _ <-]. simpl. eauto 10.
Qed.

Lemma processLogs_inr (cfg : Cfg.t) (logs : list LogEntry.t) :
  forall (st : Session) (evs : list Event) (r : PollingResult.t),
    wf st -> processLogs Date_getTime cfg st logs = (evs, inr r) ->
    exists st', wf st' /\ builtFrom st' r.
Proof.
  induction logs as [|log logs IH]; intros st evs r Hwf; simpl; [discriminate|].
  destruct (processEntry Date_getTime cfg st log) as [evs1 [st1|r1]] eqn:H1.
  - destruct (processLogs Date_getTime cfg st1 logs) as [evs2 r2] eqn:H2.
    intros [= _ ->]. eapply IH; [|exact H2]. eapply processEntry_wf; eauto.
  - intros [= _ <-]. exists st. split; [exact Hwf | eapply processEntry_inr, H1].
Qed.

Lemma pollLoop_returned (cfg : Cfg.t) (entityId runId : string)
    (timeoutMinutes startTime : Z) (ticks : list Tick) :
  forall (st : Session) (evs : list Event) (r : PollingResult.t),
    wf st ->
    pollLoop Date_getTime cfg entityId runId timeoutMinutes startTime st ticks
    = (evs, Returned r) ->
    exists st', wf st' /\ builtFrom st' r.
Proof.
  induction ticks as [|tick ticks IH]; intros st evs r Hwf; simpl; [discriminate|].
  destruct (timeoutMinutes * 60 * 1000 <=? now tick - startTime).
  { intros [= _ <-]. exists st. split; [exact Hwf|].
    unfold builtFrom, resultShape. simpl. eauto 10. }
  destruct (response tick) as [logs|message].
  - destruct (processLogs Date_getTime cfg st logs) as [evs1 [st1|r1]] eqn:H1.
    + destruct (pollLoop Date_getTime cfg entityId runId timeoutMinutes startTime st1 ticks)
        as [evs2 out] eqn:H2.
      intros [= _ ->]. eapply IH; [|exact H2]. eapply processLogs_wf; eauto.
    + intros [= _ <-]. eapply processLogs_inr; eauto.
  - destruct (isPermanentAuthError message).
    + intros [= _ <-]. exists st. split; [exact Hwf|].
      unfold builtFrom, resultShape. simpl. eauto 10.
    + destruct (pollLoop Date_getTime cfg entityId runId timeoutMinutes startTime st ticks)
        as [evs2 out] eqn:H2.
      intros [= _ ->]. eapply IH; eauto.
Qed.

(** X8.  Whatever [pollForCompletion] returns is well formed: no phase
    appears twice; for every name other than [__proto__], which a plain
    object cannot hold as a record of its own, the timings have a record
    exactly when the phase is in the list; a success carries no error
    message, a failure carries one and neither duration nor bundle version
    nor URL, and a timeout carries none of the four. *)
Theorem X8_returned_result_well_formed (startTime : Z) (ticks : list Tick)
    (entityId runId : string) (timeoutMinutes : Z) (config : PollingConfig.t)
    (evs : list Event) (r : PollingResult.t) :
  pollForCompletion Date_getTime startTime ticks entityId runId timeoutMinutes config
  = (evs, Returned r) ->
  NoDup (PollingResult.phases r)
  /\ (exists timings,
        PollingResult.phaseTimings r = Some timings
        /\ forall p, p <> "__proto__" ->
             (is_Some (timings !! p) <-> p ∈ PollingResult.phases r))
  /\ resultShape r.
Proof.
  unfold pollForCompletion.
  destruct (pollLoop Date_getTime (mergeConfig config) entityId runId timeoutMinutes
              startTime newSession ticks) as [evs0 out] eqn:Hloop.
  intros [= _ ->].
  destruct (pollLoop_returned _ _ _ _ _ _ _ _ _ wf_newSession Hloop)
    as (st & Hwf & Hphases & (completedAt & Htimings) & Hshape).
  split; [rewrite Hphases; apply (wf_nodup _ Hwf)|]. split; [|exact Hshape].
  eexists. split; [exact Htimings|]. intros p _.
  rewrite (proj1 (calculatePhaseDurations_records Date_getTime
                    (phaseTimings st) (phases st) completedAt p)).
  rewrite Hphases, <- (wf_timed _ Hwf). tauto.
Qed.

End Returned.

Section Calls.

Variable Date_getTime : string -> option Z.
Variables (cfg : Cfg.t) (entityId runId : string).

Local Abbreviation fetch := (call_getPolicyLogs entityId runId (Cfg.logLimit cfg)).
Local Abbreviation pause := (call_sleep (Cfg.pollDelayMs cfg)).

(** [n] full turns: a fetch, then a sleep of the configured delay. *)
Fixpoint turns (n : nat) : list Event :=
  match n with
  | O => []
  | S n' => fetch :: pause :: turns n'
  end.

Lemma callsOf_app (evs evs' : list Event) :
  callsOf (evs ++ evs') = callsOf evs ++ callsOf evs'.
Proof. apply filter_app. Qed.

Lemma callsOf_none (evs : list Event) :
  Forall (fun e => isCall e = false) evs -> callsOf evs = [].
Proof.
  unfold callsOf. induction 1 as [|e evs He _ IH]; [reflexivity|].
  rewrite filter_cons_False by congruence. exact IH.
Qed.

Lemma processLogs_no_call (logs : list LogEntry.t) :
  forall st : Session,
    Forall (fun e => isCall e = false) (fst (processLogs Date_getTime cfg st logs)).
Proof.
  induction logs as [|log logs IH]; intros st; simpl; [constructor|].
  pose proof (processEntry_no_call Date_getTime cfg st log) as H1.
  destruct (processEntry Date_getTime cfg st log) as [evs1 [st1|r1]]; [|exact H1].
  specialize (IH st1). destruct (processLogs Date_getTime cfg st1 logs) as [evs2 r2].
  simpl in *. apply Forall_app_2; assumption.
Qed.

Lemma pollLoop_calls (timeoutMinutes startTime : Z) (ticks : list Tick) :
  forall (st : Session),
    exists n last,
      callsOf (fst (pollLoop Date_getTime cfg entityId runId timeoutMinutes startTime st ticks))
      = turns n ++ last
      /\ (last = [] \/ last = [fetch])
      /\ (n + length last <= length ticks)%nat
      /\ (forall st',
             snd (pollLoop Date_getTime cfg entityId runId timeoutMinutes startTime st ticks)
             = Polling st' -> last = [] /\ n = length ticks).
Proof.
  induction ticks as [|tick ticks IH]; intros st; simpl.
  { exists 0%nat, []. simpl. auto. }
  destruct (timeoutMinutes * 60 * 1000 <=? now tick - startTime).
  { exists 0%nat, []. simpl. repeat split; auto; try lia; discriminate. }
  destruct (response tick) as [logs|message].
  - pose proof (processLogs_no_call logs st) as Hlines.
    destruct (processLogs Date_getTime cfg st logs) as [evs1 [st1|r1]]; simpl in Hlines.
    + destruct (IH st1) as (n & last & Hcalls & Hlast & Hlen & Hpolling).
      destruct (pollLoop Date_getTime cfg entityId runId timeoutMinutes startTime st1 ticks)
        as [evs2 out].
      simpl in *. exists (S n), last.
      change (fetch :: evs1 ++ pause :: evs2) with ([fetch] ++ evs1 ++ [pause] ++ evs2).
      rewrite !callsOf_app, (callsOf_none evs1 Hlines), Hcalls.
      split; [reflexivity|]. split; [exact Hlast|]. split; [lia|].
      intros st' Hout. destruct (Hpolling st' Hout) as [-> ->]. auto.
    + exists 0%nat, [fetch]. simpl.
      change (fetch :: evs1) with ([fetch] ++ evs1).
      rewrite callsOf_app, (callsOf_none evs1 Hlines).
      repeat split; auto; try lia; discriminate.
  - destruct (isPermanentAuthError message).
    + exists 0%nat, [fetch]. simpl. repeat split; auto; try lia; discriminate.
    + destruct (IH st) as (n & last & Hcalls & Hlast & Hlen & Hpolling).
      destruct (pollLoop Date_getTime cfg entityId runId timeoutMinutes startTime st ticks)
        as [evs2 out].
      simpl in *. exists (S n), last.
      change (fetch :: core_warning (FetchFailed message) :: pause :: evs2)
        with ([fetch] ++ [core_warning (FetchFailed message)] ++ [pause] ++ evs2).
      rewrite !callsOf_app, Hcalls.
      split; [reflexivity|]. split; [exact Hlast|]. split; [lia|].
      intros st' Hout. destruct (Hpolling st' Hout) as [-> ->]. auto.
Qed.

End Calls.

(** X9.  The calls of [pollForCompletion] are fetches and sleeps in strict
    alternation, starting with a fetch: [n] times a fetch followed by a
    sleep, then at most one more fetch, the one whose answer ended the
    session.  Every fetch has the same arguments and every sleep is the
    configured [pollDelayMs]; there is never more than one fetch per turn,
    and a call that is still polling has fetched and slept once in every
    turn. *)
Theorem X9_fetch_sleep_alternation (Date_getTime : string -> option Z) (startTime : Z)
    (ticks : list Tick) (entityId runId : string) (timeoutMinutes : Z)
    (config : PollingConfig.t) :
  let run := pollForCompletion Date_getTime startTime ticks entityId runId timeoutMinutes
               config in
  let fetch := call_getPolicyLogs entityId runId (Cfg.logLimit (mergeConfig config)) in
  exists n last,
    callsOf (fst run) = turns (mergeConfig config) entityId runId n ++ last
    /\ (last = [] \/ last = [fetch])
    /\ (n + length last <= length ticks)%nat
    /\ (forall st, snd run = Polling st -> last = [] /\ n = length ticks).
Proof.
  intros run fetch. subst run fetch. unfold pollForCompletion.
  destruct (pollLoop_calls Date_getTime (mergeConfig config) entityId runId timeoutMinutes
              startTime ticks newSession) as (n & last & Hcalls & Hlast & Hlen & Hpolling).
  destruct (pollLoop Date_getTime (mergeConfig config) entityId runId timeoutMinutes
              startTime newSession ticks) as [evs out].
  simpl in *. exists n, last. auto.
Qed.

(** ** The tail of [run] *)

Lemma or_else_nonempty (o : option string) (d : string) : d <> "" -> Js.or_else o d <> "".
Proof.
  intros Hd. destruct o as [s|]; simpl; [|exact Hd].
  destruct (String.eqb_spec s ""); [exact Hd | assumption].
Qed.

(** X12.  [run] marks the action as failed exactly when the result is not a
    success.  When it does, [core.setFailed] is the last thing written and
    its message is ["Deployment failed: "] followed by a text that is never
    empty: the error message of the result, or the stock text when the
    result has none or an empty one, as every timeout has. *)
Theorem X12_setFailed_iff_not_success (wallSeconds : Z) (result : PollingResult.t) :
  (PollingResult.status result <> success ->
   exists detail,
     last (reportResult wallSeconds result)
     = Some (setFailed ("Deployment failed: " +:+ detail))
     /\ detail <> ""
     /\ (PollingResult.errorMessage result = Some detail \/ detail = NO_ERROR_MESSAGE))
  /\ (PollingResult.status result = success ->
      forall message, setFailed message ∉ reportResult wallSeconds result).
Proof.
  unfold reportResult, isFailed. split.
  - intros Hstatus.
    exists (Js.or_else (PollingResult.errorMessage result) NO_ERROR_MESSAGE).
    split; [|split].
    + destruct (PollingResult.status result); [contradiction| |];
        simpl; destruct (Js.truthy (PollingResult.bundleVersion result)),
                        (Js.truthy (PollingResult.deploymentUrl result)); reflexivity.
    + apply or_else_nonempty. discriminate.
    + destruct (PollingResult.errorMessage result) as [m|]; simpl; [|auto].
      destruct (String.eqb m ""); auto.
  - intros -> message. simpl.
    destruct (Js.truthy (PollingResult.bundleVersion result)),
             (Js.truthy (PollingResult.deploymentUrl result)); simpl;
      rewrite ?not_elem_of_cons; repeat split; try discriminate; apply not_elem_of_nil.
Qed.

(** ** What ends a session, and when *)

Section Causes.

Variable Date_getTime : string -> option Z.

(** What an entry that yields a result looks like, by the status of the
    result. *)
Lemma processEntry_inr_cause (cfg : Cfg.t) (st : Session) (log : LogEntry.t)
    (evs : list Event) (r : PollingResult.t) :
  processEntry Date_getTime cfg st log = (evs, inr r) ->
  (getLogId log ∉ seenLogIds st)
  /\ match PollingResult.status r with
     | success => isErrorLevel log = false /\ hasAction log "pipeline_complete"
     | failed =>
       isErrorLevel log = true
       \/ hasAction log "pipeline_failed" \/ hasAction log "pipeline_error"
     | timeout => False
     end.
Proof.
  unfold processEntry, isErrorLevel, hasAction, metadataAction.
  destruct (decide (getLogId log ∈ seenLogIds st)) as [|Hnew]; [discriminate|].
  destruct (String.eqb (Js.toLowerCase (LogEntry.level log)) "error").
  { intros [= _ <-]. simpl. auto. }
  destruct (LogEntry.metadata log) as [metadata|]; [|discriminate].
  destruct (Js.truthy (Metadata.action metadata)) eqn:Hact; simpl; [|discriminate].
  apply truthy_Some in Hact as [action [Hact Hne]]. rewrite Hact. simpl.
  destruct (String.eqb_spec action "report_phase_change_success") as [->|Hother].
  - simpl.
    destruct (Js.truthy (Metadata.details metadata ≫= Details.phase)
              && negb (bool_decide (default "" (Metadata.details metadata ≫= Details.phase)
                                      ∈ seenPhases st))); discriminate.
  - destruct (String.eqb_spec action "pipeline_complete") as [->|Hnc].
    { intros [= _ <-]. simpl. auto. }
    destruct (String.eqb_spec action "pipeline_failed") as [->|Hnf].
    { intros [= _ <-]. simpl. auto. }
    destruct (String.eqb_spec action "pipeline_error") as [->|Hne'].
    { intros [= _ <-]. simpl. auto. }
    discriminate.
Qed.

(** X10.  An entry ends the session if and only if it is new and terminal:
    ERROR-level, or carrying [pipeline_complete], [pipeline_failed] or
    [pipeline_error].  No other entry ever does, whatever its content. *)
Theorem X10_terminal_iff (cfg : Cfg.t) (st : Session) (log : LogEntry.t) :
  (exists evs r, processEntry Date_getTime cfg st log = (evs, inr r))
  <-> (getLogId log ∉ seenLogIds st) /\ isTerminal log.
Proof.
  split.
  - intros (evs & r & Hrun).
    destruct (processEntry_inr_cause cfg st log evs r Hrun) as [Hnew Hcause].
    split; [exact Hnew|]. unfold isTerminal.
    destruct (PollingResult.status r).
    + tauto.
    + destruct Hcause as [Hlevel | Hact]; [|tauto].
      left. apply String.eqb_eq. exact Hlevel.
    + contradiction.
  - intros [Hnew Hterm]. apply processEntry_terminal; assumption.
Qed.

Lemma processLogs_inr_cause (cfg : Cfg.t) (logs : list LogEntry.t) :
  forall (st : Session) (evs : list Event) (r : PollingResult.t),
    processLogs Date_getTime cfg st logs = (evs, inr r) ->
    exists log, log ∈ logs
      /\ match PollingResult.status r with
         | success => isErrorLevel log = false /\ hasAction log "pipeline_complete"
         | failed =>
           isErrorLevel log = true
           \/ hasAction log "pipeline_failed" \/ hasAction log "pipeline_error"
         | timeout => False
         end.
Proof.
  induction logs as [|log logs IH]; intros st evs r; simpl; [discriminate|].
  destruct (processEntry Date_getTime cfg st log) as [evs1 [st1|r1]] eqn:H1.
  - destruct (processLogs Date_getTime cfg st1 logs) as [evs2 r2] eqn:H2.
    intros [= _ ->]. destruct (IH _ _ _ H2) as (log' & Hin & Hcause).
    exists log'. split; [right; exact Hin | exact Hcause].
  - intros [= _ <-]. exists log. split; [left|].
    eapply processEntry_inr_cause, H1.
Qed.

(** X11.  Every result has its cause in the script.  A [success] comes from
    a fetched entry that carries [pipeline_complete] and is not ERROR-level;
    a [timeout] from a turn whose clock shows the timeout reached; a
    [failed] from a fetched entry that is ERROR-level or carries
    [pipeline_failed] or [pipeline_error], or from a fetch that threw with
    an authorization marker in its message. *)
Theorem X11_result_has_cause (cfg : Cfg.t) (entityId runId : string)
    (timeoutMinutes startTime : Z) (ticks : list Tick) :
  forall (st : Session) (evs : list Event) (r : PollingResult.t),
    pollLoop Date_getTime cfg entityId runId timeoutMinutes startTime st ticks
    = (evs, Returned r) ->
    exists tick, tick ∈ ticks
      /\ match PollingResult.status r with
         | success =>
           exists logs log, response tick = Fetched logs /\ log ∈ logs
             /\ isErrorLevel log = false /\ hasAction log "pipeline_complete"
         | timeout => timeoutMinutes * 60 * 1000 <= now tick - startTime
         | failed =>
           (exists logs log, response tick = Fetched logs /\ log ∈ logs
              /\ (isErrorLevel log = true
                  \/ hasAction log "pipeline_failed" \/ hasAction log "pipeline_error"))
           \/ (exists message, response tick = FetchThrew message
                 /\ isPermanentAuthError message = true)
         end.
Proof.
  induction ticks as [|tick ticks IH]; intros st evs r; simpl; [discriminate|].
  destruct (Z.leb_spec (timeoutMinutes * 60 * 1000) (now tick - startTime)) as [Hlate|_].
  { intros [= _ <-]. exists tick. split; [left | exact Hlate]. }
  destruct (response tick) as [logs|message] eqn:Hresp.
  - destruct (processLogs Date_getTime cfg st logs) as [evs1 [st1|r1]] eqn:H1.
    + destruct (pollLoop Date_getTime cfg entityId runId timeoutMinutes startTime st1 ticks)
        as [evs2 out] eqn:H2.
      intros [= _ ->]. destruct (IH _ _ _ H2) as (tick' & Hin & Hcause).
      exists tick'. split; [right; exact Hin | exact Hcause].
    + intros [= _ <-]. destruct (processLogs_inr_cause _ _ _ _ _ H1) as (log & Hin & Hcause).
      exists tick. split; [left|]. rewrite Hresp.
      destruct (PollingResult.status r1); [| |contradiction].
      * exists logs, log. tauto.
      * left. exists logs, log. tauto.
  - destruct (isPermanentAuthError message) eqn:Hperm.
    + intros [= _ <-]. exists tick. split; [left|]. simpl. right.
      exists message. rewrite Hresp. auto.
    + destruct (pollLoop Date_getTime cfg entityId runId timeoutMinutes startTime st ticks)
        as [evs2 out] eqn:H2.
      intros [= _ ->]. destruct (IH _ _ _ H2) as (tick' & Hin & Hcause).
      exists tick'. split; [right; exact Hin | exact Hcause].
Qed.

Lemma fetchCalls_app (evs evs' : list Event) :
  fetchCalls (evs ++ evs') = (fetchCalls evs + fetchCalls evs')%nat.
Proof. induction evs as [|e evs IH]; simpl; [reflexivity|]. rewrite IH. lia. Qed.

Lemma fetchCalls_callsOf (evs : list Event) : fetchCalls (callsOf evs) = fetchCalls evs.
Proof.
  unfold callsOf. induction evs as [|e evs IH]; [reflexivity|].
  rewrite filter_cons. destruct (decide (isCall e = true)) as [H|H]; simpl.
  - rewrite IH. reflexivity.
  - rewrite IH. destruct e; simpl in *; congruence.
Qed.

Lemma fetchCalls_turns (cfg : Cfg.t) (entityId runId : string) (n : nat) :
  fetchCalls (turns cfg entityId runId n) = n.
Proof. induction n as [|n IH]; simpl; [reflexivity|]. rewrite IH. reflexivity. Qed.

(** X13.  The deadline is honoured turn by turn.  If the clock of a turn
    shows the timeout reached, the call has returned by that turn, without
    fetching in it: the number of fetches is at most the number of turns
    before it. *)
Theorem X13_no_fetch_past_deadline (startTime : Z) (pre : list Tick) (tick : Tick)
    (rest : list Tick) (entityId runId : string) (timeoutMinutes : Z)
    (config : PollingConfig.t) :
  timeoutMinutes * 60 * 1000 <= now tick - startTime ->
  exists evs r,
    pollForCompletion Date_getTime startTime (pre ++ tick :: rest) entityId runId
      timeoutMinutes config = (evs, Returned r)
    /\ (fetchCalls evs <= length pre)%nat.
Proof.
  intros Hlate. unfold pollForCompletion. rewrite pollLoop_app.
  destruct (pollLoop_calls Date_getTime (mergeConfig config) entityId runId timeoutMinutes
              startTime pre newSession) as (n & last & Hcalls & Hlast & Hlen & Hpolling).
  pose proof (pollLoop_never_throws Date_getTime (mergeConfig config) entityId runId
                timeoutMinutes startTime pre newSession) as Hnothrow.
  destruct (pollLoop Date_getTime (mergeConfig config) entityId runId timeoutMinutes
              startTime newSession pre) as [evs0 [r|m|st]]; simpl in *.
  - eexists _, r. split; [reflexivity|]. simpl.
    rewrite <- fetchCalls_callsOf, Hcalls, fetchCalls_app, fetchCalls_turns.
    destruct Hlast as [-> | ->]; simpl in *; lia.
  - exfalso. apply (Hnothrow m). reflexivity.
  - destruct (Z.leb_spec (timeoutMinutes * 60 * 1000) (now tick - startTime)); [|lia].
    eexists _, _. split; [reflexivity|]. simpl.
    rewrite fetchCalls_app. simpl.
    rewrite <- fetchCalls_callsOf, Hcalls, fetchCalls_app, fetchCalls_turns.
    destruct (Hpolling st eq_refl) as [-> ->]. simpl. lia.
Qed.

End Causes.

(** ** The revision in [src/polling.ts] *)

(** [log] with its level replaced. *)
Definition withLevel (level : string) (log : LogEntry.t) : LogEntry.t :=
  LogEntry.mk (LogEntry.timestamp log) level (LogEntry.message log) (LogEntry.metadata log).

(** A turn with the level of every fetched entry replaced by [relevel]. *)
Definition relevelTick (relevel : LogEntry.t -> string) (tick : Tick) : Tick :=
  match response tick with
  | Fetched logs => mkTick (now tick) (Fetched ((fun log => withLevel (relevel log) log) <$> logs))
  | FetchThrew _ => tick
  end.

Lemma PollingTs_processEntry_level (cfg : Cfg.t) (st : PollingTs.Session) (log : LogEntry.t)
    (level : string) :
  snd (PollingTs.processEntry cfg st (withLevel level log))
  = snd (PollingTs.processEntry cfg st log).
Proof.
  unfold PollingTs.processEntry, withLevel, getLogId, metadataAction. simpl.
  destruct (decide (_ ∈ PollingTs.seenLogIds st)); [reflexivity|].
  destruct (LogEntry.metadata log) as [metadata|]; [|reflexivity].
  destruct (negb (Js.truthy (Metadata.action metadata))); [reflexivity|].
  destruct (String.eqb (default "" (Metadata.action metadata)) "report_phase_change_success");
    [destruct (Js.truthy (Metadata.details metadata ≫= Details.phase)
               && negb (bool_decide
                          (default "" (Metadata.details metadata ≫= Details.phase)
                             ∈ PollingTs.seenPhases st)))|];
    cbv beta iota zeta;
    repeat match goal with
           | |- context [if ?b then _ else _] => destruct b
           end; reflexivity.
Qed.

Lemma PollingTs_processLogs_level (cfg : Cfg.t) (relevel : LogEntry.t -> string)
    (logs : list LogEntry.t) :
  forall st : PollingTs.Session,
    snd (PollingTs.processLogs cfg st ((fun log => withLevel (relevel log) log) <$> logs))
    = snd (PollingTs.processLogs cfg st logs).
Proof.
  induction logs as [|log logs IH]; intros st; [reflexivity|].
  rewrite fmap_cons. simpl.
  pose proof (PollingTs_processEntry_level cfg st log (relevel log)) as H1.
  destruct (PollingTs.processEntry cfg st (withLevel (relevel log) log)) as [evs1 r1],
           (PollingTs.processEntry cfg st log) as [evs2 r2].
  simpl in H1. subst r2. destruct r1 as [st'|result]; [|reflexivity].
  specialize (IH st').
  destruct (PollingTs.processLogs cfg st' _) as [evs1' r1'],
           (PollingTs.processLogs cfg st' logs) as [evs2' r2'].
  exact IH.
Qed.

(** X14.  In [src/polling.ts] the level of an entry has no part in any
    decision: a run in which the levels of the fetched entries are replaced
    at will ends with the same result or, if the script runs out, in the
    same session state.  In particular an ERROR-level entry does not end
    the session there. *)
Theorem X14_PollingTs_level_blind (cfg : Cfg.t) (entityId runId : string)
    (timeoutMinutes startTime : Z) (relevel : LogEntry.t -> string) (ticks : list Tick) :
  forall st : PollingTs.Session,
    snd (PollingTs.pollLoop cfg entityId runId timeoutMinutes startTime st
           (relevelTick relevel <$> ticks))
    = snd (PollingTs.pollLoop cfg entityId runId timeoutMinutes startTime st ticks).
Proof.
  induction ticks as [|tick ticks IH]; intros st; [reflexivity|].
  rewrite fmap_cons. destruct tick as [t [logs|message]]; unfold relevelTick; simpl.
  - destruct (timeoutMinutes * 60 * 1000 <=? t - startTime); [reflexivity|].
    pose proof (PollingTs_processLogs_level cfg relevel logs st) as H1.
    destruct (PollingTs.processLogs cfg st _) as [evs1 r1],
             (PollingTs.processLogs cfg st logs) as [evs2 r2].
    simpl in H1. subst r2. destruct r1 as [st'|result]; [|reflexivity].
    specialize (IH st').
    destruct (PollingTs.pollLoop cfg entityId runId timeoutMinutes startTime st' _)
      as [evs1' o1],
      (PollingTs.pollLoop cfg entityId runId timeoutMinutes startTime st' ticks)
      as [evs2' o2].
    exact IH.
  - destruct (timeoutMinutes * 60 * 1000 <=? t - startTime); [reflexivity|].
    specialize (IH st).
    destruct (PollingTs.pollLoop cfg entityId runId timeoutMinutes startTime st _)
      as [evs1' o1],
      (PollingTs.pollLoop cfg entityId runId timeoutMinutes startTime st ticks)
      as [evs2' o2].
    exact IH.
Qed.

(** X15.  In [src/polling.ts] no fetch failure ends the session, whatever
    its message: over turns that all come before the deadline and whose
    fetches all throw, the call is still polling at the end, in the state
    it started from, after one fetch in every turn. *)
Theorem X15_PollingTs_fetch_failures_never_end (cfg : Cfg.t) (entityId runId : string)
    (timeoutMinutes startTime : Z) (st : PollingTs.Session) (ticks : list Tick) :
  Forall (fun tick => now tick - startTime < timeoutMinutes * 60 * 1000
                      /\ exists message, response tick = FetchThrew message) ticks ->
  snd (PollingTs.pollLoop cfg entityId runId timeoutMinutes startTime st ticks) = Polling st
  /\ fetchCalls (fst (PollingTs.pollLoop cfg entityId runId timeoutMinutes startTime st ticks))
     = length ticks.
Proof.
  induction 1 as [|tick ticks (Hearly & message & Hresp) _ [IH1 IH2]]; [auto|].
  simpl. destruct (Z.leb_spec (timeoutMinutes * 60 * 1000) (now tick - startTime)); [lia|].
  rewrite Hresp.
  destruct (PollingTs.pollLoop cfg entityId runId timeoutMinutes startTime st ticks)
    as [evs out].
  simpl in *. auto.
Qed.

(** X16.  In [src/polling.ts], as in the current revision, the verbosity
    decides nothing: two calls that differ only in [logVerbosity] end in the
    same way and write the same events apart from [core.info] lines. *)
Theorem X16_PollingTs_verbosity (startTime : Z) (ticks : list Tick)
    (entityId runId : string) (timeoutMinutes : Z) (pollDelayMs logLimit : option Z)
    (v1 v2 : option LogVerbosity) :
  let run v :=
    PollingTs.pollForCompletion startTime ticks entityId runId timeoutMinutes
      (PollingConfig.mk pollDelayMs logLimit v) in
  snd (run v1) = snd (run v2)
  /\ withoutInfo (fst (run v1)) = withoutInfo (fst (run v2)).
Proof. apply PollingTs_verbosity_decides_nothing. Qed.

(** ** The first log-based revision *)

Lemma substring_0_app_l (n : nat) (a b : string) :
  (n <= String.length a)%nat -> String.substring 0 n (a +:+ b) = String.substring 0 n a.
Proof.
  revert n. induction a as [|c a IH]; intros n Hn.
  - simpl in Hn. assert (n = 0%nat) as -> by lia. destruct b; reflexivity.
  - rewrite append_cons. destruct n as [|n]; [reflexivity|].
    simpl in *. rewrite IH by lia. reflexivity.
Qed.

Lemma slice_head_of_app (a b : string) (n : nat) :
  (n <= String.length a)%nat ->
  Js.slice (a +:+ b) 0 (Some (Z.of_nat n)) = Js.slice a 0 (Some (Z.of_nat n)).
Proof.
  intros Hn. unfold Js.slice. rewrite str_length_app. simpl.
  destruct (Z.ltb_spec (Z.of_nat n) 0); [lia|].
  rewrite !Z.min_l by lia. rewrite !Z.sub_0_r, !Nat2Z.id. apply substring_0_app_l, Hn.
Qed.

Lemma Throwing_processEntry_marks (st st' : PollingTs.Session) (log : LogEntry.t)
    (evs : list Event) :
  Throwing.processEntry st log = (evs, inl st') ->
  Throwing.getLogId log ∈ PollingTs.seenLogIds st'.
Proof.
  unfold Throwing.processEntry.
  destruct (decide (Throwing.getLogId log ∈ PollingTs.seenLogIds st)) as [Hin|Hnew].
  { intros [= <- <-]. exact Hin. }
  destruct (LogEntry.metadata log) as [metadata|]; [|intros [= _ <-]; simpl; set_solver].
  destruct (negb (Js.truthy (Metadata.action metadata))); [intros [= _ <-]; simpl; set_solver|].
  destruct (String.eqb (default "" (Metadata.action metadata)) "report_phase_change_success");
    [destruct (Js.truthy (Metadata.details metadata ≫= Details.phase)
               && negb (bool_decide
                          (default "" (Metadata.details metadata ≫= Details.phase)
                             ∈ PollingTs.seenPhases st)))|];
    cbv beta iota zeta;
    (destruct (String.eqb (default "" (Metadata.action metadata)) "pipeline_complete");
     [discriminate|]);
    (destruct (String.eqb (default "" (Metadata.action metadata)) "pipeline_failed"
               || String.eqb (default "" (Metadata.action metadata)) "pipeline_error");
     [discriminate|]);
    intros [= _ <-]; simpl; set_solver.
Qed.

(** X17.  In the first log-based revision the identity of an entry is its
    timestamp and the first 50 characters of its message, nothing else.
    Two entries with the same timestamp whose messages are equal, or agree
    on a common beginning of at least 50 characters, have the same
    identity, so once one has been processed the other is skipped, a
    [pipeline_complete] or [pipeline_failed] entry included. *)
Theorem X17_Throwing_identity (st st' : PollingTs.Session) (log log' : LogEntry.t)
    (head rest rest' : string) (evs : list Event) :
  LogEntry.timestamp log' = LogEntry.timestamp log ->
  LogEntry.message log = head +:+ rest ->
  LogEntry.message log' = head +:+ rest' ->
  (50 <= String.length head)%nat \/ rest' = rest ->
  Throwing.getLogId log' = Throwing.getLogId log
  /\ (Throwing.processEntry st log = (evs, inl st') ->
      Throwing.processEntry st' log' = ([], inl st')).
Proof.
  intros Hts Hm Hm' Hhead.
  assert (Hid : Throwing.getLogId log' = Throwing.getLogId log).
  { unfold Throwing.getLogId. rewrite Hts, Hm, Hm'. f_equal. f_equal.
    destruct Hhead as [Hlen | ->]; [|reflexivity].
    rewrite !(slice_head_of_app head _ 50) by exact Hlen. reflexivity. }
  split; [exact Hid|].
  intros Hrun. apply Throwing_processEntry_marks in Hrun.
  unfold Throwing.processEntry. rewrite Hid. rewrite decide_True by exact Hrun. reflexivity.
Qed.

Lemma Throwing_processEntry_status (st : PollingTs.Session) (log : LogEntry.t)
    (evs : list Event) (r : PollingResult.t) :
  Throwing.processEntry st log = (evs, inr r) -> PollingResult.status r <> timeout.
Proof.
  unfold Throwing.processEntry.
  destruct (decide (Throwing.getLogId log ∈ PollingTs.seenLogIds st)); [discriminate|].
  destruct (LogEntry.metadata log) as [metadata|]; [|discriminate].
  destruct (negb (Js.truthy (Metadata.action metadata))); [discriminate|].
  destruct (String.eqb (default "" (Metadata.action metadata)) "report_phase_change_success");
    [destruct (Js.truthy (Metadata.details metadata ≫= Details.phase)
               && negb (bool_decide
                          (default "" (Metadata.details metadata ≫= Details.phase)
                             ∈ PollingTs.seenPhases st)))|];
    cbv beta iota zeta;
    (destruct (String.eqb (default "" (Metadata.action metadata)) "pipeline_complete");
     [intros [= _ <-]; discriminate|]);
    (destruct (String.eqb (default "" (Metadata.action metadata)) "pipeline_failed"
               || String.eqb (default "" (Metadata.action metadata)) "pipeline_error");
     [intros [= _ <-]; discriminate | discriminate]).
Qed.

(** X18.  The first log-based revision never returns a [timeout] result.
    When the clock of a turn shows the timeout reached it throws, with the
    phases seen so far in the message and nothing written; whatever it
    returns has status [success] or [failed]. *)
Theorem X18_Throwing_timeout (config : Throwing.Config) (entityId runId : string)
    (timeoutMinutes startTime : Z) (ticks : list Tick) :
  forall st : PollingTs.Session,
    (forall tick rest,
        ticks = tick :: rest ->
        timeoutMinutes * 60 * 1000 <= now tick - startTime ->
        Throwing.pollLoop config entityId runId timeoutMinutes startTime st ticks
        = ([], Threw (TimedOut timeoutMinutes (PollingTs.phases st))))
    /\ (forall evs r,
           Throwing.pollLoop config entityId runId timeoutMinutes startTime st ticks
           = (evs, Returned r) ->
           PollingResult.status r <> timeout).
Proof.
  induction ticks as [|tick ticks IH]; intros st.
  { split; [discriminate | simpl; discriminate]. }
  split.
  - intros tick' rest [= <- <-] Hlate. apply Throwing_timeout_throws, Hlate.
  - simpl. intros evs r.
    destruct (timeoutMinutes * 60 * 1000 <=? now tick - startTime); [discriminate|].
    destruct (response tick) as [logs|message].
    + assert (Hlogs : forall st0 evs0 r0,
                 Throwing.processLogs st0 logs = (evs0, inr r0) ->
                 PollingResult.status r0 <> timeout).
      { clear. induction logs as [|log logs IHl]; intros st0 evs0 r0; simpl; [discriminate|].
        destruct (Throwing.processEntry st0 log) as [evs1 [st1|r1]] eqn:H1.
        - destruct (Throwing.processLogs st1 logs) as [evs2 r2] eqn:H2.
          intros [= _ ->]. eapply IHl, H2.
        - intros [= _ <-]. eapply Throwing_processEntry_status, H1. }
      destruct (Throwing.processLogs st logs) as [evs1 [st1|r1]] eqn:H1.
      * destruct (Throwing.pollLoop config entityId runId timeoutMinutes startTime st1 ticks)
          as [evs2 out] eqn:H2.
        intros [= _ ->]. eapply (proj2 (IH st1)), H2.
      * intros [= _ <-]. eapply Hlogs, H1.
    + destruct (Throwing.pollLoop config entityId runId timeoutMinutes startTime st ticks)
        as [evs2 out] eqn:H2.
      intros [= _ ->]. eapply (proj2 (IH st)), H2.
Qed.

(** ** [main.ts]: inputs

    [parseInt(s, 10)]: leading white space is skipped, then an optional
    sign, then the longest run of decimal digits is read; without a digit
    the result is [NaN], here [None].  The digits are read exactly; a
    double differs from the exact value only beyond 2^53, far above every
    bound the code compares with. *)

Module Number.

Definition isWhiteSpace (c : ascii) : bool :=
  let n := nat_of_ascii c in
  (Nat.leb 9 n && Nat.leb n 13) || Nat.eqb n 32 || Nat.eqb n 160.

Fixpoint trimStart (s : string) : string :=
  match s with
  | EmptyString => EmptyString
  | String c s' => if isWhiteSpace c then trimStart s' else s
  end.

(** The value of the longest run of digits at the start of [s], read after
    the digits whose value is [acc]. *)
Fixpoint digitsValue (acc : Z) (s : string) : Z :=
  match s with
  | EmptyString => acc
  | String c s' =>
    match digitOf c with
    | Some d => digitsValue (10 * acc + d) s'
    | None => acc
    end
  end.

Definition startsWithDigit (s : string) : bool :=
  match s with
  | String c _ => bool_decide (is_Some (digitOf c))
  | EmptyString => false
  end.

Definition parseInt (s : string) : option Z :=
  let trimmed := trimStart s in
  let '(sign, digits) :=
    match trimmed with
    | String "-"%char rest => (-1, rest)
    | String "+"%char rest => (1, rest)
    | _ => (1, trimmed)
    end in
  if startsWithDigit digits then Some (sign * digitsValue 0 digits) else None.

(** [a < b] and [a > b] for a number [a] that may be [NaN]. *)
Definition lt (a : option Z) (b : Z) : bool :=
  match a with Some x => x <? b | None => false end.
Definition gt (a : option Z) (b : Z) : bool :=
  match a with Some x => b <? x | None => false end.

End Number.

Example parseInt_ex :
  Number.parseInt "10" = Some 10 /\ Number.parseInt " 15 minutes" = Some 15
  /\ Number.parseInt "-3" = Some (-3) /\ Number.parseInt "1e3" = Some 1
  /\ Number.parseInt "ten" = None /\ Number.parseInt "" = None
  /\ Number.parseInt ".5" = None /\ Number.parseInt "+7.9" = Some 7.
Proof. vm_compute. repeat split. Qed.

(** What a call may do: return a value or throw an [Error] with a message. *)
Inductive Attempt (A : Type) : Type :=
| Throws (message : string)
| Gives (value : A).
Arguments Throws {A} message.
Arguments Gives {A} value.

Definition attempt_bind {A B : Type} (a : Attempt A) (k : A -> Attempt B) : Attempt B :=
  match a with
  | Throws m => Throws m
  | Gives x => k x
  end.

Notation "x <-! a ; k" := (attempt_bind a (fun x => k))
  (at level 100, a at next level, right associativity, only parsing).

Module ActionInputs.
Record t : Type := mk {
  entityId : string;
  apiUrl : string;
  waitForCompletion : bool;
  timeoutMinutes : option Z;
  dryRun : bool;
  pollIntervalSeconds : option Z;
  logVerbosity : LogVerbosity
}.
End ActionInputs.

(** [validVerbosities.includes(input)], with the verbosity the string
    stands for. *)
Definition verbosityOf (input : string) : option LogVerbosity :=
  if String.eqb input "none" then Some none
  else if String.eqb input "quiet" then Some quiet
  else if String.eqb input "normal" then Some normal
  else if String.eqb input "verbose" then Some verbose
  else None.

Definition DEFAULT_API_URL : string := "https://api.enforceauth.com".
Definition TIMEOUT_RANGE_MESSAGE : string := "timeout-minutes must be between 1 and 60".
Definition INTERVAL_RANGE_MESSAGE : string := "poll-interval-seconds must be between 1 and 30".
Definition VERBOSITY_MESSAGE : string :=
  "log-verbosity must be one of: none, quiet, normal, verbose".

Section Inputs.

(** The three ways [getInputs] reads the inputs of the action, from
    [@actions/core]: [getInput(name)], [getInput(name, {required: true})],
    which may throw, and [getBooleanInput(name)], which may throw. *)
Variable core_getInput : string -> string.
Variable core_getInput_required : string -> Attempt string.
Variable core_getBooleanInput : string -> Attempt bool.

Definition getInputs : Attempt ActionInputs.t :=
  entityId <-! core_getInput_required "entity-id";
  let apiUrl := Js.or_else (Some (core_getInput "api-url")) DEFAULT_API_URL in
  waitForCompletion <-! core_getBooleanInput "wait-for-completion";
  let timeoutMinutes :=
    Number.parseInt (Js.or_else (Some (core_getInput "timeout-minutes")) "10") in
  dryRun <-! core_getBooleanInput "dry-run";
  let pollIntervalSeconds :=
    Number.parseInt (Js.or_else (Some (core_getInput "poll-interval-seconds")) "2") in
  let logVerbosityInput := Js.or_else (Some (core_getInput "log-verbosity")) "normal" in
  (* Validate inputs *)
  if Number.lt timeoutMinutes 1 || Number.gt timeoutMinutes 60 then
    Throws TIMEOUT_RANGE_MESSAGE
  else if Number.lt pollIntervalSeconds 1 || Number.gt pollIntervalSeconds 30 then
    Throws INTERVAL_RANGE_MESSAGE
  else
    match verbosityOf logVerbosityInput with
    | None => Throws VERBOSITY_MESSAGE
    | Some logVerbosity =>
      Gives {| ActionInputs.entityId := entityId;
               ActionInputs.apiUrl := apiUrl;
               ActionInputs.waitForCompletion := waitForCompletion;
               ActionInputs.timeoutMinutes := timeoutMinutes;
               ActionInputs.dryRun := dryRun;
               ActionInputs.pollIntervalSeconds := pollIntervalSeconds;
               ActionInputs.logVerbosity := logVerbosity |}
    end.

End Inputs.

(** ** [idempotency.ts] *)

(** [github.context], as far as the action reads it.  Reading
    [context.repo] throws when the runner has no [GITHUB_REPOSITORY];
    otherwise it gives the owner and the name of the repository. *)
Module Context.
Record t : Type := mk {
  repo : Attempt (string * string);
  ref : string;
  sha : string;
  workflow : string;
  job : string;
  runId : Z;
  runAttempt : Z
}.
End Context.

Module IdempotencyContext.
Record t : Type := mk {
  entityId : string;
  sha : string;
  workflow : string;
  job : string;
  runId : Z;
  runAttempt : Z
}.
End IdempotencyContext.

(** [xs.join(sep)] *)
Fixpoint join (sep : string) (xs : list string) : string :=
  match xs with
  | [] => ""
  | [x] => x
  | x :: rest => x +:+ sep +:+ join sep rest
  end.

Definition components (context : Context.t) (entityId : string) : list string :=
  [entityId;
   Context.sha context;
   Context.workflow context;
   Context.job context;
   pretty (Context.runId context);
   pretty (Context.runAttempt context)].

Section Idempotency.

(** [crypto.createHash('sha256').update(text).digest('hex')] *)
Variable sha256_hex : string -> string.

Definition generateIdempotencyKey (context : Context.t) (entityId : string) : string :=
  let hash := String.substring 0 32 (sha256_hex (join ":" (components context entityId))) in
  "gha_" +:+ hash.

End Idempotency.

Definition getIdempotencyContext (context : Context.t) (entityId : string)
  : IdempotencyContext.t :=
  {| IdempotencyContext.entityId := entityId;
     IdempotencyContext.sha := Context.sha context;
     IdempotencyContext.workflow := Context.workflow context;
     IdempotencyContext.job := Context.job context;
     IdempotencyContext.runId := Context.runId context;
     IdempotencyContext.runAttempt := Context.runAttempt context |}.

(** ** [main.ts]: [logContext] and [run] *)

Definition showBoolean (b : bool) : string := if b then "true" else "false".

(** A number inside a template string. *)
Definition showNumber (n : option Z) : string :=
  match n with
  | Some z => pretty z
  | None => "NaN"
  end.

Definition logContext (context : Context.t) (inputs : ActionInputs.t)
  : list string * Attempt unit :=
  let lines :=
    ["EnforceAuth Deploy Action";
     "=========================";
     "Entity: " +:+ ActionInputs.entityId inputs;
     "API URL: " +:+ ActionInputs.apiUrl inputs;
     "Wait for completion: " +:+ showBoolean (ActionInputs.waitForCompletion inputs);
     "Timeout: " +:+ showNumber (ActionInputs.timeoutMinutes inputs) +:+ " minutes";
     "Dry run: " +:+ showBoolean (ActionInputs.dryRun inputs);
     "";
     "GitHub Context:"] in
  match Context.repo context with
  | Throws message => (lines, Throws message)
  | Gives (owner, repo) =>
    (lines ++
     ["  Repository: " +:+ owner +:+ "/" +:+ repo;
      "  Ref: " +:+ Context.ref context;
      "  SHA: " +:+ Context.sha context;
      "  Workflow: " +:+ Context.workflow context;
      "  Job: " +:+ Context.job context;
      "  Run ID: " +:+ pretty (Context.runId context);
      "  Run Attempt: " +:+ pretty (Context.runAttempt context);
      ""],
     Gives tt)
  end.

Inductive OutputValue : Type :=
| out_text (s : string)
| out_number (n : Z).

(** What [run] does that can be seen from outside: the lines it logs, the
    outputs it sets, and its calls to the other modules.  A call on the
    client carries the two arguments the client was built from. *)
Inductive RunEvent : Type :=
| run_info (line : string)
| run_debug (line : string)
| run_debug_context (context : IdempotencyContext.t)
| run_setOutput (name : string) (value : OutputValue)
| run_setFailed (message : string)
| call_authenticate (apiUrl entityId : string)
| call_triggerDeployment (apiUrl accessToken entityId idempotencyKey : string)
| call_pollForCompletion (apiUrl accessToken entityId runId : string)
    (timeoutMinutes pollDelayMs : option Z) (logVerbosity : LogVerbosity).

Definition showStatus (s : Status) : string :=
  match s with
  | success => "success"
  | failed => "failed"
  | timeout => "timeout"
  end.

(** The outputs of [reportResult] as [run] writes them. *)
Definition ofOutput (o : Output) : RunEvent :=
  match o with
  | setOutput_status s => run_setOutput "status" (out_text (showStatus s))
  | setOutput_duration_seconds seconds => run_setOutput "duration-seconds" (out_number seconds)
  | setOutput_bundle_version v => run_setOutput "bundle-version" (out_text v)
  | setOutput_deployment_url u => run_setOutput "deployment-url" (out_text u)
  | setFailed message => run_setFailed message
  end.

Section RunModel.

Variable core_getInput : string -> string.
Variable core_getInput_required : string -> Attempt string.
Variable core_getBooleanInput : string -> Attempt bool.
Variable sha256_hex : string -> string.
Variable context : Context.t.

(** The clock: [Date.now()] when [run] starts, and at the one later place
    where a run reads it again. *)
Variables startTime endTime : Z.

(** How the three awaited calls end, each given what it was called with. *)
Variable await_authenticate : string -> string -> Attempt string.
Variable await_triggerDeployment : string -> string -> string -> string -> Attempt string.
Variable await_pollForCompletion :
  string -> string -> string -> string -> option Z -> option Z -> LogVerbosity ->
  Attempt PollingResult.t.

Definition wallSeconds : Z := roundSeconds (endTime - startTime).

(** The [catch] block of [run]. *)
Definition caught (message : string) : list RunEvent :=
  [run_setFailed message; run_setOutput "duration-seconds" (out_number wallSeconds)].

Definition run : list RunEvent :=
  match getInputs core_getInput core_getInput_required core_getBooleanInput with
  | Throws message => caught message
  | Gives inputs =>
    let entityId := ActionInputs.entityId inputs in
    let apiUrl := ActionInputs.apiUrl inputs in
    let '(lines, logged) := logContext context inputs in
    (run_info <$> lines)
    ++ match logged with
       | Throws message => caught message
       | Gives _ =>
         let idempotencyKey := generateIdempotencyKey sha256_hex context entityId in
         [run_debug ("Idempotency key: " +:+ idempotencyKey);
          run_debug_context (getIdempotencyContext context entityId);
          call_authenticate apiUrl entityId]
         ++ match await_authenticate apiUrl entityId with
            | Throws message => caught message
            | Gives accessToken =>
              if ActionInputs.dryRun inputs then
                [run_info "Dry run mode enabled - skipping actual deployment";
                 run_setOutput "run-id" (out_text "dry-run");
                 run_setOutput "status" (out_text "dry-run");
                 run_setOutput "duration-seconds" (out_number wallSeconds)]
              else
                call_triggerDeployment apiUrl accessToken entityId idempotencyKey ::
                match await_triggerDeployment apiUrl accessToken entityId idempotencyKey with
                | Throws message => caught message
                | Gives runId =>
                  run_setOutput "run-id" (out_text runId) ::
                  if negb (ActionInputs.waitForCompletion inputs) then
                    [run_info "Deployment triggered successfully (not waiting for completion)";
                     run_setOutput "status" (out_text "pending");
                     run_setOutput "duration-seconds" (out_number wallSeconds)]
                  else
                    let timeoutMinutes := ActionInputs.timeoutMinutes inputs in
                    let pollDelayMs :=
                      (fun s => s * 1000) <$> ActionInputs.pollIntervalSeconds inputs in
                    let logVerbosity := ActionInputs.logVerbosity inputs in
                    call_pollForCompletion apiUrl accessToken entityId runId
                      timeoutMinutes pollDelayMs logVerbosity ::
                    match await_pollForCompletion apiUrl accessToken entityId runId
                            timeoutMinutes pollDelayMs logVerbosity with
                    | Throws message => caught message
                    | Gives result => ofOutput <$> reportResult wallSeconds result
                    end
                end
            end
       end
  end.

End RunModel.

(** ** Decimal numerals *)

Lemma pretty_N_go_app (x : N) (s : string) :
  pretty_N_go x s = pretty_N_go x "" +:+ s.
Proof.
  revert s. induction (N.lt_wf_0 x) as [x _ IH]. intros s.
  destruct (decide (0 < x)%N) as [Hx|Hx].
  - rewrite (pretty_N_go_step x s), (pretty_N_go_step x "") by exact Hx.
    assert (x `div` 10 < x)%N as Hlt by (apply N.div_lt; lia).
    rewrite (IH _ Hlt (String _ s)), (IH _ Hlt (String _ "")).
    rewrite str_app_assoc, append_cons, append_nil. reflexivity.
  - assert (x = 0%N) as -> by lia. rewrite !pretty_N_go_0. reflexivity.
Qed.

Lemma digitOf_pretty_N_char (d : N) :
  (d < 10)%N -> digitOf (pretty_N_char d) = Some (Z.of_N d).
Proof.
  intros Hd.
  do 10 (destruct d as [|d] using N.peano_ind; [reflexivity|]; try rewrite <- N.add_1_r in *).
  lia.
Qed.

Lemma digitsValue_pretty_N_go (x : N) :
  exists k, 0 <= k /\ forall acc s,
    Number.digitsValue acc (pretty_N_go x s)
    = Number.digitsValue (acc * 10 ^ k + Z.of_N x) s.
Proof.
  induction (N.lt_wf_0 x) as [x _ IH].
  destruct (decide (0 < x)%N) as [Hx|Hx].
  - destruct (IH (x `div` 10)%N) as (k & Hk & IHk); [apply N.div_lt; lia|].
    exists (k + 1). split; [lia|]. intros acc s.
    rewrite pretty_N_go_step by exact Hx. rewrite IHk. cbn [Number.digitsValue].
    rewrite digitOf_pretty_N_char by (apply N.mod_lt; lia).
    f_equal. rewrite Z.pow_add_r by lia. change (10 ^ 1) with 10.
    rewrite N2Z.inj_div, N2Z.inj_mod. change (Z.of_N 10) with 10.
    assert (Z.of_N x = 10 * (Z.of_N x `div` 10) + Z.of_N x `mod` 10) as Hdm
      by (apply Z.div_mod; lia).
    revert Hdm. generalize (Z.of_N x `div` 10) (Z.of_N x `mod` 10) (10 ^ k). intros. lia.
  - assert (x = 0%N) as -> by lia. exists 0. split; [lia|]. intros acc s.
    rewrite pretty_N_go_0. f_equal. lia.
Qed.

(** A string that starts with a decimal digit. *)
Definition digitHead (s : string) : Prop :=
  exists c r, s = String c r /\ is_Some (digitOf c).

Lemma digitHead_pretty_N_go (x : N) (s : string) :
  (0 < x)%N -> digitHead (pretty_N_go x s).
Proof.
  revert s. induction (N.lt_wf_0 x) as [x _ IH]. intros s Hx.
  rewrite pretty_N_go_step by exact Hx.
  destruct (decide (0 < x `div` 10)%N) as [Hd|Hd].
  - apply IH; [apply N.div_lt; lia|exact Hd].
  - apply N.nlt_ge, N.le_0_r in Hd. rewrite Hd, pretty_N_go_0.
    eexists _, _. split; [reflexivity|].
    rewrite digitOf_pretty_N_char by (apply N.mod_lt; lia). eauto.
Qed.

Lemma digitHead_pretty (n : N) (rest : string) : digitHead (pretty n +:+ rest).
Proof.
  unfold pretty, pretty_N. destruct (decide (n = 0%N)) as [->|Hn].
  - eexists _, _. split; [reflexivity|]. vm_compute. eauto.
  - rewrite <- pretty_N_go_app. apply digitHead_pretty_N_go. lia.
Qed.

Lemma parseInt_digitHead (s : string) :
  digitHead s -> Number.parseInt s = Some (Number.digitsValue 0 s).
Proof.
  intros (c & r & -> & [d Hd]).
  destruct c as [[] [] [] [] [] [] [] []]; vm_compute in Hd; try discriminate;
    unfold Number.parseInt; cbn -[Z.mul Number.digitsValue];
    f_equal; apply Z.mul_1_l.
Qed.

Lemma digitsValue_stop (acc : Z) (rest : string) :
  Number.startsWithDigit rest = false -> Number.digitsValue acc rest = acc.
Proof.
  destruct rest as [|c r]; [reflexivity|]. simpl. intros H%bool_decide_eq_false.
  destruct (digitOf c); [exfalso; eauto|reflexivity].
Qed.

(** [parseInt] reads back a written number and ignores what follows it. *)
Lemma parseInt_pretty (n : N) (rest : string) :
  Number.startsWithDigit rest = false ->
  Number.parseInt (pretty n +:+ rest) = Some (Z.of_N n).
Proof.
  intros Hrest. rewrite parseInt_digitHead by apply digitHead_pretty. f_equal.
  unfold pretty, pretty_N. destruct (decide (n = 0%N)) as [->|Hn].
  - rewrite append_cons, append_nil. cbn [Number.digitsValue].
    change (digitOf "0") with (Some 0). cbn beta iota.
    rewrite digitsValue_stop by exact Hrest. reflexivity.
  - rewrite <- pretty_N_go_app.
    destruct (digitsValue_pretty_N_go n) as (k & _ & ->).
    rewrite digitsValue_stop by exact Hrest. lia.
Qed.

(** ** [getInputs] *)

Section InputsFacts.

Variable core_getInput : string -> string.
Variable core_getInput_required : string -> Attempt string.
Variable core_getBooleanInput : string -> Attempt bool.

Local Abbreviation inputsOf :=
  (getInputs core_getInput core_getInput_required core_getBooleanInput).

Lemma getInputs_inv (inputs : ActionInputs.t) :
  inputsOf = Gives inputs ->
  core_getInput_required "entity-id" = Gives (ActionInputs.entityId inputs)
  /\ core_getBooleanInput "wait-for-completion" = Gives (ActionInputs.waitForCompletion inputs)
  /\ core_getBooleanInput "dry-run" = Gives (ActionInputs.dryRun inputs)
  /\ ActionInputs.apiUrl inputs
     = Js.or_else (Some (core_getInput "api-url")) DEFAULT_API_URL
  /\ ActionInputs.timeoutMinutes inputs
     = Number.parseInt (Js.or_else (Some (core_getInput "timeout-minutes")) "10")
  /\ ActionInputs.pollIntervalSeconds inputs
     = Number.parseInt (Js.or_else (Some (core_getInput "poll-interval-seconds")) "2")
  /\ verbosityOf (Js.or_else (Some (core_getInput "log-verbosity")) "normal")
     = Some (ActionInputs.logVerbosity inputs)
  /\ Number.lt (ActionInputs.timeoutMinutes inputs) 1 = false
  /\ Number.gt (ActionInputs.timeoutMinutes inputs) 60 = false
  /\ Number.lt (ActionInputs.pollIntervalSeconds inputs) 1 = false
  /\ Number.gt (ActionInputs.pollIntervalSeconds inputs) 30 = false.
Proof.
  unfold getInputs, attempt_bind.
  destruct (core_getInput_required "entity-id") as [|e]; [discriminate|].
  destruct (core_getBooleanInput "wait-for-completion") as [|w]; [discriminate|].
  destruct (core_getBooleanInput "dry-run") as [|d]; [discriminate|].
  destruct (Number.lt _ 1) eqn:H1; [discriminate|].
  destruct (Number.gt _ 60) eqn:H2; [discriminate|].
  destruct (Number.lt _ 1) eqn:H3 in |- *; [discriminate|].
  destruct (Number.gt _ 30) eqn:H4; [discriminate|].
  destruct (verbosityOf _) as [v|] eqn:Hv; [|discriminate].
  cbn [orb]. intros [= <-]. cbn. repeat split; auto.
Qed.

End InputsFacts.

(** X6.  The inputs that [getInputs] accepts.  A timeout that is a number
    lies between 1 and 60 and a poll interval that is a number lies between
    1 and 30; the API URL is never empty; and an input left empty takes its
    default: 10 minutes, 2 seconds, verbosity [normal], the public API
    URL. *)
Theorem X6_getInputs_accepted
  (core_getInput : string -> string)
  (core_getInput_required : string -> Attempt string)
  (core_getBooleanInput : string -> Attempt bool)
  (inputs : ActionInputs.t) :
  getInputs core_getInput core_getInput_required core_getBooleanInput = Gives inputs ->
  (forall m, ActionInputs.timeoutMinutes inputs = Some m -> 1 <= m <= 60)
  /\ (forall s, ActionInputs.pollIntervalSeconds inputs = Some s -> 1 <= s <= 30)
  /\ ActionInputs.apiUrl inputs <> ""
  /\ (core_getInput "timeout-minutes" = "" -> ActionInputs.timeoutMinutes inputs = Some 10)
  /\ (core_getInput "poll-interval-seconds" = "" ->
      ActionInputs.pollIntervalSeconds inputs = Some 2)
  /\ (core_getInput "log-verbosity" = "" -> ActionInputs.logVerbosity inputs = normal)
  /\ (core_getInput "api-url" = "" -> ActionInputs.apiUrl inputs = DEFAULT_API_URL).
Proof.
  intros (_ & _ & _ & Hurl & Ht & Hp & Hv & Ht1 & Ht2 & Hp1 & Hp2)%getInputs_inv.
  split_and!.
  - intros m Hm. rewrite Hm in Ht1, Ht2. simpl in Ht1, Ht2. lia.
  - intros s Hs. rewrite Hs in Hp1, Hp2. simpl in Hp1, Hp2. lia.
  - rewrite Hurl. apply or_else_nonempty. discriminate.
  - intros E. rewrite Ht, E. reflexivity.
  - intros E. rewrite Hp, E. reflexivity.
  - intros E. rewrite E in Hv.
    change (Some normal = Some (ActionInputs.logVerbosity inputs)) in Hv. congruence.
  - intros E. rewrite Hurl, E. reflexivity.
Qed.

(** X19.  Only the number at the start of [timeout-minutes] is validated.
    With the other inputs readable and a text that starts with the decimal
    numeral of [n], whatever follows it (a unit, a fraction, an exponent):
    the input is rejected with the range message when [n] is outside 1..60,
    and otherwise every accepted input carries the timeout [n].  A text
    without any number at its start is not empty and is read as [NaN]; it
    is never rejected for its range, and an accepted input then carries
    [NaN] as its timeout. *)
Theorem X19_timeout_numeric_prefix
  (core_getInput : string -> string)
  (core_getInput_required : string -> Attempt string)
  (core_getBooleanInput : string -> Attempt bool)
  (entityId : string) (wait dry : bool) :
  core_getInput_required "entity-id" = Gives entityId ->
  core_getBooleanInput "wait-for-completion" = Gives wait ->
  core_getBooleanInput "dry-run" = Gives dry ->
  let result := getInputs core_getInput core_getInput_required core_getBooleanInput in
  (forall (n : N) (rest : string),
     core_getInput "timeout-minutes" = pretty n +:+ rest ->
     Number.startsWithDigit rest = false ->
     (~ 1 <= Z.of_N n <= 60 -> result = Throws TIMEOUT_RANGE_MESSAGE)
     /\ (1 <= Z.of_N n <= 60 ->
         result <> Throws TIMEOUT_RANGE_MESSAGE
         /\ forall inputs, result = Gives inputs ->
              ActionInputs.timeoutMinutes inputs = Some (Z.of_N n)))
  /\ (Number.parseInt (core_getInput "timeout-minutes") = None ->
      core_getInput "timeout-minutes" <> "" ->
      result <> Throws TIMEOUT_RANGE_MESSAGE
      /\ forall inputs, result = Gives inputs -> ActionInputs.timeoutMinutes inputs = None).
Proof.
  intros He Hw Hd result.
  assert (forall t, Number.parseInt (Js.or_else (Some (core_getInput "timeout-minutes")) "10") = t ->
            (Number.lt t 1 || Number.gt t 60 = true -> result = Throws TIMEOUT_RANGE_MESSAGE)
            /\ (Number.lt t 1 || Number.gt t 60 = false ->
                result <> Throws TIMEOUT_RANGE_MESSAGE
                /\ forall inputs, result = Gives inputs -> ActionInputs.timeoutMinutes inputs = t))
    as Hcases.
  { intros t Ht. subst result. split.
    - intros Hout. unfold getInputs. rewrite He, Hw, Hd. cbn [attempt_bind].
      rewrite Ht, Hout. reflexivity.
    - intros Hin. split.
      + unfold getInputs. rewrite He, Hw, Hd. cbn [attempt_bind]. rewrite Ht, Hin.
        cbn iota. unfold TIMEOUT_RANGE_MESSAGE, INTERVAL_RANGE_MESSAGE, VERBOSITY_MESSAGE.
        match goal with |- context [if ?c then _ else _] => destruct c end; [discriminate|].
        destruct (verbosityOf _); discriminate.
      + intros inputs (_ & _ & _ & _ & -> & _)%getInputs_inv. exact Ht. }
  split.
  - intros n rest Htext Hrest.
    assert (Js.or_else (Some (core_getInput "timeout-minutes")) "10" = pretty n +:+ rest) as Hor.
    { rewrite Htext. destruct (digitHead_pretty n rest) as (c & r & -> & _). reflexivity. }
    destruct (Hcases (Some (Z.of_N n))) as [Hout Hin].
    { rewrite Hor. apply parseInt_pretty, Hrest. }
    split; intros Hn.
    + apply Hout. simpl. destruct (Z.ltb_spec (Z.of_N n) 1), (Z.ltb_spec 60 (Z.of_N n));
        simpl; try reflexivity. lia.
    + apply Hin. simpl. destruct (Z.ltb_spec (Z.of_N n) 1), (Z.ltb_spec 60 (Z.of_N n));
        simpl; try reflexivity; lia.
  - intros Hnan Hne.
    apply (Hcases None); [|reflexivity].
    destruct (core_getInput "timeout-minutes") as [|c r] eqn:E; [congruence|]. exact Hnan.
Qed.

(** ** [run] *)

Definition isTrigger (ev : RunEvent) : bool :=
  match ev with call_triggerDeployment _ _ _ _ => true | _ => false end.

Definition isSetFailed (ev : RunEvent) : bool :=
  match ev with run_setFailed _ => true | _ => false end.

Definition isDurationOutput (ev : RunEvent) : bool :=
  match ev with
  | run_setOutput name _ => String.eqb name "duration-seconds"
  | _ => false
  end.

(** How many events of a kind a run has. *)
Definition count (kind : RunEvent -> bool) (evs : list RunEvent) : nat :=
  length (filter (fun ev => kind ev = true) evs).

Lemma count_app kind (a b : list RunEvent) : count kind (a ++ b) = (count kind a + count kind b)%nat.
Proof. unfold count. rewrite filter_app, length_app. reflexivity. Qed.

Lemma count_nil kind : count kind [] = 0%nat.
Proof. reflexivity. Qed.

Lemma count_cons kind (ev : RunEvent) (evs : list RunEvent) :
  count kind (ev :: evs) = ((if kind ev then 1 else 0) + count kind evs)%nat.
Proof.
  unfold count. rewrite filter_cons. destruct (kind ev) eqn:E.
  - rewrite decide_True by reflexivity. reflexivity.
  - rewrite decide_False by discriminate. reflexivity.
Qed.

Lemma count_none kind (evs : list RunEvent) :
  Forall (fun ev => kind ev = false) evs -> count kind evs = 0%nat.
Proof.
  induction 1 as [|ev evs Hev _ IH]; [reflexivity|].
  rewrite count_cons, Hev, IH. reflexivity.
Qed.

Lemma count_info kind (lines : list string) :
  (forall line, kind (run_info line) = false) -> count kind (run_info <$> lines) = 0%nat.
Proof.
  intros Hkind. apply count_none, Forall_fmap, Forall_forall. intros line _. apply Hkind.
Qed.

Lemma reportResult_shape (wall : Z) (result : PollingResult.t) :
  exists seconds optional,
    reportResult wall result
    = [setOutput_status (PollingResult.status result); setOutput_duration_seconds seconds]
      ++ optional
      ++ (if isFailed result
          then [setFailed ("Deployment failed: " +:+
                           Js.or_else (PollingResult.errorMessage result) NO_ERROR_MESSAGE)]
          else [])
    /\ Forall (fun o => isSetFailed (ofOutput o) = false
                        /\ isDurationOutput (ofOutput o) = false
                        /\ isTrigger (ofOutput o) = false) optional.
Proof.
  unfold reportResult.
  exists (match PollingResult.durationMs result with
          | Some ms => if ms =? 0 then wall else roundSeconds ms
          | None => wall
          end),
         ((if Js.truthy (PollingResult.bundleVersion result)
           then [setOutput_bundle_version (default "" (PollingResult.bundleVersion result))]
           else [])
          ++ (if Js.truthy (PollingResult.deploymentUrl result)
              then [setOutput_deployment_url (default "" (PollingResult.deploymentUrl result))]
              else [])).
  split.
  - rewrite <- (app_assoc (if Js.truthy (PollingResult.bundleVersion result) then _ else _)).
    reflexivity.
  - apply Forall_app. split.
    + destruct (Js.truthy (PollingResult.bundleVersion result)); repeat constructor.
    + destruct (Js.truthy (PollingResult.deploymentUrl result)); repeat constructor.
Qed.

Lemma count_reportResult (wall : Z) (result : PollingResult.t) :
  count isTrigger (ofOutput <$> reportResult wall result) = 0%nat
  /\ count isDurationOutput (ofOutput <$> reportResult wall result) = 1%nat
  /\ count isSetFailed (ofOutput <$> reportResult wall result)
     = (if isFailed result then 1 else 0)%nat.
Proof.
  destruct (reportResult_shape wall result) as (seconds & optional & -> & Hopt).
  rewrite !fmap_app, !count_app.
  assert (forall kind, (forall o, isSetFailed (ofOutput o) = false
                                  /\ isDurationOutput (ofOutput o) = false
                                  /\ isTrigger (ofOutput o) = false -> kind (ofOutput o) = false) ->
                       count kind (ofOutput <$> optional) = 0%nat) as Hnone.
  { intros kind Hkind. apply count_none, Forall_fmap. eapply Forall_impl; [exact Hopt|].
    intros o Ho. apply Hkind, Ho. }
  rewrite !Hnone by tauto.
  destruct (isFailed result); split_and!; reflexivity.
Qed.

Section RunFacts.

Variable core_getInput : string -> string.
Variable core_getInput_required : string -> Attempt string.
Variable core_getBooleanInput : string -> Attempt bool.
Variable sha256_hex : string -> string.
Variable context : Context.t.
Variables startTime endTime : Z.
Variable await_authenticate : string -> string -> Attempt string.
Variable await_triggerDeployment : string -> string -> string -> string -> Attempt string.
Variable await_pollForCompletion :
  string -> string -> string -> string -> option Z -> option Z -> LogVerbosity ->
  Attempt PollingResult.t.

Local Abbreviation inputsOf :=
  (getInputs core_getInput core_getInput_required core_getBooleanInput).
Local Abbreviation events :=
  (run core_getInput core_getInput_required core_getBooleanInput sha256_hex context
       startTime endTime await_authenticate await_triggerDeployment await_pollForCompletion).

(** How a run ends: what threw, or what the last step gave. *)
Inductive Ending : Type :=
| InputsThrew (message : string)
| ContextThrew (inputs : ActionInputs.t) (message : string)
| AuthenticateThrew (inputs : ActionInputs.t) (message : string)
| DryRun (inputs : ActionInputs.t) (accessToken : string)
| TriggerThrew (inputs : ActionInputs.t) (accessToken message : string)
| NotWaiting (inputs : ActionInputs.t) (accessToken runId : string)
| PollThrew (inputs : ActionInputs.t) (accessToken runId message : string)
| Polled (inputs : ActionInputs.t) (accessToken runId : string) (result : PollingResult.t).

Definition ending : Ending :=
  match inputsOf with
  | Throws message => InputsThrew message
  | Gives inputs =>
    let entityId := ActionInputs.entityId inputs in
    let apiUrl := ActionInputs.apiUrl inputs in
    match Context.repo context with
    | Throws message => ContextThrew inputs message
    | Gives _ =>
      match await_authenticate apiUrl entityId with
      | Throws message => AuthenticateThrew inputs message
      | Gives accessToken =>
        if ActionInputs.dryRun inputs then DryRun inputs accessToken else
        match await_triggerDeployment apiUrl accessToken entityId
                (generateIdempotencyKey sha256_hex context entityId) with
        | Throws message => TriggerThrew inputs accessToken message
        | Gives runId =>
          if negb (ActionInputs.waitForCompletion inputs)
          then NotWaiting inputs accessToken runId
          else
            match await_pollForCompletion apiUrl accessToken entityId runId
                    (ActionInputs.timeoutMinutes inputs)
                    ((fun s => s * 1000) <$> ActionInputs.pollIntervalSeconds inputs)
                    (ActionInputs.logVerbosity inputs) with
            | Throws message => PollThrew inputs accessToken runId message
            | Gives result => Polled inputs accessToken runId result
            end
        end
      end
    end
  end.

Ltac run_context :=
  unfold logContext; destruct (Context.repo context) as [mc|[owner repo]] eqn:Hrepo.

Ltac run_cases :=
  unfold run, ending, caught;
  destruct inputsOf as [m0|inputs]; [|
    run_context; [|
      destruct (await_authenticate _ _) as [m1|accessToken]; [|
        destruct (ActionInputs.dryRun inputs) eqn:Hdry; [|
          destruct (await_triggerDeployment _ _ _ _) as [m2|runId]; [|
            destruct (ActionInputs.waitForCompletion inputs) eqn:Hwait; cbn [negb]; [
              destruct (await_pollForCompletion _ _ _ _ _ _ _) as [m3|result]|]]]]]].

Lemma run_counts :
  count isTrigger events
  = match ending with
    | InputsThrew _ | ContextThrew _ _ | AuthenticateThrew _ _ | DryRun _ _ => 0%nat
    | _ => 1%nat
    end
  /\ count isDurationOutput events = 1%nat
  /\ count isSetFailed events
     = match ending with
       | DryRun _ _ | NotWaiting _ _ _ => 0%nat
       | Polled _ _ _ result => if isFailed result then 1%nat else 0%nat
       | _ => 1%nat
       end.
Proof.
  run_cases;
    rewrite ?count_app, ?count_cons, ?count_nil, ?count_info by reflexivity;
    try (destruct (count_reportResult (wallSeconds startTime endTime) result) as (-> & -> & ->));
    cbv beta iota delta [isTrigger isSetFailed isDurationOutput String.eqb Ascii.eqb Bool.eqb
                         Nat.add andb];
    split_and!; try reflexivity; destruct (isFailed result); reflexivity.
Qed.

Lemma count_positive kind (evs : list RunEvent) :
  count kind evs <> 0%nat <-> exists ev, ev ∈ evs /\ kind ev = true.
Proof.
  induction evs as [|ev evs IH].
  - split; [intros []; reflexivity|]. intros (ev & Hev & _). inversion Hev.
  - rewrite count_cons. split.
    + destruct (kind ev) eqn:E.
      * intros _. exists ev. split; [left|exact E].
      * intros H. apply IH in H as (ev' & Hin & Hk). exists ev'. split; [right; exact Hin|exact Hk].
    + intros (ev' & Hin & Hk). apply elem_of_cons in Hin as [->|Hin].
      * rewrite Hk. discriminate.
      * destruct (kind ev); [discriminate|]. apply IH. eauto.
Qed.

(** Taking apart the membership of an event in the events of a run. *)
Ltac run_elem H :=
  rewrite ?elem_of_app, ?elem_of_cons, ?elem_of_nil, ?list_elem_of_fmap in H;
  repeat match type of H with
         | _ \/ _ => destruct H as [H|H]
         | exists _, _ => destruct H as (? & H)
         | _ /\ _ => destruct H as (H & ?)
         | False => destruct H
         end;
  try discriminate H.

Lemma run_trigger_inv (a t e k : string) :
  call_triggerDeployment a t e k ∈ events ->
  exists inputs,
    inputsOf = Gives inputs
    /\ ActionInputs.dryRun inputs = false
    /\ a = ActionInputs.apiUrl inputs
    /\ e = ActionInputs.entityId inputs
    /\ await_authenticate a e = Gives t
    /\ k = generateIdempotencyKey sha256_hex context e.
Proof.
  unfold run, caught.
  destruct inputsOf as [m0|inputs]; [intros H; run_elem H|].
  run_context; [intros H; run_elem H|].
  destruct (await_authenticate _ _) as [m1|accessToken] eqn:Hauth; [intros H; run_elem H|].
  destruct (ActionInputs.dryRun inputs) eqn:Hdry; [intros H; run_elem H|].
  assert (forall lines rest,
            (forall x, x ∈ rest -> isTrigger x = false) ->
            call_triggerDeployment a t e k
              ∈ (run_info <$> lines)
                ++ [run_debug ("Idempotency key: " +:+
                      generateIdempotencyKey sha256_hex context (ActionInputs.entityId inputs));
                    run_debug_context (getIdempotencyContext context (ActionInputs.entityId inputs));
                    call_authenticate (ActionInputs.apiUrl inputs) (ActionInputs.entityId inputs)]
                ++ call_triggerDeployment (ActionInputs.apiUrl inputs) accessToken
                     (ActionInputs.entityId inputs)
                     (generateIdempotencyKey sha256_hex context (ActionInputs.entityId inputs))
                   :: rest ->
            exists inputs0,
              Gives inputs = Gives inputs0
              /\ ActionInputs.dryRun inputs0 = false
              /\ a = ActionInputs.apiUrl inputs0
              /\ e = ActionInputs.entityId inputs0
              /\ await_authenticate a e = Gives t
              /\ k = generateIdempotencyKey sha256_hex context e) as Hcore.
  { intros lines rest Hrest H. run_elem H.
    - injection H as -> -> -> ->. exists inputs. split_and!; auto.
    - apply Hrest in H. discriminate H. }
  destruct (await_triggerDeployment _ _ _ _) as [m2|runId].
  - apply Hcore. intros x Hx. run_elem Hx; subst; reflexivity.
  - destruct (ActionInputs.waitForCompletion inputs); cbn [negb].
    + destruct (await_pollForCompletion _ _ _ _ _ _ _) as [m3|result]; apply Hcore;
        intros x Hx; run_elem Hx; subst; try reflexivity.
      match goal with o : Output |- _ => destruct o; reflexivity end.
    + apply Hcore. intros x Hx. run_elem Hx; subst; reflexivity.
Qed.

Lemma run_poll_inv (a t e r : string) (tm pd : option Z) (v : LogVerbosity) :
  call_pollForCompletion a t e r tm pd v ∈ events ->
  exists inputs,
    inputsOf = Gives inputs
    /\ a = ActionInputs.apiUrl inputs
    /\ e = ActionInputs.entityId inputs
    /\ tm = ActionInputs.timeoutMinutes inputs
    /\ pd = (fun s => s * 1000) <$> ActionInputs.pollIntervalSeconds inputs
    /\ v = ActionInputs.logVerbosity inputs
    /\ await_triggerDeployment a t e (generateIdempotencyKey sha256_hex context e) = Gives r.
Proof.
  unfold run, caught.
  destruct inputsOf as [m0|inputs]; [intros H; run_elem H|].
  run_context; [intros H; run_elem H|].
  destruct (await_authenticate _ _) as [m1|accessToken] eqn:Hauth; [intros H; run_elem H|].
  destruct (ActionInputs.dryRun inputs) eqn:Hdry; [intros H; run_elem H|].
  destruct (await_triggerDeployment _ _ _ _) as [m2|runId] eqn:Htrig; [intros H; run_elem H|].
  destruct (ActionInputs.waitForCompletion inputs); cbn [negb]; [|intros H; run_elem H].
  destruct (await_pollForCompletion _ _ _ _ _ _ _) as [m3|result]; intros H; run_elem H;
    try (injection H as -> -> -> -> -> -> ->; exists inputs; split_and!; auto).
  subst. match goal with o : Output |- _ => destruct o; discriminate end.
Qed.

(** The run went through: nothing threw, and the deployment was skipped
    (dry run), was not waited for, or was polled to a success. *)
Definition completes : Prop :=
  exists inputs accessToken,
    inputsOf = Gives inputs
    /\ (exists repository, Context.repo context = Gives repository)
    /\ await_authenticate (ActionInputs.apiUrl inputs) (ActionInputs.entityId inputs)
       = Gives accessToken
    /\ (ActionInputs.dryRun inputs = true
        \/ exists runId,
             await_triggerDeployment (ActionInputs.apiUrl inputs) accessToken
               (ActionInputs.entityId inputs)
               (generateIdempotencyKey sha256_hex context (ActionInputs.entityId inputs))
             = Gives runId
             /\ (ActionInputs.waitForCompletion inputs = false
                 \/ exists result,
                      await_pollForCompletion (ActionInputs.apiUrl inputs) accessToken
                        (ActionInputs.entityId inputs) runId
                        (ActionInputs.timeoutMinutes inputs)
                        ((fun s => s * 1000) <$> ActionInputs.pollIntervalSeconds inputs)
                        (ActionInputs.logVerbosity inputs)
                      = Gives result
                      /\ PollingResult.status result = success)).

Lemma completes_ending :
  completes <->
  match ending with
  | DryRun _ _ | NotWaiting _ _ _ => True
  | Polled _ _ _ result => isFailed result = false
  | _ => False
  end.
Proof.
  unfold completes, ending.
  destruct inputsOf as [m0|inputs].
  { split; [intros (? & ? & [=] & _)|intros []]. }
  destruct (Context.repo context) as [mc|repository] eqn:Hrepo.
  { split; [intros (? & ? & _ & [? [=]] & _)|intros []]. }
  destruct (await_authenticate _ _) as [m1|accessToken] eqn:Hauth.
  { split; [intros (? & ? & [= <-] & _ & Ha & _); congruence|intros []]. }
  destruct (ActionInputs.dryRun inputs) eqn:Hdry.
  { split; [tauto|]. intros _. exists inputs, accessToken. split_and!; eauto. }
  destruct (await_triggerDeployment _ _ _ _) as [m2|runId] eqn:Htrig.
  { split; [|intros []]. intros (? & ? & [= <-] & _ & Ha & [Hd|(? & Ht & _)]); congruence. }
  destruct (ActionInputs.waitForCompletion inputs) eqn:Hwait; cbn [negb].
  - destruct (await_pollForCompletion _ _ _ _ _ _ _) as [m3|result] eqn:Hpoll.
    + split; [|intros []].
      intros (? & ? & [= <-] & _ & Ha & [Hd|(? & Ht & [Hw|(? & Hp & _)])]); congruence.
    + split.
      * intros (? & tok & [= <-] & _ & Ha & [Hd|(rid & Ht & [Hw|(res & Hp & Hs)])]);
          try congruence.
        assert (tok = accessToken) as -> by congruence.
        assert (rid = runId) as -> by congruence.
        assert (res = result) as -> by congruence.
        unfold isFailed. rewrite Hs. reflexivity.
      * intros Hok. exists inputs, accessToken. split_and!; eauto.
        right. exists runId. split; [exact Htrig|]. right. exists result. split; [exact Hpoll|].
        unfold isFailed in Hok. destruct (PollingResult.status result); [reflexivity|discriminate..].
  - split; [tauto|]. intros _. exists inputs, accessToken. split_and!; eauto.
Qed.

(** X20.  A run triggers at most one deployment, and only after the inputs
    were accepted and the authentication gave a token, never in a dry run.
    The request goes to the API URL and the entity of the inputs, with the
    token just obtained and the idempotency key of this entity and this
    workflow run. *)
Theorem X20_run_triggers_at_most_once :
  (count isTrigger events <= 1)%nat
  /\ forall apiUrl accessToken entityId idempotencyKey,
       call_triggerDeployment apiUrl accessToken entityId idempotencyKey ∈ events ->
       exists inputs,
         inputsOf = Gives inputs
         /\ ActionInputs.dryRun inputs = false
         /\ apiUrl = ActionInputs.apiUrl inputs
         /\ entityId = ActionInputs.entityId inputs
         /\ await_authenticate apiUrl entityId = Gives accessToken
         /\ idempotencyKey = generateIdempotencyKey sha256_hex context entityId.
Proof.
  split.
  - destruct run_counts as (-> & _). destruct ending; lia.
  - apply run_trigger_inv.
Qed.

(** X21.  A run marks the action as failed exactly when it does not go
    through: when reading the inputs or the repository, the authentication,
    the trigger or the polling throws, or when the polling ends in a
    failure or a timeout.
    It does so at most once, and whatever happens it writes the
    [duration-seconds] output exactly once. *)
Theorem X21_run_failed_unless_completed :
  ((exists message, run_setFailed message ∈ events) <-> ~ completes)
  /\ (count isSetFailed events <= 1)%nat
  /\ count isDurationOutput events = 1%nat.
Proof.
  destruct run_counts as (_ & Hduration & Hfailed). split_and!.
  - transitivity (count isSetFailed events <> 0%nat).
    + rewrite count_positive. split.
      * intros (message & Hin). exists (run_setFailed message). auto.
      * intros (ev & Hin & Hev). destruct ev; try discriminate Hev. eauto.
    + rewrite Hfailed, completes_ending.
      destruct ending as [| | | | | | |? ? ? result]; try (split; [tauto|lia]);
        try (split; [lia|tauto]).
      destruct (isFailed result); split; try lia; try tauto; try discriminate.
  - rewrite Hfailed. destruct ending as [| | | | | | |? ? ? result]; try lia.
    destruct (isFailed result); lia.
  - exact Hduration.
Qed.

(** X22.  The [run-id] output.  A run writes it in two cases only: in a dry
    run, once authenticated, with the text [dry-run]; otherwise as soon as
    the trigger has returned a run id, with that id.  It is then written
    whatever the polling does afterwards, and it is not written when
    reading the inputs or the repository, the authentication or the trigger
    throws. *)
Theorem X22_run_id_output (value : OutputValue) :
  run_setOutput "run-id" value ∈ events <->
  exists inputs accessToken,
    inputsOf = Gives inputs
    /\ (exists repository, Context.repo context = Gives repository)
    /\ await_authenticate (ActionInputs.apiUrl inputs) (ActionInputs.entityId inputs)
       = Gives accessToken
    /\ ((ActionInputs.dryRun inputs = true /\ value = out_text "dry-run")
        \/ (ActionInputs.dryRun inputs = false
            /\ exists runId,
                 await_triggerDeployment (ActionInputs.apiUrl inputs) accessToken
                   (ActionInputs.entityId inputs)
                   (generateIdempotencyKey sha256_hex context (ActionInputs.entityId inputs))
                 = Gives runId
                 /\ value = out_text runId)).
Proof.
  unfold run, caught.
  destruct inputsOf as [m0|inputs].
  { split; [intros H; run_elem H|intros (? & ? & [=] & _)]. }
  run_context.
  { split; [intros H; run_elem H|intros (? & ? & _ & [? [=]] & _)]. }
  destruct (await_authenticate _ _) as [m1|accessToken] eqn:Hauth.
  { split; [intros H; run_elem H|intros (? & ? & [= <-] & _ & Ha & _); congruence]. }
  destruct (ActionInputs.dryRun inputs) eqn:Hdry.
  { split.
    - intros H. run_elem H. injection H as ->. exists inputs, accessToken.
      split_and!; eauto.
    - intros (? & tok & [= <-] & _ & Ha & [[_ ->]|[Hd _]]); [|congruence].
      rewrite !elem_of_app, !elem_of_cons. auto 10. }
  assert (forall lines runId rest,
            await_triggerDeployment (ActionInputs.apiUrl inputs) accessToken
              (ActionInputs.entityId inputs)
              (generateIdempotencyKey sha256_hex context (ActionInputs.entityId inputs))
            = Gives runId ->
            (forall x, x ∈ rest -> x <> run_setOutput "run-id" value) ->
            run_setOutput "run-id" value
              ∈ (run_info <$> lines)
                ++ [run_debug ("Idempotency key: " +:+
                      generateIdempotencyKey sha256_hex context (ActionInputs.entityId inputs));
                    run_debug_context (getIdempotencyContext context (ActionInputs.entityId inputs));
                    call_authenticate (ActionInputs.apiUrl inputs) (ActionInputs.entityId inputs)]
                ++ call_triggerDeployment (ActionInputs.apiUrl inputs) accessToken
                     (ActionInputs.entityId inputs)
                     (generateIdempotencyKey sha256_hex context (ActionInputs.entityId inputs))
                   :: run_setOutput "run-id" (out_text runId) :: rest
            <-> exists inputs0 accessToken0,
                  Gives inputs = Gives inputs0
                  /\ (exists repository, Gives (owner, repo) = Gives repository)
                  /\ await_authenticate (ActionInputs.apiUrl inputs0)
                       (ActionInputs.entityId inputs0) = Gives accessToken0
                  /\ ((ActionInputs.dryRun inputs0 = true /\ value = out_text "dry-run")
                      \/ (ActionInputs.dryRun inputs0 = false
                          /\ exists runId0,
                               await_triggerDeployment (ActionInputs.apiUrl inputs0) accessToken0
                                 (ActionInputs.entityId inputs0)
                                 (generateIdempotencyKey sha256_hex context
                                    (ActionInputs.entityId inputs0))
                               = Gives runId0
                               /\ value = out_text runId0))) as Hcore.
  { intros lines runId rest Htrig Hrest. split.
    - intros H. run_elem H.
      + injection H as ->. exists inputs, accessToken. split_and!; eauto 10.
      + apply Hrest in H. congruence.
    - intros (? & tok & [= <-] & _ & Ha & [[Hd _]|[_ (rid & Ht & ->)]]); [congruence|].
      assert (tok = accessToken) as -> by congruence.
      assert (rid = runId) as -> by congruence.
      rewrite !elem_of_app, !elem_of_cons. auto 10. }
  destruct (await_triggerDeployment _ _ _ _) as [m2|runId] eqn:Htrig.
  { split.
    - intros H. run_elem H.
    - intros (? & tok & [= <-] & _ & Ha & [[Hd _]|[_ (rid & Ht & _)]]); congruence. }
  destruct (ActionInputs.waitForCompletion inputs); cbn [negb].
  - destruct (await_pollForCompletion _ _ _ _ _ _ _) as [m3|result];
      refine (Hcore _ runId _ eq_refl _); intros x Hx; run_elem Hx; subst; try discriminate.
    match goal with o : Output |- _ => destruct o; discriminate end.
  - refine (Hcore _ runId _ eq_refl _). intros x Hx. run_elem Hx; subst; discriminate.
Qed.

End RunFacts.

(** ** [generateIdempotencyKey] *)

Lemma includes_colon_cons (c : ascii) (s : string) :
  Js.includes (String c s) ":" = Ascii.eqb c ":" || Js.includes s ":".
Proof.
  destruct (Ascii.eqb_spec c ":") as [->|Hc]; cbn [orb].
  - cbn [Js.includes]. apply orb_true_iff. left. apply prefix_spec. exists s. reflexivity.
  - cbn [Js.includes]. replace (String.prefix ":" (String c s)) with false; [reflexivity|].
    symmetry. apply not_true_is_false. rewrite prefix_spec. intros [post H].
    rewrite append_cons in H. congruence.
Qed.

Lemma colon_split (a a' b b' : string) :
  Js.includes a ":" = false -> Js.includes a' ":" = false ->
  a +:+ ":" +:+ b = a' +:+ ":" +:+ b' -> a = a' /\ b = b'.
Proof.
  revert a'. induction a as [|c a IH]; intros [|c' a'] Ha Ha' H;
    rewrite ?append_cons, ?append_nil in H.
  - split; congruence.
  - injection H as <- _. rewrite includes_colon_cons in Ha'. discriminate Ha'.
  - injection H as -> _. rewrite includes_colon_cons in Ha. discriminate Ha.
  - injection H as -> H. rewrite includes_colon_cons in Ha, Ha'.
    apply orb_false_elim in Ha as [_ Ha], Ha' as [_ Ha'].
    destruct (IH a' Ha Ha' H) as [-> ->]. split; reflexivity.
Qed.

Lemma pretty_N_go_no_colon (x : N) (s : string) :
  Js.includes s ":" = false -> Js.includes (pretty_N_go x s) ":" = false.
Proof.
  revert s. induction (N.lt_wf_0 x) as [x _ IH]. intros s Hs.
  destruct (decide (0 < x)%N) as [Hx|Hx].
  - rewrite pretty_N_go_step by exact Hx. apply IH; [apply N.div_lt; lia|].
    rewrite includes_colon_cons, Hs, orb_false_r.
    pose proof (digitOf_pretty_N_char (x `mod` 10)%N ltac:(apply N.mod_lt; lia)) as Hd.
    destruct (Ascii.eqb_spec (pretty_N_char (x `mod` 10)%N) ":") as [E|]; [|reflexivity].
    rewrite E in Hd. discriminate Hd.
  - apply N.nlt_ge, N.le_0_r in Hx. rewrite Hx, pretty_N_go_0. exact Hs.
Qed.

Lemma pretty_Z_no_colon (z : Z) : Js.includes (pretty z) ":" = false.
Proof.
  assert (forall n : N, Js.includes (pretty n) ":" = false) as HN.
  { intros n. unfold pretty, pretty_N. destruct (decide (n = 0%N)); [reflexivity|].
    apply pretty_N_go_no_colon. reflexivity. }
  destruct z as [|p|p]; unfold pretty, pretty_Z.
  - reflexivity.
  - apply HN.
  - rewrite append_cons, append_nil, includes_colon_cons. apply HN.
Qed.

(** Without the condition on colons the text does not tell the components
    apart. *)
Example components_colon_ambiguity :
  let c1 := Context.mk (Gives ("o", "r")) "ref" "c" "w" "j" 1 1 in
  let c2 := Context.mk (Gives ("o", "r")) "ref" "b:c" "w" "j" 1 1 in
  join ":" (components c1 "a:b") = join ":" (components c2 "a")
  /\ getIdempotencyContext c1 "a:b" <> getIdempotencyContext c2 "a".
Proof. split; [vm_compute; reflexivity|discriminate]. Qed.

(** X23.  The text that [generateIdempotencyKey] hashes tells the six
    components apart as long as the entity, the commit, the workflow and
    the job contain no colon: two runs then hash the same text only if they
    have the same idempotency context.  A retry of the same job (another
    run attempt) or another workflow run therefore hashes another text. *)
Theorem X23_hashed_text_determines_context
  (context context' : Context.t) (entityId entityId' : string) :
  Forall (fun s => Js.includes s ":" = false)
    [entityId; Context.sha context; Context.workflow context; Context.job context;
     entityId'; Context.sha context'; Context.workflow context'; Context.job context'] ->
  join ":" (components context entityId) = join ":" (components context' entityId') ->
  getIdempotencyContext context entityId = getIdempotencyContext context' entityId'.
Proof.
  intros Hfree H. repeat (apply Forall_cons_1 in Hfree as [? Hfree]).
  unfold components in H. cbn [join] in H. unfold getIdempotencyContext.
  apply colon_split in H as [-> H]; [|assumption..].
  apply colon_split in H as [-> H]; [|assumption..].
  apply colon_split in H as [-> H]; [|assumption..].
  apply colon_split in H as [-> H]; [|assumption..].
  apply colon_split in H as [Hrun Hattempt]; [|apply pretty_Z_no_colon..].
  apply (inj pretty) in Hrun, Hattempt. rewrite Hrun, Hattempt. reflexivity.
Qed.

(** ** HTTP responses

    A response as the code reads it: [response.ok], [response.status],
    [await response.text()], whether the [X-Idempotency-Replay] header is
    ["true"], and what [JSON.parse] makes of the text.  The parsed value is
    seen through the type the code casts it to; a value that is not an
    object has none of the properties. *)

Inductive Parsed (A : Type) : Type :=
| NotJson                (* [JSON.parse] throws *)
| JsonNull               (* the text is [null]: reading a property throws *)
| Json (value : A).
Arguments NotJson {A}.
Arguments JsonNull {A}.
Arguments Json {A} value.

Module Http.
Record t (A : Type) : Type := mk {
  ok : bool;
  status : Z;
  responseText : string;
  idempotencyReplay : bool;
  json : Parsed A
}.
Arguments mk {A}.
Arguments ok {A}.
Arguments status {A}.
Arguments responseText {A}.
Arguments idempotencyReplay {A}.
Arguments json {A}.
End Http.

(** A string property inside a template string. *)
Definition showString (o : option string) : string := default "undefined" o.

(** [a || b] when both may be missing. *)
Definition orOptional (a b : option string) : option string :=
  if Js.truthy a then a else b.

Definition httpError {A : Type} (response : Http.t A) : string :=
  "HTTP " +:+ pretty (Http.status response) +:+ ": " +:+ Http.responseText response.

(** ** [oidc.ts]: authentication *)

Module TokenBody.
Record t : Type := mk {
  error : option string;
  error_description : option string;
  access_token : option string;
  expires_in : option Z
}.
End TokenBody.

Module OIDCExchangeResult.
Record t : Type := mk {
  accessToken : string;
  expiresIn : option Z
}.
End OIDCExchangeResult.

Definition TOKEN_EXCHANGE_GRANT_TYPE : string :=
  "urn:ietf:params:oauth:grant-type:token-exchange".
Definition TOKEN_TYPE_JWT : string := "urn:ietf:params:oauth:token-type:jwt".
Definition TOKEN_TYPE_ACCESS_TOKEN : string :=
  "urn:ietf:params:oauth:token-type:access_token".

Inductive OidcEvent : Type :=
| oidc_debug (line : string)
| oidc_info (line : string)
| oidc_setSecret (secret : string)
| call_getIDToken (audience : string)
| call_fetch_token (url : string) (form : list (string * string)).

Definition doubleQuote : string := String (ascii_of_nat 34) EmptyString.

Definition ID_TOKEN_PERMISSION_MESSAGE : string :=
  "Failed to get GitHub OIDC token. Ensure your workflow has " +:+ doubleQuote +:+
  "permissions: id-token: write" +:+ doubleQuote +:+ " configured.".

(** The [catch] block of [getGitHubOIDCToken]. *)
Definition idTokenFailure (message : string) : string :=
  if Js.includes message "Unable to get ACTIONS_ID_TOKEN_REQUEST_URL"
  then ID_TOKEN_PERMISSION_MESSAGE
  else "Failed to get GitHub OIDC token: " +:+ message.

(** [getGitHubOIDCToken(audience)]; [idToken] is how [core.getIDToken]
    ends.  When that call of the library returns a token it has itself
    passed the token to [core.setSecret]: this masking is the event after
    the call.  The debug line the library writes on its own account is not
    among the events. *)
Definition getGitHubOIDCToken (audience : string) (idToken : Attempt string)
  : list OidcEvent * Attempt string :=
  let started :=
    [oidc_debug ("Requesting GitHub OIDC token with audience: " +:+ audience);
     call_getIDToken audience] in
  match idToken with
  | Gives token =>
    let masked := started ++ [oidc_setSecret token] in
    if negb (Js.truthy (Some token)) then
      (masked, Throws (idTokenFailure "GitHub OIDC token is empty"))
    else
      (masked ++ [oidc_debug "Successfully acquired GitHub OIDC token"], Gives token)
  | Throws message => (started, Throws (idTokenFailure message))
  end.

(** The message for a response that is not [ok]. *)
Definition exchangeErrorMessage (response : Http.t TokenBody.t) : string :=
  match Http.json response with
  | Json errorResponse =>
    let errorMessage :=
      Js.or_else (TokenBody.error_description errorResponse)
        (Js.or_else (TokenBody.error errorResponse) "Unknown error") in
    if bool_decide (TokenBody.error errorResponse = Some "invalid_grant") then
      "Token validation failed: " +:+ errorMessage +:+
      ". Check that your trust policy is configured correctly."
    else if bool_decide (TokenBody.error errorResponse = Some "unauthorized_client") then
      "No matching trust policy: " +:+ errorMessage +:+
      ". Configure a trust policy for your repository and branch."
    else if bool_decide (TokenBody.error errorResponse = Some "access_denied") then
      "Access denied: " +:+ errorMessage +:+
      ". The entity may not be accessible with the configured trust policy."
    else errorMessage
  | _ => httpError response
  end.

(** The [TypeError] of V8 for [null.access_token]. *)
Definition NULL_ACCESS_TOKEN_MESSAGE : string :=
  "Cannot read properties of null (reading 'access_token')".

Definition tokenEndpoint (apiUrl : string) : string := apiUrl +:+ "/v1/auth/oidc/token".

(** [exchangeTokenForEnforceAuth(apiUrl, githubToken, entityId)]; [fetched]
    is how the [fetch] of the token endpoint and the reading of its text
    end. *)
Definition exchangeTokenForEnforceAuth (apiUrl githubToken entityId : string)
    (fetched : Attempt (Http.t TokenBody.t))
  : list OidcEvent * Attempt OIDCExchangeResult.t :=
  let body :=
    [("grant_type", TOKEN_EXCHANGE_GRANT_TYPE);
     ("subject_token", githubToken);
     ("subject_token_type", TOKEN_TYPE_JWT);
     ("requested_token_type", TOKEN_TYPE_ACCESS_TOKEN);
     ("entity_id", entityId)] in
  let started :=
    [oidc_debug ("Exchanging token at: " +:+ tokenEndpoint apiUrl);
     call_fetch_token (tokenEndpoint apiUrl) body] in
  match fetched with
  | Throws message => (started, Throws message)
  | Gives response =>
    if negb (Http.ok response) then
      (started, Throws ("Token exchange failed: " +:+ exchangeErrorMessage response))
    else
      match Http.json response with
      | NotJson => (started, Throws "Token exchange returned invalid JSON response")
      | JsonNull => (started, Throws NULL_ACCESS_TOKEN_MESSAGE)
      | Json tokenResponse =>
        if negb (Js.truthy (TokenBody.access_token tokenResponse)) then
          (started, Throws "Token exchange response missing access_token")
        else
          (started ++
           [oidc_debug ("Token exchange successful, expires in " +:+
                        match TokenBody.expires_in tokenResponse with
                        | Some seconds => pretty seconds
                        | None => "undefined"
                        end +:+ "s")],
           Gives {| OIDCExchangeResult.accessToken :=
                      default "" (TokenBody.access_token tokenResponse);
                    OIDCExchangeResult.expiresIn := TokenBody.expires_in tokenResponse |})
      end
  end.

(** [authenticate(apiUrl, entityId)] *)
Definition authenticate (apiUrl entityId : string)
    (idToken : Attempt string) (fetched : Attempt (Http.t TokenBody.t))
  : list OidcEvent * Attempt string :=
  let started := [oidc_info "Authenticating with EnforceAuth using OIDC..."] in
  (* Step 1: Get GitHub OIDC token *)
  match getGitHubOIDCToken apiUrl idToken with
  | (evs1, Throws message) => (started ++ evs1, Throws message)
  | (evs1, Gives githubToken) =>
    (* Step 2: Exchange for EnforceAuth token *)
    match exchangeTokenForEnforceAuth apiUrl githubToken entityId fetched with
    | (evs2, Throws message) => (started ++ evs1 ++ evs2, Throws message)
    | (evs2, Gives result) =>
      (* Step 3: Mask the token in logs *)
      (started ++ evs1 ++ evs2 ++
       [oidc_setSecret (OIDCExchangeResult.accessToken result);
        oidc_info "Successfully authenticated with EnforceAuth"],
       Gives (OIDCExchangeResult.accessToken result))
    end
  end.

(** ** [api-client.ts] *)

(** [s.replace(/\/$/, "")]: without its last character when that is a
    slash. *)
Fixpoint stripTrailingSlash (s : string) : string :=
  match s with
  | EmptyString => EmptyString
  | String c EmptyString => if Ascii.eqb c "/" then EmptyString else s
  | String c rest => String c (stripTrailingSlash rest)
  end.

Module EnforceAuthClient.
Record t : Type := mk {
  apiUrl : string;
  accessToken : string
}.
(** The constructor. *)
Definition new (apiUrl accessToken : string) : t :=
  {| apiUrl := stripTrailingSlash apiUrl; accessToken := accessToken |}.
End EnforceAuthClient.

(** The parsed body of an API response seen as [ApiError] and as
    [ApiSuccessResponse<T>]: whether [success] is truthy, the two texts of
    an error, the [data] property when the object has one, and the whole
    value read as a [T]. *)
Module ApiBody.
Record t (T : Type) : Type := mk {
  success : bool;
  message : option string;
  error : option string;
  data : option T;
  self : T
}.
Arguments mk {T}.
Arguments success {T}.
Arguments message {T}.
Arguments error {T}.
Arguments data {T}.
Arguments self {T}.
End ApiBody.

Module DeployRequest.
Record t : Type := mk { commit_sha : string }.
End DeployRequest.

Inductive ClientEvent : Type :=
| client_debug (line : string)
| client_info (line : string)
| call_fetch (method url : string) (headers : list (string * string))
             (body : option DeployRequest.t).

Definition INVALID_JSON_MESSAGE : string := "API returned invalid JSON response".

(** The message for a response that is not [ok]. *)
Definition requestErrorMessage {T : Type} (response : Http.t (ApiBody.t T)) : string :=
  match Http.json response with
  | Json errorResponse =>
    showString (orOptional (ApiBody.message errorResponse) (ApiBody.error errorResponse))
  | _ => httpError response
  end.

(** [this.request<T>(method, path, {body, idempotencyKey})]; [fetched] is
    how the [fetch] and the reading of its text end. *)
Definition request {T : Type} (client : EnforceAuthClient.t) (method path : string)
    (body : option DeployRequest.t) (idempotencyKey : option string)
    (fetched : Attempt (Http.t (ApiBody.t T)))
  : list ClientEvent * Attempt T :=
  let url := EnforceAuthClient.apiUrl client +:+ path in
  let headers :=
    [("Authorization", "Bearer " +:+ EnforceAuthClient.accessToken client);
     ("Accept", "application/json")]
    ++ (match body with Some _ => [("Content-Type", "application/json")] | None => [] end)
    ++ (if Js.truthy idempotencyKey
        then [("Idempotency-Key", default "" idempotencyKey)] else []) in
  let started := [client_debug (method +:+ " " +:+ url); call_fetch method url headers body] in
  match fetched with
  | Throws message => (started, Throws message)
  | Gives response =>
    let evs :=
      started ++
      (if Http.idempotencyReplay response
       then [client_info "Request was replayed from idempotency cache"] else []) in
    if negb (Http.ok response) then
      (evs, Throws ("API request failed: " +:+ requestErrorMessage response))
    else if Http.status response =? 202 then
      (* Handle 202 Accepted (used by deploy endpoint) *)
      match Http.json response with
      | Json parsed =>
        (evs, Gives (if ApiBody.success parsed
                     then default (ApiBody.self parsed) (ApiBody.data parsed)
                     else ApiBody.self parsed))
      | _ => (evs, Throws INVALID_JSON_MESSAGE)
      end
    else
      (* Parse standard success response *)
      match Http.json response with
      | Json successResponse =>
        if negb (ApiBody.success successResponse) then
          (evs, Throws ("API returned error: " +:+
                        showString (ApiBody.message successResponse)))
        else
          (evs, Gives (default (ApiBody.self successResponse)
                               (ApiBody.data successResponse)))
      | _ => (evs, Throws INVALID_JSON_MESSAGE)
      end
  end.

(** What [request<{ logs: LogEntry[] }>] may resolve to: [null], or a value
    with or without [logs]. *)
Inductive LogsPayload : Type :=
| PayloadNull
| Payload (logs : option (list LogEntry.t)).

(** The [TypeError] of V8 for [null.logs]. *)
Definition NULL_LOGS_MESSAGE : string := "Cannot read properties of null (reading 'logs')".

(** [client.getPolicyLogs(entityId, runId, limit)] *)
Definition getPolicyLogs (client : EnforceAuthClient.t) (entityId runId : string) (limit : Z)
    (fetched : Attempt (Http.t (ApiBody.t LogsPayload)))
  : list ClientEvent * Attempt (list LogEntry.t) :=
  let '(evs, response) :=
    request client "GET"
      ("/v1/entities/" +:+ entityId +:+ "/policy-logs?run_id=" +:+ runId +:+
       "&limit=" +:+ pretty limit)
      None None fetched in
  (client_debug ("Fetching policy logs for run: " +:+ runId) :: evs,
   match response with
   | Throws message => Throws message
   | Gives PayloadNull => Throws NULL_LOGS_MESSAGE
   | Gives (Payload logs) => Gives (default [] logs)
   end).

(** What the poller sees of a call of [getPolicyLogs]. *)
Definition fetchOutcome (result : Attempt (list LogEntry.t)) : FetchOutcome :=
  match result with
  | Throws message => FetchThrew message
  | Gives logs => Fetched logs
  end.

(** ** Authentication *)

Definition isSetSecret (ev : OidcEvent) : bool :=
  match ev with oidc_setSecret _ => true | _ => false end.

Lemma truthy_nonempty (s : string) : Js.truthy (Some s) = true -> s <> "".
Proof. simpl. intros H ->. discriminate H. Qed.

Lemma getGitHubOIDCToken_inv (audience : string) (idToken : Attempt string) :
  match getGitHubOIDCToken audience idToken with
  | (evs, Gives token) =>
    idToken = Gives token /\ token <> ""
    /\ evs = [oidc_debug ("Requesting GitHub OIDC token with audience: " +:+ audience);
              call_getIDToken audience;
              oidc_setSecret token;
              oidc_debug "Successfully acquired GitHub OIDC token"]
  | (evs, Throws message) =>
    (exists cause, message = idTokenFailure cause)
    /\ filter (fun ev => isSetSecret ev = true) evs
       = match idToken with
         | Gives token => [oidc_setSecret token]
         | Throws _ => []
         end
  end.
Proof.
  unfold getGitHubOIDCToken. destruct idToken as [m|token].
  - split; [eauto|reflexivity].
  - destruct (Js.truthy (Some token)) eqn:E; cbn [negb].
    + split_and!; [reflexivity|apply truthy_nonempty, E|reflexivity].
    + split; [eauto|reflexivity].
Qed.

Lemma exchange_inv (apiUrl githubToken entityId : string)
    (fetched : Attempt (Http.t TokenBody.t)) :
  exists started,
    started = [oidc_debug ("Exchanging token at: " +:+ tokenEndpoint apiUrl);
               call_fetch_token (tokenEndpoint apiUrl)
                 [("grant_type", TOKEN_EXCHANGE_GRANT_TYPE);
                  ("subject_token", githubToken);
                  ("subject_token_type", TOKEN_TYPE_JWT);
                  ("requested_token_type", TOKEN_TYPE_ACCESS_TOKEN);
                  ("entity_id", entityId)]]
    /\ match exchangeTokenForEnforceAuth apiUrl githubToken entityId fetched with
       | (evs, Gives result) =>
         exists response tokenResponse line,
           fetched = Gives response /\ Http.ok response = true
           /\ Http.json response = Json tokenResponse
           /\ TokenBody.access_token tokenResponse
              = Some (OIDCExchangeResult.accessToken result)
           /\ OIDCExchangeResult.accessToken result <> ""
           /\ evs = started ++ [oidc_debug line]
       | (evs, Throws message) => evs = started
       end.
Proof.
  eexists. split; [reflexivity|]. unfold exchangeTokenForEnforceAuth.
  destruct fetched as [m|response]; [reflexivity|].
  destruct (Http.ok response) eqn:Hok; cbn [negb]; [|reflexivity].
  destruct (Http.json response) as [| |tokenResponse] eqn:Hjson; [reflexivity..|].
  destruct (TokenBody.access_token tokenResponse) as [token|] eqn:Htoken; [|reflexivity].
  destruct (Js.truthy (Some token)) eqn:E; cbn [negb]; [|reflexivity].
  eexists response, tokenResponse, _. split_and!; try reflexivity; auto.
  apply truthy_nonempty, E.
Qed.

(** X24.  What [authenticate] hands out, and what is masked.  When it
    returns a token, the token is not empty and comes from an [ok] response
    to an exchange that sent the GitHub token as [subject_token] and the
    entity as [entity_id] to the token endpoint of the API URL; two values
    were passed to [core.setSecret], in this order: the GitHub token, by
    [core.getIDToken] itself, and the token returned, by [authenticate].
    When it throws, no access token was masked: the one value that can have
    been passed to [core.setSecret] is the GitHub token, when
    [core.getIDToken] returned one. *)
Theorem X24_authenticate_masks_its_token (apiUrl entityId : string)
    (idToken : Attempt string) (fetched : Attempt (Http.t TokenBody.t)) :
  match authenticate apiUrl entityId idToken fetched with
  | (evs, Gives accessToken) =>
    accessToken <> ""
    /\ exists githubToken response tokenResponse,
         idToken = Gives githubToken /\ githubToken <> ""
         /\ filter (fun ev => isSetSecret ev = true) evs
            = [oidc_setSecret githubToken; oidc_setSecret accessToken]
         /\ fetched = Gives response /\ Http.ok response = true
         /\ Http.json response = Json tokenResponse
         /\ TokenBody.access_token tokenResponse = Some accessToken
         /\ call_fetch_token (apiUrl +:+ "/v1/auth/oidc/token")
              [("grant_type", TOKEN_EXCHANGE_GRANT_TYPE);
               ("subject_token", githubToken);
               ("subject_token_type", TOKEN_TYPE_JWT);
               ("requested_token_type", TOKEN_TYPE_ACCESS_TOKEN);
               ("entity_id", entityId)] ∈ evs
  | (evs, Throws _) =>
    filter (fun ev => isSetSecret ev = true) evs
    = match idToken with
      | Gives githubToken => [oidc_setSecret githubToken]
      | Throws _ => []
      end
  end.
Proof.
  unfold authenticate.
  pose proof (getGitHubOIDCToken_inv apiUrl idToken) as H1.
  destruct (getGitHubOIDCToken apiUrl idToken) as [evs1 [m|githubToken]].
  { destruct H1 as [_ H1]. rewrite filter_app. exact H1. }
  destruct H1 as (Hid & Hne & ->).
  destruct (exchange_inv apiUrl githubToken entityId fetched) as (started & Hstarted & H2).
  destruct (exchangeTokenForEnforceAuth apiUrl githubToken entityId fetched)
    as [evs2 [m|result]].
  { subst. reflexivity. }
  destruct H2 as (response & tokenResponse & line & Hf & Hok & Hjson & Htoken & Hne' & ->).
  subst started. split; [exact Hne'|].
  exists githubToken, response, tokenResponse. split_and!; auto.
  unfold tokenEndpoint. rewrite !elem_of_app, !elem_of_cons. auto 10.
Qed.

(** X25.  A token exchange that is answered but not [ok] always throws, and
    its message is ["Token exchange failed: "] followed by a detail that is
    never empty.  When the text of the answer is not JSON, or is the JSON
    [null], the detail is the HTTP status and the text.  For every other
    JSON value it is built from the cause: the description of the error,
    else its code, else ["Unknown error"], which is what a body without
    these two properties gives, a JSON number, string or array included.
    The codes [invalid_grant], [unauthorized_client] and [access_denied]
    wrap the cause in their hint, every other code leaves it as it is. *)
Theorem X25_exchange_failure_message (apiUrl githubToken entityId : string)
    (response : Http.t TokenBody.t) :
  Http.ok response = false ->
  exists detail,
    snd (exchangeTokenForEnforceAuth apiUrl githubToken entityId (Gives response))
    = Throws ("Token exchange failed: " +:+ detail)
    /\ detail <> ""
    /\ match Http.json response with
       | Json body =>
         let cause :=
           Js.or_else (TokenBody.error_description body)
             (Js.or_else (TokenBody.error body) "Unknown error") in
         cause <> ""
         /\ (exists before after, detail = before +:+ cause +:+ after
              /\ (TokenBody.error body <> Some "invalid_grant" ->
                  TokenBody.error body <> Some "unauthorized_client" ->
                  TokenBody.error body <> Some "access_denied" ->
                  before = "" /\ after = ""))
         /\ (TokenBody.error body = None -> TokenBody.error_description body = None ->
             detail = "Unknown error")
       | NotJson | JsonNull =>
         detail = "HTTP " +:+ pretty (Http.status response) +:+ ": "
                  +:+ Http.responseText response
       end.
Proof.
  intros Hok. exists (exchangeErrorMessage response).
  unfold exchangeTokenForEnforceAuth. rewrite Hok. cbn [negb snd]. split; [reflexivity|].
  unfold exchangeErrorMessage.
  destruct (Http.json response) as [| |body]; [split; [discriminate|reflexivity]..|].
  set (cause := Js.or_else _ _).
  assert (cause <> "") as Hcause.
  { apply or_else_nonempty. apply or_else_nonempty. discriminate. }
  repeat case_bool_decide.
  - split; [discriminate|]. split_and!; [exact Hcause| |congruence].
    eexists _, _. split; [reflexivity|]. congruence.
  - split; [discriminate|]. split_and!; [exact Hcause| |congruence].
    eexists _, _. split; [reflexivity|]. congruence.
  - split; [discriminate|]. split_and!; [exact Hcause| |congruence].
    eexists _, _. split; [reflexivity|]. congruence.
  - split; [exact Hcause|]. split_and!; [exact Hcause| |].
    + exists "", "". split; [|auto]. rewrite append_nil, str_app_nil_r. reflexivity.
    + intros He Hd. subst cause. rewrite He, Hd. reflexivity.
Qed.

(** ** The client *)

Lemma stripTrailingSlash_slash (s : string) : stripTrailingSlash (s +:+ "/") = s.
Proof.
  induction s as [|c s IH]; [reflexivity|].
  rewrite append_cons. cbn [stripTrailingSlash]. rewrite IH.
  destruct s; reflexivity.
Qed.

(** X26.  A slash at the end of the API URL.  The client drops it: built
    from a URL with one more slash at its end it is the same client, so for
    a URL without a slash at its end the log requests are the same with and
    without the added slash.  The token exchange keeps it: its endpoint
    then has two slashes and is another URL. *)
Theorem X26_trailing_slash (base accessToken : string) :
  EnforceAuthClient.new (base +:+ "/") accessToken
  = {| EnforceAuthClient.apiUrl := base; EnforceAuthClient.accessToken := accessToken |}
  /\ (stripTrailingSlash base = base ->
      forall entityId runId limit fetched,
        getPolicyLogs (EnforceAuthClient.new (base +:+ "/") accessToken)
          entityId runId limit fetched
        = getPolicyLogs (EnforceAuthClient.new base accessToken) entityId runId limit fetched)
  /\ tokenEndpoint (base +:+ "/") = base +:+ "//v1/auth/oidc/token"
  /\ tokenEndpoint (base +:+ "/") <> tokenEndpoint base.
Proof.
  assert (EnforceAuthClient.new (base +:+ "/") accessToken
          = {| EnforceAuthClient.apiUrl := base;
               EnforceAuthClient.accessToken := accessToken |}) as Hnew.
  { unfold EnforceAuthClient.new. rewrite stripTrailingSlash_slash. reflexivity. }
  split_and!.
  - exact Hnew.
  - intros Hbase entityId runId limit fetched. rewrite Hnew.
    unfold EnforceAuthClient.new. rewrite Hbase. reflexivity.
  - unfold tokenEndpoint. rewrite str_app_assoc, append_cons, append_nil. reflexivity.
  - unfold tokenEndpoint. rewrite str_app_assoc, append_cons, append_nil.
    intros H. apply str_app_inv_head in H. discriminate H.
Qed.

(** X27.  Once the server has answered, every error of [request] has a
    message that starts with ["API"], which is what its own last [catch]
    relies on to tell its errors from those of the parser; and a value is
    returned only for an [ok] response whose text is JSON and not [null]. *)
Theorem X27_request_errors {T : Type} (client : EnforceAuthClient.t) (method path : string)
    (body : option DeployRequest.t) (idempotencyKey : option string)
    (response : Http.t (ApiBody.t T)) :
  match snd (request client method path body idempotencyKey (Gives response)) with
  | Throws message => String.prefix "API" message = true
  | Gives _ => Http.ok response = true /\ exists parsed, Http.json response = Json parsed
  end.
Proof.
  unfold request.
  destruct (Http.ok response); cbn [negb snd]; [|reflexivity].
  destruct (Http.status response =? 202).
  - destruct (Http.json response) as [| |parsed]; cbn [snd]; [reflexivity..|]. eauto.
  - destruct (Http.json response) as [| |parsed]; cbn [snd]; [reflexivity..|].
    destruct (ApiBody.success parsed); cbn [negb snd]; [eauto|reflexivity].
Qed.

Lemma isPermanentAuthError_request_failed (detail : string) :
  isPermanentAuthError ("API request failed: " +:+ detail) = isPermanentAuthError detail.
Proof. reflexivity. Qed.

(** X28.  How the poller takes an HTTP error of the logs endpoint.  For a
    response that is not [ok], [getPolicyLogs] throws
    ["API request failed: "] followed by a detail.  When the text of the
    answer is not JSON, or is the JSON [null], the detail is the HTTP
    status and the text.  For every other JSON value it is the [message]
    of the body when that is not empty, else its [error], and the word
    [undefined] when the body has neither.  A turn of the loop that gets
    this error before the deadline ends the session at once when the
    detail mentions [insufficient_scope] or [Forbidden]: the result is
    [failed] and its message is the remediation text of the code, word for
    word.  Otherwise the turn warns, sleeps and goes on with the next one.
    The status code of a JSON answer plays no part in this. *)
Theorem X28_logs_http_error (Date_getTime : string -> option Z)
    (cfg : Cfg.t) (entityId runId : string) (timeoutMinutes startTime : Z) (st : Session)
    (client : EnforceAuthClient.t) (time : Z)
    (answer : Http.t (ApiBody.t LogsPayload)) (rest : list Tick) :
  Http.ok answer = false ->
  time - startTime < timeoutMinutes * 60 * 1000 ->
  let outcome :=
    fetchOutcome (snd (getPolicyLogs client entityId runId (Cfg.logLimit cfg)
                         (Gives answer))) in
  let detail :=
    match Http.json answer with
    | Json body =>
      match ApiBody.message body, ApiBody.error body with
      | Some (String c text), _ => String c text
      | _, Some text => text
      | _, None => "undefined"
      end
    | NotJson | JsonNull =>
      "HTTP " +:+ pretty (Http.status answer) +:+ ": " +:+ Http.responseText answer
    end in
  let turn :=
    pollLoop Date_getTime cfg entityId runId timeoutMinutes startTime st
      (mkTick time outcome :: rest) in
  let fetch := call_getPolicyLogs entityId runId (Cfg.logLimit cfg) in
  outcome = FetchThrew ("API request failed: " +:+ detail)
  /\ (Js.includes detail "insufficient_scope" || Js.includes detail "Forbidden" = true ->
      exists result,
        turn = ([fetch; core_error AuthorizationError], Returned result)
        /\ PollingResult.status result = failed
        /\ PollingResult.errorMessage result
           = Some "Missing 'pipeline:read' scope in trust policy. Add the 'Read' permission in the EnforceAuth console.")
  /\ (Js.includes detail "insufficient_scope" || Js.includes detail "Forbidden" = false ->
      turn
      = ([fetch; core_warning (FetchFailed ("API request failed: " +:+ detail));
          call_sleep (Cfg.pollDelayMs cfg)]
         ++ fst (pollLoop Date_getTime cfg entityId runId timeoutMinutes startTime st rest),
         snd (pollLoop Date_getTime cfg entityId runId timeoutMinutes startTime st rest))).
Proof.
  intros Hok Hearly outcome detail turn fetch.
  assert (outcome = FetchThrew ("API request failed: " +:+ detail)) as Houtcome.
  { subst outcome detail. unfold getPolicyLogs, request. rewrite Hok. cbn [negb snd].
    unfold fetchOutcome, requestErrorMessage, httpError.
    unfold showString, orOptional.
    destruct (Http.idempotencyReplay answer); destruct (Http.json answer) as [| |body];
      try reflexivity;
      destruct (ApiBody.message body) as [[|c text]|], (ApiBody.error body); reflexivity. }
  split; [exact Houtcome|].
  assert ((timeoutMinutes * 60 * 1000 <=? time - startTime) = false) as Hdeadline
    by (apply Z.leb_gt; exact Hearly).
  subst turn. rewrite Houtcome. cbn [pollLoop now response].
  rewrite Hdeadline, isPermanentAuthError_request_failed. unfold isPermanentAuthError.
  split; intros ->.
  - eexists. split_and!; reflexivity.
  - destruct (pollLoop _ _ _ _ _ _ _ rest). reflexivity.
Qed.

(** ** From the inputs to the poller *)

Lemma elem_of_turns (cfg : Cfg.t) (entityId runId : string) (n : nat) (ev : Event) :
  ev ∈ turns cfg entityId runId n ->
  ev = call_getPolicyLogs entityId runId (Cfg.logLimit cfg)
  \/ ev = call_sleep (Cfg.pollDelayMs cfg).
Proof.
  induction n as [|n IH]; cbn [turns]; [intros H; inversion H|].
  rewrite !elem_of_cons. intros [->|[->|H]]; auto.
Qed.

(** X29.  The polling that [run] starts keeps to the validated inputs.  When
    [run] calls [pollForCompletion] with a timeout and a delay that are
    numbers, the timeout is between 1 and 60 minutes and the delay between
    1000 and 30000 ms; and in the polling so configured every sleep is that
    delay and every fetch asks for the logs of the entity and the run just
    triggered, 200 at most. *)
Theorem X29_polling_keeps_to_inputs
    (core_getInput : string -> string)
    (core_getInput_required : string -> Attempt string)
    (core_getBooleanInput : string -> Attempt bool)
    (sha256_hex : string -> string) (context : Context.t) (startTime endTime : Z)
    (await_authenticate : string -> string -> Attempt string)
    (await_triggerDeployment : string -> string -> string -> string -> Attempt string)
    (await_pollForCompletion :
       string -> string -> string -> string -> option Z -> option Z -> LogVerbosity ->
       Attempt PollingResult.t)
    (apiUrl accessToken entityId runId : string) (minutes delay : Z)
    (logVerbosity : LogVerbosity) :
  call_pollForCompletion apiUrl accessToken entityId runId (Some minutes) (Some delay)
    logVerbosity
    ∈ run core_getInput core_getInput_required core_getBooleanInput sha256_hex context
        startTime endTime await_authenticate await_triggerDeployment await_pollForCompletion ->
  1 <= minutes <= 60
  /\ 1000 <= delay <= 30000
  /\ forall (Date_getTime : string -> option Z) (pollStart : Z) (ticks : list Tick)
            (ev : Event),
       ev ∈ fst (pollForCompletion Date_getTime pollStart ticks entityId runId minutes
                   {| PollingConfig.pollDelayMs := Some delay;
                      PollingConfig.logLimit := None;
                      PollingConfig.logVerbosity := Some logVerbosity |}) ->
       match ev with
       | call_sleep ms => ms = delay
       | call_getPolicyLogs entityId' runId' limit =>
         entityId' = entityId /\ runId' = runId /\ limit = 200
       | _ => True
       end.
Proof.
  intros (inputs & Hinputs & -> & -> & Htm & Hpd & -> & _)%run_poll_inv.
  apply getInputs_inv in Hinputs as (_ & _ & _ & _ & _ & _ & _ & Ht1 & Ht2 & Hp1 & Hp2).
  rewrite <- Htm in Ht1, Ht2.
  destruct (ActionInputs.pollIntervalSeconds inputs) as [seconds|]; [|discriminate Hpd].
  injection Hpd as ->. simpl in Ht1, Ht2, Hp1, Hp2.
  split_and!; try lia.
  intros Date_getTime pollStart ticks ev Hev.
  set (config := {| PollingConfig.pollDelayMs := Some (seconds * 1000);
                    PollingConfig.logLimit := None;
                    PollingConfig.logVerbosity := Some (ActionInputs.logVerbosity inputs) |})
    in *.
  assert (isCall ev = true -> ev ∈ callsOf (fst (pollForCompletion Date_getTime pollStart ticks
            (ActionInputs.entityId inputs) runId minutes config))) as Hcall.
  { intros Hc. apply list_elem_of_filter. auto. }
  unfold pollForCompletion in Hcall.
  destruct (pollLoop_calls Date_getTime (mergeConfig config) (ActionInputs.entityId inputs)
              runId minutes pollStart ticks newSession) as (n & last & Hcalls & Hlast & _).
  destruct (pollLoop Date_getTime (mergeConfig config) (ActionInputs.entityId inputs) runId
              minutes pollStart newSession ticks) as [evs out].
  cbn [fst] in Hcall, Hcalls.
  change (callsOf ([core_info (PollingStarted minutes); core_info Blank] ++ evs))
    with (callsOf evs) in Hcall.
  rewrite Hcalls in Hcall.
  assert (isCall ev = true ->
          ev = call_getPolicyLogs (ActionInputs.entityId inputs) runId 200
          \/ ev = call_sleep (seconds * 1000)) as Hshape.
  { intros Hc. apply Hcall in Hc. apply elem_of_app in Hc as [Hc|Hc].
    - apply elem_of_turns in Hc. exact Hc.
    - destruct Hlast as [->| ->]; [inversion Hc|]. apply list_elem_of_singleton in Hc. auto. }
  destruct ev; try exact I.
  - destruct Hshape as [H|H]; [reflexivity|injection H as -> -> ->; auto|discriminate H].
  - destruct Hshape as [H|H]; [reflexivity|discriminate H|injection H as ->; reflexivity].
Qed.

(** ** The extra statements on concrete runs *)

Module More.

Definition cfg : Cfg.t := mergeConfig Sample.defaults.

(** Two lines of the same instant that differ between their first and
    their last twenty characters only. *)
Definition lineA : LogEntry.t :=
  Sample.line Run.t0 "info" "Phase build: step 01 ok on runner eu-west-1" None.
Definition lineB : LogEntry.t :=
  Sample.line Run.t0 "info" "Phase build: step 01 ko on runner eu-west-1" None.

(** The session a batch leaves behind. *)
Definition after (logs : list LogEntry.t) : Session :=
  match snd (processLogs isoTime cfg newSession logs) with
  | inl st => st
  | inr _ => newSession
  end.

(** Two short lines of the same instant that differ in their level. *)
Definition shortA : LogEntry.t := Sample.line Run.t0 "info" "ready" None.
Definition shortB : LogEntry.t := Sample.line Run.t0 "debug" "ready" None.

(** A phase whose start cannot be read, followed by one whose start can. *)
Definition unreadable : gmap string PhaseTiming.t :=
  {[ "plan" := PhaseTiming.mk "yesterday" None; "apply" := PhaseTiming.mk Run.t1 None ]}.

(** Two phases, then the completion. *)
Definition completed : list Tick :=
  [mkTick 0 (Fetched [Sample.phase "plan" Run.t0; Sample.phase "apply" Run.t1]);
   mkTick 2000 (Fetched [Sample.pipeline_complete Run.t3 (Some 20000) (Some "v42")])].

(** Three turns in which the fetch is refused. *)
Definition refused : list Tick :=
  [mkTick 0 (FetchThrew "API request failed: Forbidden");
   mkTick 2000 (FetchThrew "API request failed: Forbidden");
   mkTick 4000 (FetchThrew "API request failed: Forbidden")].

Definition longHead : string :=
  "Deploying bundle 2024.05.01 to production cluster eu-west-1: ".
Definition longA : LogEntry.t := Sample.line Run.t0 "info" (longHead +:+ "step 1") None.
Definition longB : LogEntry.t := Sample.line Run.t0 "info" (longHead +:+ "step 2") None.

Definition afterThrowing (log : LogEntry.t) : PollingTs.Session :=
  match snd (Throwing.processEntry PollingTs.newSession log) with
  | inl st => st
  | inr _ => PollingTs.newSession
  end.

(** The inputs of a workflow that sets a timeout of ["15 minutes"] and
    leaves the rest to the defaults of [action.yml]. *)
Definition core_getInput (name : string) : string :=
  if String.eqb name "timeout-minutes" then "15 minutes" else "".
Definition core_getInput_required (name : string) : Attempt string := Gives "entity-1".
Definition core_getBooleanInput (name : string) : Attempt bool :=
  Gives (String.eqb name "wait-for-completion").

Definition inputs : ActionInputs.t :=
  {| ActionInputs.entityId := "entity-1";
     ActionInputs.apiUrl := DEFAULT_API_URL;
     ActionInputs.waitForCompletion := true;
     ActionInputs.timeoutMinutes := Some 15;
     ActionInputs.dryRun := false;
     ActionInputs.pollIntervalSeconds := Some 2;
     ActionInputs.logVerbosity := normal |}.

Definition push : Context.t :=
  Context.mk (Gives ("acme", "policies")) "refs/heads/main" "9fceb02" "deploy" "opa" 7 1.
Definition tag : Context.t :=
  Context.mk (Gives ("acme", "policies")) "refs/tags/v1" "9fceb02" "deploy" "opa" 7 1.

(** A run in which every call succeeds; the digest is a stand-in. *)
Definition events : list RunEvent :=
  run core_getInput core_getInput_required core_getBooleanInput (fun s => s) push 0 1000
    (fun _ _ => Gives "token") (fun _ _ _ _ => Gives "run-1")
    (fun _ _ _ _ _ _ _ => Throws "stopped").

Definition invalidGrant : Http.t TokenBody.t :=
  Http.mk false 400 "{...}" false
    (Json (TokenBody.mk (Some "invalid_grant") (Some "token expired") None None)).

Definition forbidden : Http.t (ApiBody.t LogsPayload) :=
  Http.mk false 403 "{...}" false
    (Json (ApiBody.mk false (Some "Forbidden: missing scope") (Some "forbidden") None
             PayloadNull)).

End More.

Lemma X1_witness :
  getLogId More.lineB = getLogId More.lineA
  /\ processEntry isoTime More.cfg (More.after [More.lineA]) More.lineB
     = ([], inl (More.after [More.lineA])).
Proof.
  destruct (X1_getLogId_middle_blind isoTime More.cfg newSession (More.after [More.lineA])
              More.lineA More.lineB "Phase build: step 01" " ok" " ko" " on runner eu-west-1"
              (fst (processEntry isoTime More.cfg newSession More.lineA)))
    as [Hid Hskip]; try reflexivity.
  split; [exact Hid|]. apply Hskip. vm_compute. reflexivity.
Defined.

Lemma X2_witness : LogEntry.message More.shortB = LogEntry.message More.shortA.
Proof.
  apply X2_getLogId_short_messages; try reflexivity; simpl; lia.
Defined.

Lemma X5_witness :
  totalDuration
    (calculatePhaseDurations isoTime (phaseTimings Run.threePhases) (phases Run.threePhases)
       (Some Run.t3))
    (phases Run.threePhases)
  = 20000.
Proof.
  rewrite (X5_durations_add_up isoTime (phaseTimings Run.threePhases) (phases Run.threePhases)
             [default 0 (isoTime Run.t0); default 0 (isoTime Run.t1); default 0 (isoTime Run.t2)]
             Run.t3 (default 0 (isoTime Run.t0)) (default 0 (isoTime Run.t3))).
  - vm_compute. reflexivity.
  - by_decide.
  - change (phases Run.threePhases) with ["plan"; "apply"; "verify"].
    apply List.Forall2_cons;
      [exists (PhaseTiming.mk Run.t0 None); split_and!; vm_compute; reflexivity|].
    apply List.Forall2_cons;
      [exists (PhaseTiming.mk Run.t1 None); split_and!; vm_compute; reflexivity|].
    apply List.Forall2_cons;
      [exists (PhaseTiming.mk Run.t2 None); split_and!; vm_compute; reflexivity|].
    apply List.Forall2_nil.
  - reflexivity.
  - discriminate.
  - vm_compute. reflexivity.
Defined.

Lemma X6_witness :
  getInputs More.core_getInput More.core_getInput_required More.core_getBooleanInput
  = Gives More.inputs
  /\ ActionInputs.apiUrl More.inputs <> ""
  /\ (forall m, ActionInputs.timeoutMinutes More.inputs = Some m -> 1 <= m <= 60).
Proof.
  assert (getInputs More.core_getInput More.core_getInput_required More.core_getBooleanInput
          = Gives More.inputs) as H by (vm_compute; reflexivity).
  split; [exact H|].
  destruct (X6_getInputs_accepted _ _ _ _ H) as (Ht & _ & Hurl & _). auto.
Defined.

Lemma X7_witness :
  calculatePhaseDurations isoTime More.unreadable ["plan"; "apply"] (Some Run.t3) !! "plan"
  = Some (PhaseTiming.mk "yesterday" None).
Proof.
  apply (X7_unreadable_timestamps isoTime More.unreadable ["plan"; "apply"] (Some Run.t3)
           0%nat "plan" (PhaseTiming.mk "yesterday" None)).
  - by_decide.
  - reflexivity.
  - vm_compute. reflexivity.
  - reflexivity.
  - vm_compute. reflexivity.
Defined.

Lemma X8_witness :
  exists evs r,
    pollForCompletion isoTime 0 More.completed "entity" "run" 1 Sample.defaults
    = (evs, Returned r)
    /\ NoDup (PollingResult.phases r) /\ resultShape r.
Proof.
  assert (exists evs r,
             pollForCompletion isoTime 0 More.completed "entity" "run" 1 Sample.defaults
             = (evs, Returned r)) as (evs & r & Hrun)
    by (eexists _, _; vm_compute; reflexivity).
  exists evs, r. split; [exact Hrun|].
  destruct (X8_returned_result_well_formed isoTime _ _ _ _ _ _ evs r Hrun) as (H1 & _ & H3).
  auto.
Defined.

Lemma X11_witness :
  exists evs r tick,
    pollLoop isoTime More.cfg "entity" "run" 1 0 newSession More.completed = (evs, Returned r)
    /\ tick ∈ More.completed.
Proof.
  assert (exists evs r,
             pollLoop isoTime More.cfg "entity" "run" 1 0 newSession More.completed
             = (evs, Returned r)) as (evs & r & Hrun)
    by (eexists _, _; vm_compute; reflexivity).
  destruct (X11_result_has_cause isoTime _ _ _ _ _ _ _ evs r Hrun) as (tick & Hin & _).
  exists evs, r, tick. auto.
Defined.

Lemma X13_witness :
  exists evs r,
    pollForCompletion isoTime 0 (Run.quietMinute ++ mkTick 60000 (Fetched []) :: [])
      "entity" "run" 1 Sample.defaults = (evs, Returned r)
    /\ (fetchCalls evs <= length Run.quietMinute)%nat.
Proof.
  apply (X13_no_fetch_past_deadline isoTime 0 Run.quietMinute (mkTick 60000 (Fetched [])) []
           "entity" "run" 1 Sample.defaults).
  simpl. lia.
Defined.

Lemma X15_witness :
  snd (PollingTs.pollLoop More.cfg "entity" "run" 1 0 PollingTs.newSession More.refused)
  = Polling PollingTs.newSession
  /\ fetchCalls (fst (PollingTs.pollLoop More.cfg "entity" "run" 1 0 PollingTs.newSession
                        More.refused))
     = length More.refused.
Proof.
  apply X15_PollingTs_fetch_failures_never_end.
  repeat constructor; simpl; try lia; eexists; reflexivity.
Defined.

Lemma X17_witness :
  Throwing.getLogId More.longB = Throwing.getLogId More.longA
  /\ Throwing.processEntry (More.afterThrowing More.longA) More.longB
     = ([], inl (More.afterThrowing More.longA)).
Proof.
  destruct (X17_Throwing_identity PollingTs.newSession (More.afterThrowing More.longA)
              More.longA More.longB More.longHead "step 1" "step 2"
              (fst (Throwing.processEntry PollingTs.newSession More.longA)))
    as [Hid Hskip]; try reflexivity.
  - left. vm_compute. lia.
  - split; [exact Hid|]. apply Hskip. vm_compute. reflexivity.
Defined.

Lemma X19_witness :
  getInputs More.core_getInput More.core_getInput_required More.core_getBooleanInput
  <> Throws TIMEOUT_RANGE_MESSAGE
  /\ forall inputs,
       getInputs More.core_getInput More.core_getInput_required More.core_getBooleanInput
       = Gives inputs ->
       ActionInputs.timeoutMinutes inputs = Some 15.
Proof.
  destruct (X19_timeout_numeric_prefix More.core_getInput More.core_getInput_required
              More.core_getBooleanInput "entity-1" true false eq_refl eq_refl eq_refl)
    as [Hprefix _].
  destruct (Hprefix 15%N " minutes") as [_ Hin]; [vm_compute; reflexivity|reflexivity|].
  apply Hin. simpl. lia.
Defined.

Lemma X23_witness :
  getIdempotencyContext More.push "entity-1" = getIdempotencyContext More.tag "entity-1".
Proof.
  apply X23_hashed_text_determines_context.
  - repeat constructor.
  - vm_compute. reflexivity.
Defined.

Lemma X25_witness :
  exists detail,
    snd (exchangeTokenForEnforceAuth DEFAULT_API_URL "jwt" "entity-1" (Gives More.invalidGrant))
    = Throws ("Token exchange failed: " +:+ detail)
    /\ detail <> "".
Proof.
  destruct (X25_exchange_failure_message DEFAULT_API_URL "jwt" "entity-1" More.invalidGrant
              eq_refl) as (detail & Hthrows & Hdetail & _).
  exists detail. auto.
Defined.

Lemma X28_witness :
  fetchOutcome
    (snd (getPolicyLogs (EnforceAuthClient.new DEFAULT_API_URL "token") "entity" "run"
            (Cfg.logLimit More.cfg) (Gives More.forbidden)))
  = FetchThrew "API request failed: Forbidden: missing scope".
Proof.
  assert (0 - 0 < 1 * 60 * 1000) as Hearly by lia.
  destruct (X28_logs_http_error isoTime More.cfg "entity" "run" 1 0 newSession
              (EnforceAuthClient.new DEFAULT_API_URL "token") 0 More.forbidden []
              eq_refl Hearly) as (Houtcome & _).
  exact Houtcome.
Defined.

Lemma X29_witness : 1 <= 15 <= 60 /\ 1000 <= 2000 <= 30000.
Proof.
  destruct (X29_polling_keeps_to_inputs
              More.core_getInput More.core_getInput_required More.core_getBooleanInput
              (fun s => s) More.push 0 1000
              (fun _ _ => Gives "token") (fun _ _ _ _ => Gives "run-1")
              (fun _ _ _ _ _ _ _ => Throws "stopped")
              DEFAULT_API_URL "token" "entity-1" "run-1" 15 2000 normal)
    as (Hminutes & Hdelay & _).
  - apply list_elem_of_In. vm_compute. do 22 right. left. reflexivity.
  - split; assumption.
Defined.
